(** * ComfyUI workflow clients: a shallow embedding

    The two scripts [openpose-workflow.py] and [qwen-mutli-workflow.py] share
    one [ComfyUIClient] class (identical but for the module docstring) and
    differ in their workflow patch helpers.  This development embeds

    - the Python operations the scripts apply to parsed JSON ([Py]),
    - [os.path.splitext], [os.path.basename], [os.path.join] (the POSIX
      versions) and the timestamp format ([Path]),
    - [queue_prompt], [wait_for_completion] and [generate_image] ([Client]),
    - the patch helpers [update_workflow_*] ([Patch]),
    - [_build_url], [_build_ws_url], [_get_headers] and [upload_image]
      ([Net]) and [find_images_in_folder] ([Folder]),

    states the notions of the specification over them ([Spec]) and proves
    its properties, and then further properties of the code, whose notions
    are in [More].

    Conventions.  Text is a Rocq [string], a sequence of bytes: the scripts
    only search for the ASCII characters '.' and '/', which never occur inside
    a multi-byte UTF-8 sequence; slices ([[:200]], [[:1000]]) count bytes.
    JSON numbers are the integers.  The remote service, the clock and the
    file system are inputs of the model: each call that reaches them takes
    its answer from a record describing the environment, and a computation
    is the list of the events it causes together with the way it ends.  The
    TLS options the client builds and the attribute [self.ws] that holds
    the connection have no part in what is proved and are left out, and so
    is what a request is sent with: the answers of the service do not
    depend on it in the model. *)

From Stdlib Require Import String Ascii List ZArith Bool Lia.
From Stdlib Require Import Sorted Permutation.
Import ListNotations.
Local Open Scope string_scope.
Local Open Scope list_scope.
Set Warnings "-register-all".

(** ** Parsed JSON and the Python operations on it *)

Module Py.

(** What [json.loads] / [response.json()] return.  An object keeps its
    members in document order, as a Python [dict] does. *)
Inductive json : Type :=
| JNull
| JBool (b : bool)
| JNum (n : Z)
| JStr (s : string)
| JArr (items : list json)
| JObj (members : list (string * json)).

(** Formatted output: a printed line (or an exception message) is kept as
    the pieces of its f-string. *)
Inductive piece : Type :=
| Lit (s : string)            (* literal text, or a [str] value *)
| Fmt (v : json)              (* [{v}]: [str(v)] of a JSON value *)
| Dumps (v : json)            (* [json.dumps(v, indent=2)] *)
| ReprOf (msg : list piece).  (* [repr] of a message, as [str(KeyError(msg))] *)

Definition line := list piece.

Inductive exn : Type :=
| KeyError (msg : line)
| TypeError
| AttributeError
| IndexError
| ValueError (msg : line)
| JSONDecodeError
| TimeoutError
| FileNotFoundError
| OSError
| WebSocketException
| RequestException (msg : string).

Inductive result (A : Type) : Type :=
| Ok (a : A)
| Raise (e : exn).
Arguments Ok {A} a.
Arguments Raise {A} e.

(** [d.get(k)] on the members of a [dict] whose keys are strings. *)
Fixpoint assoc (k : string) (m : list (string * json)) : option json :=
  match m with
  | [] => None
  | (k', v) :: m' => if String.eqb k k' then Some v else assoc k m'
  end.

(** [d[k] = v] on the members of a [dict]: an existing key keeps its place,
    a new key goes last. *)
Fixpoint assoc_set (k : string) (v : json) (m : list (string * json))
  : list (string * json) :=
  match m with
  | [] => [(k, v)]
  | (k', v') :: m' =>
      if String.eqb k k' then (k', v) :: m' else (k', v') :: assoc_set k v m'
  end.

(** [needle in hay] for two [str]. *)
Fixpoint contains (needle hay : string) : bool :=
  prefix needle hay
  || match hay with
     | EmptyString => false
     | String _ hay' => contains needle hay'
     end.

(** The characters of a [str], each as a [str] of length one. *)
Fixpoint chars (s : string) : list json :=
  match s with
  | EmptyString => []
  | String c s' => JStr (String c EmptyString) :: chars s'
  end.

Definition hashable (v : json) : bool :=
  match v with
  | JArr _ | JObj _ => false
  | _ => true
  end.

Definition Z_of_bool (b : bool) : Z := if b then 1%Z else 0%Z.

(** [a == b].  [bool] is a subclass of [int]; two [dict]s are equal when
    they have the same keys with equal values, whatever the order. *)
Fixpoint py_eq (a b : json) {struct a} : bool :=
  match a, b with
  | JNull, JNull => true
  | JBool x, JBool y => Bool.eqb x y
  | JBool x, JNum n => Z.eqb (Z_of_bool x) n
  | JNum n, JBool y => Z.eqb n (Z_of_bool y)
  | JNum n, JNum n' => Z.eqb n n'
  | JStr s, JStr s' => String.eqb s s'
  | JArr l, JArr l' =>
      (fix all2 (l l' : list json) {struct l} : bool :=
         match l, l' with
         | [], [] => true
         | x :: r, y :: r' => py_eq x y && all2 r r'
         | _, _ => false
         end) l l'
  | JObj m, JObj m' =>
      Nat.eqb (length m) (length m')
      && (fix sub (m : list (string * json)) {struct m} : bool :=
            match m with
            | [] => true
            | (k, v) :: r =>
                match assoc k m' with
                | Some v' => py_eq v v' && sub r
                | None => false
                end
            end) m
  | _, _ => false
  end.

(** Truth value of a JSON value, as [if v:] takes it. *)
Definition truthy (v : json) : bool :=
  match v with
  | JNull => false
  | JBool b => b
  | JNum n => negb (Z.eqb n 0)
  | JStr s => negb (String.eqb s "")
  | JArr l => match l with [] => false | _ => true end
  | JObj m => match m with [] => false | _ => true end
  end.

(** An integer index into a sequence of length [len]: negative indices
    count from the end. *)
Definition seq_index (i : Z) (len : nat) : option nat :=
  let n := Z.of_nat len in
  let j := if (i <? 0)%Z then (i + n)%Z else i in
  if ((0 <=? j) && (j <? n))%Z then Some (Z.to_nat j) else None.

Definition int_of (k : json) : option Z :=
  match k with
  | JNum n => Some n
  | JBool b => Some (Z_of_bool b)
  | _ => None
  end.

(** [c[k]]. *)
Definition py_getitem (c k : json) : result json :=
  match c with
  | JObj m =>
      match k with
      | JStr s => match assoc s m with
                  | Some v => Ok v
                  | None => Raise (KeyError [Fmt k])
                  end
      | JArr _ | JObj _ => Raise TypeError             (* unhashable key *)
      | _ => Raise (KeyError [Fmt k])
      end
  | JArr l =>
      match int_of k with
      | Some i => match seq_index i (length l) with
                  | Some j => match nth_error l j with
                              | Some v => Ok v
                              | None => Raise IndexError
                              end
                  | None => Raise IndexError
                  end
      | None => Raise TypeError
      end
  | JStr s =>
      match int_of k with
      | Some i => match seq_index i (String.length s) with
                  | Some j => match nth_error (chars s) j with
                              | Some v => Ok v
                              | None => Raise IndexError
                              end
                  | None => Raise IndexError
                  end
      | None => Raise TypeError
      end
  | _ => Raise TypeError                                (* not subscriptable *)
  end.

(** [x in c]. *)
Definition py_in (x c : json) : result bool :=
  match c with
  | JObj m =>
      match x with
      | JStr s => Ok (match assoc s m with Some _ => true | None => false end)
      | JArr _ | JObj _ => Raise TypeError             (* unhashable *)
      | _ => Ok false
      end
  | JArr l => Ok (existsb (fun y => py_eq x y) l)
  | JStr s =>
      match x with
      | JStr n => Ok (contains n s)
      | _ => Raise TypeError
      end
  | _ => Raise TypeError                                (* not iterable *)
  end.

(** [for x in c]: the values the loop visits. *)
Definition py_iter (c : json) : result (list json) :=
  match c with
  | JArr l => Ok l
  | JObj m => Ok (map (fun kv => JStr (fst kv)) m)
  | JStr s => Ok (chars s)
  | _ => Raise TypeError
  end.

(** [c.get(k, default)]; only a [dict] has the method. *)
Definition py_get (c : json) (k : string) (default : json) : result json :=
  match c with
  | JObj m => Ok (match assoc k m with Some v => v | None => default end)
  | _ => Raise AttributeError
  end.

(** [c.items()]. *)
Definition py_items (c : json) : result (list (string * json)) :=
  match c with
  | JObj m => Ok m
  | _ => Raise AttributeError
  end.

(** [c[k] = v] with a [str] key: a new value for the container. *)
Definition py_setitem (c : json) (k : string) (v : json) : result json :=
  match c with
  | JObj m => Ok (JObj (assoc_set k v m))
  | _ => Raise TypeError
  end.

Fixpoint take (n : nat) (s : string) {struct s} : string :=
  match s, n with
  | String c s', S n' => String c (take n' s')
  | _, _ => EmptyString
  end.

(** [v[:n]]; what cannot be sliced raises (the kind of error does not
    matter to the callers, which catch every exception). *)
Definition py_prefix (n : nat) (v : json) : result json :=
  match v with
  | JStr s => Ok (JStr (take n s))
  | JArr l => Ok (JArr (firstn n l))
  | _ => Raise TypeError
  end.

(** [isinstance(v, dict)]. *)
Definition is_dict (v : json) : bool :=
  match v with JObj _ => true | _ => false end.

End Py.
Export Py.

(** ** [os.path] and the timestamp *)

Module Path.

Fixpoint drop (n : nat) (s : string) {struct s} : string :=
  match s, n with
  | String _ s', S n' => drop n' s'
  | _, _ => s
  end.

(** [s.rfind(c)] for a one-character [c]: the last index of [c], [-1] when
    [c] does not occur. *)
Fixpoint rfind (c : ascii) (s : string) : Z :=
  match s with
  | EmptyString => (-1)%Z
  | String a s' =>
      let r := rfind c s' in
      if (0 <=? r)%Z then (r + 1)%Z
      else if Ascii.eqb a c then 0%Z else (-1)%Z
  end.

Definition sep : ascii := "/"%char.
Definition extsep : ascii := "."%char.

(** [p[i:i+1] != extsep]. *)
Definition not_dot_at (p : string) (i : nat) : bool :=
  match String.get i p with
  | Some a => negb (Ascii.eqb a extsep)
  | None => true
  end.

(** The [while filenameIndex < dotIndex] loop of [genericpath._splitext]:
    [true] when it returns from inside the loop, having met a character
    that is not a dot; [steps] is [dotIndex - filenameIndex]. *)
Fixpoint skip_leading_dots (p : string) (filenameIndex steps : nat) : bool :=
  match steps with
  | O => false
  | S steps' =>
      if not_dot_at p filenameIndex then true
      else skip_leading_dots p (S filenameIndex) steps'
  end.

(** [os.path.splitext(p)] (posixpath). *)
Definition splitext (p : string) : string * string :=
  let sepIndex := rfind sep p in
  let dotIndex := rfind extsep p in
  if (sepIndex <? dotIndex)%Z then
    let filenameIndex := Z.to_nat (sepIndex + 1) in
    if skip_leading_dots p filenameIndex (Z.to_nat dotIndex - filenameIndex)
    then (take (Z.to_nat dotIndex) p, drop (Z.to_nat dotIndex) p)
    else (p, "")
  else (p, "").

(** [os.path.basename(p)]. *)
Definition basename (p : string) : string :=
  drop (Z.to_nat (rfind sep p + 1)) p.

Definition startswith_sep (s : string) : bool :=
  match s with
  | String a _ => Ascii.eqb a sep
  | EmptyString => false
  end.

Fixpoint endswith_sep (s : string) : bool :=
  match s with
  | EmptyString => false
  | String a EmptyString => Ascii.eqb a sep
  | String _ s' => endswith_sep s'
  end.

(** [os.path.join(a, b)]. *)
Definition join (a b : string) : string :=
  if startswith_sep b then b
  else if String.eqb a "" || endswith_sep a then a ++ b
  else a ++ "/" ++ b.

(** What [datetime.now()] returns, to the second. *)
Record datetime : Type := {
  year : nat; month : nat; day : nat;
  hour : nat; minute : nat; second : nat
}.

Definition digit (n : nat) : ascii :=
  match n mod 10 with
  | 0 => "0" | 1 => "1" | 2 => "2" | 3 => "3" | 4 => "4"
  | 5 => "5" | 6 => "6" | 7 => "7" | 8 => "8" | _ => "9"
  end%char.

Definition pad2 (n : nat) : string :=
  String (digit (n / 10)) (String (digit n) "").

Definition pad4 (n : nat) : string :=
  String (digit (n / 1000)) (String (digit (n / 100)) (pad2 n)).

(** [dt.strftime("%Y%m%d_%H%M%S")], for a year of four digits. *)
Definition strftime (dt : datetime) : string :=
  pad4 (year dt) ++ pad2 (month dt) ++ pad2 (day dt) ++ "_"
  ++ pad2 (hour dt) ++ pad2 (minute dt) ++ pad2 (second dt).

(** Lines 410-412 of [generate_image]:
    [name, ext = os.path.splitext(filename)] and
    [new_filename = f"{name}_{timestamp}{ext}"]. *)
Definition new_filename (filename timestamp : string) : string :=
  let '(name, ext) := splitext filename in
  name ++ "_" ++ timestamp ++ ext.

End Path.

(** ** Effects: events, outcomes and the monad of the client code *)

Definition bytes := list Byte.byte.

Inductive event : Type :=
| Print (l : line)                            (* [print(...)] *)
| WsOpen                                      (* [websocket.create_connection] returned *)
| WsRecv                                      (* [ws.recv()] returned *)
| WsClose                                     (* [ws.close()] *)
| MakeDirs (path : string)
| FileWrite (path : string) (data : bytes).

(** How a call ends.  [Blocked]: it never does, [ws.recv()] waits for a
    frame that does not come. *)
Inductive outcome (A : Type) : Type :=
| Returned (a : A)
| Raised (e : exn)
| Blocked.
Arguments Returned {A} a.
Arguments Raised {A} e.
Arguments Blocked {A}.

(** A computation: the events it causes, in order, and how it ends. *)
Definition io (A : Type) : Type := list event * outcome A.

Definition ret {A} (a : A) : io A := ([], Returned a).

Definition bind {A B} (m : io A) (f : A -> io B) : io B :=
  match m with
  | (evs, Returned a) => let '(evs', r) := f a in (evs ++ evs', r)
  | (evs, Raised e) => (evs, Raised e)
  | (evs, Blocked) => (evs, Blocked)
  end.

Notation "x <- m ;; k" := (bind m (fun x => k))
  (at level 61, m at next level, right associativity).
Notation "m ;;; k" := (bind m (fun _ => k))
  (at level 61, right associativity).

Definition emit (e : event) : io unit := ([e], Returned tt).
Definition print (l : line) : io unit := emit (Print l).
Definition raise {A} (e : exn) : io A := ([], Raised e).

Definition lift {A} (r : result A) : io A :=
  match r with
  | Ok a => ret a
  | Raise e => raise e
  end.

(** [try: m  except: pass]. *)
Definition try_pass (m : io unit) : io unit :=
  match m with
  | (evs, Raised _) => (evs, Returned tt)
  | _ => m
  end.

(** [try: m  except <clauses>: ...]: [handler e] is [None] when no clause
    matches [e]. *)
Definition try_except {A} (m : io A) (handler : exn -> option (io A)) : io A :=
  match m with
  | (evs, Raised e) =>
      match handler e with
      | Some h => let '(evs', r) := h in (evs ++ evs', r)
      | None => m
      end
  | _ => m
  end.

(** [for x in l: body x]. *)
Fixpoint for_each {A} (l : list A) (body : A -> io unit) : io unit :=
  match l with
  | [] => ret tt
  | x :: l' => body x ;;; for_each l' body
  end.

(** A [for] loop that updates local variables [s]. *)
Fixpoint for_fold {A S} (l : list A) (body : S -> A -> io S) (s : S) : io S :=
  match l with
  | [] => ret s
  | x :: l' => s' <- body s x ;; for_fold l' body s'
  end.

Definition events {A} (m : io A) : list event := fst m.
Definition result_of {A} (m : io A) : outcome A := snd m.

(** The lines a computation printed. *)
Definition printed {A} (m : io A) : list line :=
  flat_map (fun e => match e with Print l => [l] | _ => [] end) (events m).

(** ** Predicates on computations *)

(** A computation all of whose events satisfy [P]. *)
Definition only (P : event -> Prop) {A} (m : io A) : Prop :=
  Forall P (events m).

Definition no_write (e : event) : Prop :=
  match e with FileWrite _ _ => False | _ => True end.

(** An event of the receive loop: it neither opens nor closes the
    connection, and writes no file. *)
Definition loop_event (e : event) : Prop :=
  match e with WsRecv | Print _ => True | _ => False end.

Definition is_print (e : event) : Prop :=
  match e with Print _ => True | _ => False end.

(** The errors a computation can end with all satisfy [Q]. *)
Definition raises (Q : exn -> Prop) {A} (m : io A) : Prop :=
  forall e, result_of m = Raised e -> Q e.

Definition not_timeout (e : exn) : Prop := e <> TimeoutError.

(** A computation that ends: it returns or raises. *)
Definition finishes {A} (m : io A) : Prop := result_of m <> Blocked.

(** ** The client: [ComfyUIClient] *)

Module Client.

Definition nl : string := String (ascii_of_nat 10) "".

(** *** [queue_prompt] *)

(** An HTTP response as the code reads it: [json_body] is what [.json()]
    (or [json.loads(text)]) gives, [None] when the body is not JSON;
    [http_error] and [json_error] are the texts of the errors that
    [raise_for_status()] and [.json()] raise for this response. *)
Record response : Type := {
  status_code : Z;
  text : string;
  json_body : option json;
  http_error : string;
  json_error : string
}.

Inductive post_outcome : Type :=
| PostFails (msg : string) (resp : option response)
    (* [requests.post] raises a [RequestException] *)
| PostReturns (r : response).

(** [response.raise_for_status()] raises for the statuses 400 to 599. *)
Definition is_http_error (r : response) : bool :=
  ((400 <=? status_code r) && (status_code r <? 600))%Z.

Definition loads (body : option json) : io json :=
  match body with
  | Some v => ret v
  | None => raise JSONDecodeError
  end.

(** Lines 169-175: one entry of a node's ['errors']. *)
Definition report_node_error (err : json) : io unit :=
  err_type <- lift (py_get err "type" (JStr "Unknown")) ;;
  err_msg <- lift (py_get err "message" (JStr "Unknown error")) ;;
  err_details <- lift (py_get err "details" (JStr "")) ;;
  print [Lit "    - "; Fmt err_type; Lit ": "; Fmt err_msg] ;;;
  if truthy err_details then
    shown <- lift (py_prefix 200 err_details) ;;
    print [Lit "      Details: "; Fmt shown]
  else ret tt.

(** Lines 166-175: one item of ['node_errors']. *)
Definition report_node (item : string * json) : io unit :=
  let '(node_id, node_error) := item in
  print [Lit "  Node "; Lit node_id; Lit ":"] ;;;
  has_errors <- lift (py_in (JStr "errors") node_error) ;;
  if (has_errors : bool) then
    errors <- lift (py_getitem node_error (JStr "errors")) ;;
    errs <- lift (py_iter errors) ;;
    for_each errs report_node_error
  else ret tt.

(** Lines 164-181: the structured breakdown of an error body. *)
Definition report_error_json (error_json : json) : io unit :=
  has_node_errors <- lift (py_in (JStr "node_errors") error_json) ;;
  (if (has_node_errors : bool) then
     print [Lit (nl ++ "Node Errors:")] ;;;
     node_errors <- lift (py_getitem error_json (JStr "node_errors")) ;;
     items <- lift (py_items node_errors) ;;
     for_each items report_node
   else ret tt) ;;;
  has_error <- lift (py_in (JStr "error") error_json) ;;
  if (has_error : bool) then
    error_info <- lift (py_getitem error_json (JStr "error")) ;;
    if is_dict error_info then
      message <- lift (py_get error_info "message" (JStr "Unknown error")) ;;
      print [Lit (nl ++ "Error: "); Fmt message] ;;;
      has_details <- lift (py_in (JStr "details") error_info) ;;
      if (has_details : bool) then
        details <- lift (py_getitem error_info (JStr "details")) ;;
        if truthy details then print [Lit "Details: "; Fmt details]
        else ret tt
      else ret tt
    else ret tt
  else ret tt.

(** Lines 153-186: [except requests.exceptions.RequestException as e],
    where [msg] is [str(e)] and [resp] is [e.response]. *)
Definition on_request_exception (msg : string) (resp : option response)
  : io json :=
  print [Lit "Error queueing prompt: "; Lit msg] ;;;
  match resp with
  | Some r =>
      print [Lit "Response status: "; Fmt (JNum (status_code r))] ;;;
      try_pass
        (print [Lit "Response text: "; Lit (take 1000 (text r))] ;;;
         try_pass
           (error_json <- loads (json_body r) ;;
            report_error_json error_json))
  | None => ret tt
  end ;;;
  raise (RequestException msg).

(** Lines 140-152: the response of a request that did not fail. *)
Definition read_prompt_id (response_json : json) : io json :=
  has_id <- lift (py_in (JStr "prompt_id") response_json) ;;
  if negb has_id then
    print [Lit "Error: Response does not contain 'prompt_id'"] ;;;
    print [Lit "Response: "; Dumps response_json] ;;;
    has_error <- lift (py_in (JStr "error") response_json) ;;
    (if (has_error : bool) then
       error_msg <- lift (py_get response_json "error" (JObj [])) ;;
       error_details <-
         (if is_dict error_msg
          then lift (py_get error_msg "message" error_msg)
          else ret error_msg) ;;
       raise (ValueError [Lit "ComfyUI error: "; Fmt error_details])
     else ret tt) ;;;
    raise (KeyError [Lit "'prompt_id' not found in response: ";
                     Fmt response_json])
  else lift (py_getitem response_json (JStr "prompt_id")).

(** Lines 187-189: [except (KeyError, ValueError) as e].  [str(e)] is the
    message of a [ValueError] and the [repr] of the message of a
    [KeyError]. *)
Definition on_parse_error (e : exn) : option (io json) :=
  match e with
  | KeyError msg =>
      Some (print [Lit "Error parsing response: "; ReprOf msg] ;;; raise e)
  | ValueError msg =>
      Some (print (Lit "Error parsing response: " :: msg) ;;; raise e)
  | _ => None
  end.

(** [queue_prompt(prompt)].  The error [.json()] raises for a body that is
    not JSON is a [RequestException] (requests 2.27 and later), without a
    response attached. *)
Definition queue_prompt (client_id : string) (http_post : json -> post_outcome)
    (prompt : json) : io json :=
  let p := JObj [("prompt", prompt); ("client_id", JStr client_id)] in
  match http_post p with
  | PostFails msg resp => on_request_exception msg resp
  | PostReturns req =>
      if is_http_error req then on_request_exception (http_error req) (Some req)
      else
        match json_body req with
        | None => on_request_exception (json_error req) None
        | Some response_json =>
            try_except (read_prompt_id response_json) on_parse_error
        end
  end.

(** *** [wait_for_completion] *)

(** What one [ws.recv()] gives. *)
Inductive frame : Type :=
| TextFrame (parsed : option json)
    (* a [str]; [parsed] is [json.loads] of it, [None] when that raises *)
| BinaryFrame                      (* [bytes] *)
| RecvFails.                       (* [recv] raises *)

(** The notification channel and the clock during one call: whether
    [create_connection] succeeds, the successive readings of [time.time()]
    ([now 0] is [start_time]; readings and the budget are in one unit), and
    the frames in the order [recv] delivers them.  After the last frame
    [recv] does not return. *)
Record channel : Type := {
  connects : bool;
  now : nat -> Z;
  frames : list frame
}.

(** [output_images]: a [dict] keyed by [data['node']]. *)
Definition images := list (json * json).

Fixpoint images_get (k : json) (d : images) : option json :=
  match d with
  | [] => None
  | (k', v) :: d' => if py_eq k' k then Some v else images_get k d'
  end.

(** [d[k] = v]: the value of an equal key is replaced where it stands, a
    new key goes last. *)
Fixpoint images_set (k v : json) (d : images) : images :=
  match d with
  | [] => [(k, v)]
  | (k', v') :: d' =>
      if py_eq k' k then (k', v) :: d' else (k', v') :: images_set k v d'
  end.

Inductive step : Type :=
| Break
| Continue (output_images : images).

(** Lines 351-354: the ['executed'] branch. *)
Definition on_executed (data : json) (output_images : images) : io images :=
  has_output <- lift (py_in (JStr "output") data) ;;
  if (has_output : bool) then
    output <- lift (py_getitem data (JStr "output")) ;;
    has_images <- lift (py_in (JStr "images") output) ;;
    if (has_images : bool) then
      imgs <- lift (py_getitem output (JStr "images")) ;;
      l <- lift (py_iter imgs) ;;
      for_fold l
        (fun d image =>
           node <- lift (py_getitem data (JStr "node")) ;;
           if hashable node then ret (images_set node image d)
           else raise TypeError)
        output_images
    else ret output_images
  else ret output_images.

Definition is_none (v : json) : bool :=
  match v with JNull => true | _ => false end.

(** Lines 339-354: the body of the loop for a text frame, after
    [json.loads]. *)
Definition on_message (prompt_id message : json) (output_images : images)
  : io step :=
  type <- lift (py_getitem message (JStr "type")) ;;
  if py_eq type (JStr "executing") then
    data <- lift (py_getitem message (JStr "data")) ;;
    node <- lift (py_getitem data (JStr "node")) ;;
    if is_none node then
      id <- lift (py_getitem data (JStr "prompt_id")) ;;
      if py_eq id prompt_id then ret Break else ret (Continue output_images)
    else ret (Continue output_images)
  else if py_eq type (JStr "progress") then
    data <- lift (py_getitem message (JStr "data")) ;;
    value <- lift (py_getitem data (JStr "value")) ;;
    max <- lift (py_getitem data (JStr "max")) ;;
    kind <- lift (py_get data "type" (JStr "")) ;;
    print [Lit "Progress: "; Fmt value; Lit "/"; Fmt max; Lit " - "; Fmt kind] ;;;
    ret (Continue output_images)
  else if py_eq type (JStr "executed") then
    data <- lift (py_getitem message (JStr "data")) ;;
    d <- on_executed data output_images ;;
    ret (Continue d)
  else ret (Continue output_images).

(** Lines 337-357: one turn of the loop, from [recv] on.  A binary frame
    goes to [continue]. *)
Definition on_frame (prompt_id : json) (f : frame) (output_images : images)
  : io step :=
  match f with
  | RecvFails => raise WebSocketException
  | BinaryFrame => emit WsRecv ;;; ret (Continue output_images)
  | TextFrame parsed =>
      emit WsRecv ;;;
      message <- loads parsed ;;
      on_message prompt_id message output_images
  end.

(** How the [while] loop was left, for the theorems: the code itself keeps
    no such flag. *)
Inductive loop_exit : Type :=
| ByBreak
| ByCondition.

(** Lines 336-357.  [n] counts the readings of the clock made so far; the
    result gives the count after the loop.  With no frame left, [recv] does
    not return. *)
Fixpoint wait_loop (now : nat -> Z) (prompt_id : json) (timeout start_time : Z)
    (n : nat) (fs : list frame) (output_images : images)
  : io (loop_exit * nat * images) :=
  if (now n - start_time <? timeout)%Z then
    match fs with
    | [] => ([], Blocked)
    | f :: fs' =>
        st <- on_frame prompt_id f output_images ;;
        match st with
        | Break => ret (ByBreak, S n, output_images)
        | Continue d =>
            wait_loop now prompt_id timeout start_time (S n) fs' d
        end
    end
  else ret (ByCondition, S n, output_images).

(** [wait_for_completion(prompt_id, timeout)]. *)
Definition wait_for_completion (c : channel) (prompt_id : json) (timeout : Z)
  : io images :=
  if connects c then
    emit WsOpen ;;;
    let start_time := now c 0 in
    r <- wait_loop (now c) prompt_id timeout start_time 1 (frames c) [] ;;
    let '(_, n, output_images) := r in
    emit WsClose ;;;
    if (timeout <=? now c n - start_time)%Z then raise TimeoutError
    else ret output_images
  else raise WebSocketException.

(** *** [generate_image] *)

(** The environment of one run: the answers of the file system
    ([makedirs_ok], [writable]), of the service ([http_post] for
    [queue_prompt], [socket] for [wait_for_completion], [history] for
    [get_history], [view] for [get_image]) and of [datetime.now()], whose
    [i]-th reading is [today i]. *)
Record session : Type := {
  client_id : string;
  makedirs_ok : string -> bool;
  http_post : json -> post_outcome;
  socket : channel;
  history : json -> result json;
  view : json -> json -> json -> result bytes;
  today : nat -> Path.datetime;
  writable : string -> bool
}.

Definition makedirs (s : session) (path : string) : io unit :=
  if makedirs_ok s path then emit (MakeDirs path) else raise OSError.

(** [os.path.splitext(filename)] takes a [str]. *)
Definition as_path (v : json) : result string :=
  match v with
  | JStr s => Ok s
  | _ => Raise TypeError
  end.

(** Lines 402-419: one image of a node's output.  The local variables are
    [saved_images] and the number of readings of [datetime.now()]. *)
Definition save_image (s : session) (output_dir : string)
    (acc : list string * nat) (image_info : json) : io (list string * nat) :=
  let '(saved_images, i) := acc in
  filename <- lift (py_getitem image_info (JStr "filename")) ;;
  subfolder <- lift (py_get image_info "subfolder" (JStr "")) ;;
  folder_type <- lift (py_get image_info "type" (JStr "output")) ;;
  print [Lit "Downloading image: "; Fmt filename] ;;;
  image_data <- lift (view s filename subfolder folder_type) ;;
  let timestamp := Path.strftime (today s i) in
  path <- lift (as_path filename) ;;
  let new_filename := Path.new_filename path timestamp in
  let output_path := Path.join output_dir new_filename in
  (if writable s output_path then emit (FileWrite output_path image_data)
   else raise OSError) ;;;
  print [Lit "Saved image to: "; Lit output_path] ;;;
  ret (saved_images ++ [output_path], S i).

(** Lines 399-419: one item of [history[prompt_id]['outputs']]. *)
Definition save_node (s : session) (output_dir : string)
    (acc : list string * nat) (item : string * json) : io (list string * nat) :=
  let node_output := snd item in
  has_images <- lift (py_in (JStr "images") node_output) ;;
  if (has_images : bool) then
    imgs <- lift (py_getitem node_output (JStr "images")) ;;
    l <- lift (py_iter imgs) ;;
    for_fold l (save_image s output_dir) acc
  else ret acc.

(** Lines 396-421: from the history to [saved_images]. *)
Definition save_outputs (s : session) (output_dir : string)
    (history prompt_id : json) : io (list string) :=
  known <- lift (py_in prompt_id history) ;;
  if (known : bool) then
    entry <- lift (py_getitem history prompt_id) ;;
    outputs <- lift (py_getitem entry (JStr "outputs")) ;;
    items <- lift (py_items outputs) ;;
    acc <- for_fold items (save_node s output_dir) ([], O) ;;
    ret (fst acc)
  else ret [].

(** [generate_image(workflow, output_dir, timeout)]. *)
Definition generate_image (s : session) (workflow : json)
    (output_dir : string) (timeout : Z) : io (list string) :=
  makedirs s output_dir ;;;
  print [Lit "Queueing prompt..."] ;;;
  prompt_id <- queue_prompt (client_id s) (http_post s) workflow ;;
  print [Lit "Prompt ID: "; Fmt prompt_id] ;;;
  print [Lit "Waiting for completion..."] ;;;
  output_images <- wait_for_completion (socket s) prompt_id timeout ;;
  history <- lift (history s prompt_id) ;;
  save_outputs s output_dir history prompt_id.

(** The files written by a sequence of events, in order. *)
Definition writes (evs : list event) : list (string * bytes) :=
  flat_map
    (fun e => match e with FileWrite p d => [(p, d)] | _ => [] end) evs.

Definition written {A} (m : io A) : list (string * bytes) :=
  writes (events m).

(** Whether the connection is open after the events [evs]. *)
Definition ws_open_after (evs : list event) : bool :=
  fold_left
    (fun o e => match e with WsOpen => true | WsClose => false | _ => o end)
    evs false.

End Client.

(** ** The patch helpers *)

Module Patch.

(** A Job Definition: the members of the [dict] read from the workflow
    file, node identifier to node record. *)
Definition workflow := list (string * json).

(** [node_id in workflow]. *)
Definition has_node (node_id : string) (wf : workflow) : bool :=
  match assoc node_id wf with
  | Some _ => true
  | None => false
  end.

(** [workflow[node_id]] *)
Definition node (wf : workflow) (node_id : string) : result json :=
  py_getitem (JObj wf) (JStr node_id).

Definition and_then {A B} (r : result A) (f : A -> result B) : result B :=
  match r with
  | Ok a => f a
  | Raise e => Raise e
  end.

(** [workflow[node_id]["inputs"][field] = value].  The objects are updated
    in place: the workflow afterwards holds the updated record. *)
Definition set_input (wf : workflow) (node_id field : string) (value : json)
  : result workflow :=
  and_then (node wf node_id) (fun record =>
  and_then (py_getitem record (JStr "inputs")) (fun inputs =>
  and_then (py_setitem inputs field value) (fun inputs' =>
  and_then (py_setitem record "inputs" inputs') (fun record' =>
  Ok (assoc_set node_id record' wf))))).

(** [if path:] for an [Optional[str]]. *)
Definition given (path : option string) : option string :=
  match path with
  | Some s => if String.eqb s "" then None else Some s
  | None => None
  end.

(** [ComfyUIClient.upload_image], as the helpers use it: from a local path
    to the [dict] it returns, or the error it raises. *)
Definition uploader := string -> io json.

(** The value stored in the image field: the uploaded file's name when a
    client is given, the local base name otherwise. *)
Definition image_value (client : option uploader) (path : string) : io json :=
  match client with
  | Some upload_image =>
      result <- upload_image path ;;
      lift (py_getitem result (JStr "filename"))
  | None => ret (JStr (Path.basename path))
  end.

(** [update_workflow_image] of [openpose-workflow.py]. *)
Definition update_workflow_image (wf : workflow) (client : option uploader)
    (image_path : option string) (node_id : string) : io workflow :=
  match given image_path with
  | Some path =>
      if has_node node_id wf then
        v <- image_value client path ;;
        wf' <- lift (set_input wf node_id "image" v) ;;
        print [Lit "Updated workflow node "; Lit node_id;
               Lit (match client with
                    | Some _ => " with uploaded image: "
                    | None => " with image: "
                    end); Fmt v] ;;;
        ret wf'
      else ret wf
  | None => ret wf
  end.

(** One of the three blocks of [update_workflow_images]. *)
Definition patch_image (client : option uploader) (image_path : option string)
    (node_id : string) (wf : workflow) : io workflow :=
  match given image_path with
  | Some path =>
      if has_node node_id wf then
        v <- image_value client path ;;
        lift (set_input wf node_id "image" v)
      else ret wf
  | None => ret wf
  end.

(** [update_workflow_images] of [qwen-mutli-workflow.py]. *)
Definition update_workflow_images (wf : workflow) (client : option uploader)
    (image1_path image2_path image3_path : option string) : io workflow :=
  wf1 <- patch_image client image1_path "78" wf ;;
  wf2 <- patch_image client image2_path "106" wf1 ;;
  patch_image client image3_path "108" wf2.

(** [update_workflow_prompt]. *)
Definition update_workflow_prompt (wf : workflow) (prompt : string)
  : io workflow :=
  if has_node "111" wf then lift (set_input wf "111" "prompt" (JStr prompt))
  else ret wf.

(** ["inputs" in workflow[node_id] and field in workflow[node_id]["inputs"]],
    for a node that is in the workflow. *)
Definition has_input (wf : workflow) (node_id field : string) : result bool :=
  and_then (node wf node_id) (fun record =>
  and_then (py_in (JStr "inputs") record) (fun has_inputs =>
  if (has_inputs : bool) then
    and_then (py_getitem record (JStr "inputs")) (fun inputs =>
    py_in (JStr field) inputs)
  else Ok false)).

(** [update_workflow_lora]. *)
Definition update_workflow_lora (wf : workflow) (lora_name : option string)
    (node_id : string) : io workflow :=
  match given lora_name with
  | Some name =>
      if has_node node_id wf then
        ok <- lift (has_input wf node_id "lora_name") ;;
        if (ok : bool) then
          wf' <- lift (set_input wf node_id "lora_name" (JStr name)) ;;
          print [Lit "Updated LoRA name in node "; Lit node_id; Lit " to: ";
                 Lit name] ;;;
          ret wf'
        else ret wf
      else ret wf
  | None => ret wf
  end.

(** [update_workflow_seed]; [random_seed] is the value
    [random.randint(0, 2**32 - 1)] draws when no seed is given. *)
Definition update_workflow_seed (wf : workflow) (seed : option Z)
    (node_id : string) (random_seed : Z) : io workflow :=
  match seed with
  | Some value =>
      if has_node node_id wf then
        ok <- lift (has_input wf node_id "seed") ;;
        if (ok : bool) then
          wf' <- lift (set_input wf node_id "seed" (JNum value)) ;;
          print [Lit "Updated seed in node "; Lit node_id; Lit " to: ";
                 Fmt (JNum value)] ;;;
          ret wf'
        else ret wf
      else ret wf
  | None =>
      if has_node node_id wf then
        ok <- lift (has_input wf node_id "seed") ;;
        if (ok : bool) then
          wf' <- lift (set_input wf node_id "seed" (JNum random_seed)) ;;
          print [Lit "Using random seed in node "; Lit node_id; Lit ": ";
                 Fmt (JNum random_seed)] ;;;
          ret wf'
        else ret wf
      else ret wf
  end.

End Patch.

(** ** The client: addresses, headers and uploads *)

Module Net.

Import Client.

(** [s.lstrip(c)] and [s.rstrip(c)] for a one-character [c]. *)
Fixpoint lstrip (c : ascii) (s : string) : string :=
  match s with
  | String a s' => if Ascii.eqb a c then lstrip c s' else s
  | EmptyString => EmptyString
  end.

Fixpoint rstrip (c : ascii) (s : string) : string :=
  match s with
  | EmptyString => EmptyString
  | String a s' =>
      match rstrip c s' with
      | EmptyString => if Ascii.eqb a c then EmptyString else String a EmptyString
      | r => String a r
      end
  end.

(** [s.replace(old, new)] for a non-empty [old]: the occurrences of [old]
    are taken from the left and do not overlap; [skip] counts the
    characters of an occurrence still to pass over. *)
Fixpoint replace_from (old new : string) (skip : nat) (s : string) : string :=
  match s with
  | EmptyString => EmptyString
  | String a s' =>
      match skip with
      | S k => replace_from old new k s'
      | O =>
          if prefix old s
          then new ++ replace_from old new (String.length old - 1) s'
          else String a (replace_from old new O s')
      end
  end.

Definition replace (old new s : string) : string := replace_from old new O s.

(** [_build_url(path)]. *)
Definition build_url (server_address path : string) : string :=
  let path := lstrip "/" path in
  let base_url := rstrip "/" server_address in
  base_url ++ "/" ++ path.

(** [_build_ws_url(path)]. *)
Definition build_ws_url (server_address path : string) : string :=
  let path := lstrip "/" path in
  let base_url :=
    if prefix "https://" server_address
    then rstrip "/" (replace "https://" "wss://" server_address)
    else rstrip "/" (replace "http://" "ws://" server_address) in
  base_url ++ "/" ++ path.

(** [if self.api_key:] for the value of [os.getenv]. *)
Definition key_given (api_key : option string) : option string :=
  match api_key with
  | Some k => if String.eqb k "" then None else Some k
  | None => None
  end.

(** [_get_headers()]. *)
Definition get_headers (api_key : option string) : list (string * string) :=
  match key_given api_key with
  | Some k => [("apikey", k)]
  | None => []
  end.

(** Lines 316-319 of [wait_for_completion]: the address of the
    notification channel. *)
Definition ws_url (server_address client_id : string) (api_key : option string)
  : string :=
  build_ws_url server_address "ws" ++ "?clientId=" ++ client_id
  ++ match key_given api_key with
     | Some k => "&apikey=" ++ k
     | None => ""
     end.

(** *** [upload_image] *)

(** The multipart request: the [image] part (name and MIME type; the
    content is the file) and the form fields. *)
Record upload_request : Type := {
  file_name : string;
  mime_type : string;
  overwrite_field : string;
  subfolder_field : string
}.

(** What [response.json()] gives: the value, or the error it raises, which
    is a [ValueError] and, from requests 2.27 on, a [RequestException]
    too. *)
Inductive decoded : Type :=
| Decoded (v : json)
| Undecodable (msg : string) (is_request_exception : bool).

Record upload_response : Type := {
  u_status : Z;
  u_text : string;
  u_content_type : string;    (* [headers.get('content-type', '')] *)
  u_body : decoded;
  u_http_error : string       (* the text of the error of [raise_for_status()] *)
}.

Inductive upload_outcome : Type :=
| UploadFails (msg : string) (resp : option upload_response)
| UploadReturns (r : upload_response).

(** The local files and the service, for one upload. *)
Record uploads : Type := {
  file_exists : string -> bool;                (* [os.path.exists] *)
  file_opens : string -> bool;                 (* [open(path, 'rb')] succeeds *)
  guess_type : string -> option string;        (* [mimetypes.guess_type(path)[0]] *)
  post_upload : upload_request -> upload_outcome
}.

(** Lines 228-230. *)
Definition image_mime (guessed : option string) : string :=
  match guessed with
  | Some m =>
      if String.eqb m "" then "image/png"
      else if prefix "image/" m then m else "image/png"
  | None => "image/png"
  end.

(** [str(overwrite).lower()]. *)
Definition bool_field (b : bool) : string := if b then "true" else "false".

Definition request_for (u : uploads) (image_path subfolder : string)
    (overwrite : bool) : upload_request :=
  {| file_name := Path.basename image_path;
     mime_type := image_mime (guess_type u image_path);
     overwrite_field := bool_field overwrite;
     subfolder_field := subfolder |}.

(** The [dict] returned when the answer cannot be used. *)
Definition fallback (image_path subfolder : string) : json :=
  JObj [("filename", JStr (Path.basename image_path));
        ("subfolder", JStr subfolder);
        ("type", JStr "input")].

Definition upload_is_http_error (r : upload_response) : bool :=
  ((400 <=? u_status r) && (u_status r <? 600))%Z.

(** Lines 269-274: [except requests.exceptions.RequestException as e]. *)
Definition on_upload_exception (msg : string) (resp : option upload_response)
  : io json :=
  print [Lit "  Error uploading image: "; Lit msg] ;;;
  match resp with
  | Some r =>
      print [Lit "  Response status: "; Fmt (JNum (u_status r))] ;;;
      print [Lit "  Response text: "; Lit (take 200 (u_text r))]
  | None => ret tt
  end ;;;
  raise (RequestException msg).

(** Lines 249-268 and 275-285: the response of a request that went
    through. *)
Definition read_upload (r : upload_response) (image_path subfolder : string)
  : io json :=
  if upload_is_http_error r then on_upload_exception (u_http_error r) (Some r)
  else if negb (contains "application/json" (u_content_type r)) then
    print [Lit "  Warning: Unexpected content type: "; Lit (u_content_type r)] ;;;
    print [Lit "  Response text: "; Lit (take 200 (u_text r))] ;;;
    ret (fallback image_path subfolder)
  else
    match u_body r with
    | Decoded result =>
        name <- lift (py_get result "name" (JStr (Path.basename image_path))) ;;
        sub <- lift (py_get result "subfolder" (JStr subfolder)) ;;
        ret (JObj [("filename", name); ("subfolder", sub);
                   ("type", JStr "input")])
    | Undecodable msg true => on_upload_exception msg None
    | Undecodable msg false =>
        print [Lit "  Error parsing JSON response: "; Lit msg] ;;;
        print [Lit "  Response status: "; Fmt (JNum (u_status r))] ;;;
        print [Lit "  Response text: "; Lit (take 500 (u_text r))] ;;;
        ret (fallback image_path subfolder)
    end.

(** [upload_image(image_path, subfolder, overwrite)]. *)
Definition upload_image (u : uploads) (image_path subfolder : string)
    (overwrite : bool) : io json :=
  if negb (file_exists u image_path) then raise FileNotFoundError
  else
    let request := request_for u image_path subfolder overwrite in
    print [Lit "  Uploading: "; Lit (Path.basename image_path)] ;;;
    if negb (file_opens u image_path) then raise OSError
    else
      match post_upload u request with
      | UploadFails msg resp => on_upload_exception msg resp
      | UploadReturns r => read_upload r image_path subfolder
      end.

(** The client as the patch helpers use it: [client.upload_image(path)],
    with the default subfolder and [overwrite]. *)
Definition client_of (u : uploads) : Patch.uploader :=
  fun image_path => upload_image u image_path "" true.

End Net.

(** ** The input folder *)

Module Folder.

(** [sorted(l)] for a list of [str]: the order of the code points, which is
    the order of the bytes of their UTF-8 encoding. *)
Fixpoint insert_sorted (x : string) (l : list string) : list string :=
  match l with
  | [] => [x]
  | y :: l' => if String.leb x y then x :: l else y :: insert_sorted x l'
  end.

Fixpoint sorted (l : list string) : list string :=
  match l with
  | [] => []
  | x :: l' => insert_sorted x (sorted l')
  end.

(** The extensions [find_images_in_folder] looks for by default. *)
Definition image_extensions : list string :=
  [".png"; ".jpg"; ".jpeg"; ".PNG"; ".JPG"; ".JPEG"].

(** [find_images_in_folder(folder_path, extensions)]; [glob] is
    [glob.glob], from a pattern to the paths that match it. *)
Definition find_images_in_folder (exists_ : string -> bool)
    (glob : string -> list string) (folder_path : string)
    (extensions : list string) : list string :=
  if negb (exists_ folder_path) then []
  else
    sorted
      (flat_map (fun ext => glob (Path.join folder_path ("*" ++ ext)))
                extensions).

End Folder.

(** ** Notions of the specification *)

Module Spec.

Import Path Client.

Definition is_digit (c : ascii) : bool :=
  let n := nat_of_ascii c in (48 <=? n)%nat && (n <=? 57)%nat.

Fixpoint all_digits (s : string) : bool :=
  match s with
  | EmptyString => true
  | String c s' => is_digit c && all_digits s'
  end.

(** [s] has no occurrence of [c]. *)
Fixpoint lacks (c : ascii) (s : string) : bool :=
  match s with
  | EmptyString => true
  | String a s' => negb (Ascii.eqb a c) && lacks c s'
  end.

(** The form [YYYYMMDD_HHMMSS]. *)
Definition timestamp_form (s : string) : bool :=
  Nat.eqb (String.length s) 15
  && all_digits (take 8 s)
  && String.eqb (take 1 (drop 8 s)) "_"
  && all_digits (drop 9 s).

(** The inverse the specification describes: the segment inserted before
    the extension is the underscore and the fifteen characters of the
    timestamp; removing it gives back the stem and the extension. *)
Definition strip_timestamp (saved : string) : string * string :=
  let '(stem, ext) := splitext saved in
  (take (String.length stem - 16) stem, ext).

(** An image reference the history response lists for the job. *)
Definition listed (history prompt_id image_info : json) : Prop :=
  exists entry outputs items item imgs l,
    py_getitem history prompt_id = Ok entry
    /\ py_getitem entry (JStr "outputs") = Ok outputs
    /\ py_items outputs = Ok items
    /\ In item items
    /\ py_getitem (snd item) (JStr "images") = Ok imgs
    /\ py_iter imgs = Ok l
    /\ In image_info l.

(** What the specification says of one saved path: it comes from an
    image reference of [source], and its name is the stem of the original
    file name, an underscore, the timestamp and the original extension,
    from which the stem and the extension are recovered. *)
Definition timestamped (s : session) (output_dir : string)
    (source : json -> Prop) (path : string) : Prop :=
  exists image_info filename i,
    source image_info
    /\ py_getitem image_info (JStr "filename") = Ok (JStr filename)
    /\ let timestamp := strftime (today s i) in
       let saved := new_filename filename timestamp in
       path = join output_dir saved
       /\ saved = (fst (splitext filename) ++ "_" ++ timestamp
                    ++ snd (splitext filename))%string
       /\ timestamp_form timestamp = true
       /\ strip_timestamp saved = splitext filename.

(** The same of one event: a file is written under such a name. *)
Definition saved_as (s : session) (output_dir : string)
    (source : json -> Prop) (e : event) : Prop :=
  match e with
  | FileWrite path _ => timestamped s output_dir source path
  | _ => True
  end.

(** The image references of one node's output, as the history interface
    describes it: [{images: [{filename, subfolder, type}]}]. *)
Definition node_images (node_output : json) : list json :=
  match node_output with
  | JObj o => match assoc "images" o with
              | Some (JArr l) => l
              | _ => []
              end
  | _ => []
  end.

(** The image references history holds for a job, nodes in the order of
    the response, images in their listed order. *)
Definition history_images (id : string) (history : json) : list json :=
  match history with
  | JObj h =>
      match assoc id h with
      | Some (JObj entry) =>
          match assoc "outputs" entry with
          | Some (JObj nodes) => flat_map (fun kv => node_images (snd kv)) nodes
          | _ => []
          end
      | _ => []
      end
  | _ => []
  end.

Definition node_output_ok (node_output : json) : Prop :=
  match node_output with
  | JObj o => match assoc "images" o with
              | Some (JArr _) | None => True
              | Some _ => False
              end
  | _ => False
  end.

(** A history response of the documented shape: a mapping of job
    identifiers to [{outputs: {node_id: {images: [...]}}}]. *)
Definition history_ok (id : string) (history : json) : Prop :=
  match history with
  | JObj h =>
      match assoc id h with
      | Some (JObj entry) =>
          match assoc "outputs" entry with
          | Some (JObj nodes) => Forall (fun kv => node_output_ok (snd kv)) nodes
          | _ => False
          end
      | Some _ => False
      | None => True
      end
  | _ => False
  end.

(** The file one image reference becomes when it is the [i]-th one saved
    and nothing fails: where it is written and what is written. *)
Definition artifact (s : session) (output_dir : string) (i : nat)
    (image_info : json) : option (string * bytes) :=
  match image_info with
  | JObj o =>
      match assoc "filename" o with
      | Some (JStr filename) =>
          let subfolder :=
            match assoc "subfolder" o with Some v => v | None => JStr "" end in
          let folder_type :=
            match assoc "type" o with Some v => v | None => JStr "output" end in
          match view s (JStr filename) subfolder folder_type with
          | Ok data =>
              let path :=
                join output_dir (new_filename filename (strftime (today s i))) in
              if writable s path then Some (path, data) else None
          | Raise _ => None
          end
      | _ => None
      end
  | _ => None
  end.

(** The global completion signal for the job: a text message of type
    ['executing'] whose data has a null [node] and the job's [prompt_id]. *)
Definition is_completion (prompt_id : json) (f : frame) : bool :=
  match f with
  | TextFrame (Some (JObj m)) =>
      match assoc "type" m, assoc "data" m with
      | Some type, Some (JObj d) =>
          py_eq type (JStr "executing")
          && match assoc "node" d, assoc "prompt_id" d with
             | Some JNull, Some id => py_eq id prompt_id
             | _, _ => false
             end
      | _, _ => false
      end
  | _ => false
  end.

(** The [type] tag of a text message. *)
Definition message_type (f : frame) : option json :=
  match f with
  | TextFrame (Some (JObj m)) => assoc "type" m
  | _ => None
  end.

(** A frame the loop takes in and goes on from: the table of images
    after it, [None] when the frame ends the loop or raises. *)
Definition passes (prompt_id : json) (f : frame) (d : images) : option images :=
  match result_of (on_frame prompt_id f d) with
  | Returned (Continue d') => Some d'
  | _ => None
  end.

Fixpoint handled (prompt_id : json) (fs : list frame) (d : images)
  : option images :=
  match fs with
  | [] => Some d
  | f :: fs' =>
      match passes prompt_id f d with
      | Some d' => handled prompt_id fs' d'
      | None => None
      end
  end.

(** The number of frames received. *)
Definition received (evs : list event) : nat :=
  length (filter (fun e => match e with WsRecv => true | _ => false end) evs).

(** The image references of the data of an ['executed'] event, each with
    the node of the event: [data.output.images], in order. *)
Definition data_refs (data : json) : list (json * json) :=
  match data with
  | JObj d =>
      match assoc "output" d with
      | Some (JObj o) =>
          match assoc "images" o, assoc "node" d with
          | Some imgs, Some node =>
              match py_iter imgs with
              | Ok l => map (pair node) l
              | Raise _ => []
              end
          | _, _ => []
          end
      | _ => []
      end
  | _ => []
  end.

Definition executed_refs (f : frame) : list (json * json) :=
  match f with
  | TextFrame (Some (JObj m)) =>
      match assoc "type" m, assoc "data" m with
      | Some type, Some data =>
          if py_eq type (JStr "executed") then data_refs data else []
      | _, _ => []
      end
  | _ => []
  end.

(** Storing references one after the other. *)
Definition apply_refs (refs : list (json * json)) (d : images) : images :=
  fold_left (fun d r => images_set (fst r) (snd r) d) refs d.

Definition keys_hashable (d : list (json * json)) : Prop :=
  Forall (fun kv => hashable (fst kv) = true) d.

(** The frames after which the loop goes on, whatever else they hold: a
    binary frame; a text message whose type is none of ['executing'],
    ['progress'] and ['executed']; an ['executing'] message whose data
    names a node, or names no node and another job; a ['progress'] message
    whose data holds ['value'] and ['max']; an ['executed'] message whose
    data has no ['output'], or an output without ['images'], or a list of
    images, empty or with a node that can be a key. *)
Definition goes_on (prompt_id : json) (f : frame) : bool :=
  match f with
  | BinaryFrame => true
  | TextFrame (Some (JObj m)) =>
      match assoc "type" m with
      | Some type =>
          if py_eq type (JStr "executing") then
            match assoc "data" m with
            | Some (JObj d) =>
                match assoc "node" d with
                | Some JNull =>
                    match assoc "prompt_id" d with
                    | Some id => negb (py_eq id prompt_id)
                    | None => false
                    end
                | Some _ => true
                | None => false
                end
            | _ => false
            end
          else if py_eq type (JStr "progress") then
            match assoc "data" m with
            | Some (JObj d) =>
                match assoc "value" d, assoc "max" d with
                | Some _, Some _ => true
                | _, _ => false
                end
            | _ => false
            end
          else if py_eq type (JStr "executed") then
            match assoc "data" m with
            | Some (JObj d) =>
                match assoc "output" d with
                | None => true
                | Some (JObj o) =>
                    match assoc "images" o with
                    | None => true
                    | Some (JArr []) => true
                    | Some (JArr (_ :: _)) =>
                        match assoc "node" d with
                        | Some node => hashable node
                        | None => false
                        end
                    | Some _ => false
                    end
                | Some _ => false
                end
            | _ => false
            end
          else true
      | None => false
      end
  | _ => false
  end.

(** The first and the last reference seen for a node. *)
Fixpoint first_ref (node : json) (refs : list (json * json)) : option json :=
  match refs with
  | [] => None
  | (n, v) :: refs' => if py_eq n node then Some v else first_ref node refs'
  end.

Fixpoint last_ref (node : json) (refs : list (json * json)) : option json :=
  match refs with
  | [] => None
  | (n, v) :: refs' =>
      match last_ref node refs' with
      | Some w => Some w
      | None => if py_eq n node then Some v else None
      end
  end.

(** No two entries of the table have equal keys. *)
Fixpoint unique_keys (d : images) : Prop :=
  match d with
  | [] => True
  | (k, _) :: d' => images_get k d' = None /\ unique_keys d'
  end.

(** [None], a number or a boolean: a value that is no container. *)
Definition is_scalar (v : json) : bool :=
  match v with
  | JNull | JBool _ | JNum _ => true
  | _ => false
  end.

(** The workflow after [record["inputs"][field] = value] on a node whose
    inputs lack the field. *)
Definition with_new_input (wf : Patch.workflow) (node_id : string)
    (record inputs : list (string * json)) (field : string) (value : json)
  : Patch.workflow :=
  assoc_set node_id
    (JObj (assoc_set "inputs" (JObj (inputs ++ [(field, value)])) record)) wf.

(** The text the output shows for certain: literal text and formatted
    [str] values. *)
Definition piece_shows (needle : string) (p : piece) : bool :=
  match p with
  | Lit s => contains needle s
  | Fmt (JStr s) => contains needle s
  | _ => false
  end.

(** Some printed line contains [needle]. *)
Definition surfaces (needle : string) (out : list line) : bool :=
  existsb (existsb (piece_shows needle)) out.

(** A rejection as the service describes it: per node, validation errors
    with a type, a message and details; a top-level error with a message
    and, possibly, details. *)
Record validation_error : Type := {
  v_type : string;
  v_message : string;
  v_details : string
}.

Definition validation_error_json (e : validation_error) : json :=
  JObj [("type", JStr (v_type e)); ("message", JStr (v_message e));
        ("details", JStr (v_details e))].

Definition node_error_json (errors : list validation_error) : json :=
  JObj [("errors", JArr (map validation_error_json errors))].

(** The body of the response: [{"error": {"message": ..., "details": ...},
    "node_errors": {node_id: {"errors": [...]}}}], the details and the
    node errors being optional. *)
Definition error_body
    (node_errors : option (list (string * list validation_error)))
    (message : string) (details : option string) : json :=
  JObj (("error",
         JObj (("message", JStr message)
               :: match details with
                  | Some d => [("details", JStr d)]
                  | None => []
                  end))
        :: match node_errors with
           | Some nodes =>
               [("node_errors",
                 JObj (map (fun kv => (fst kv, node_error_json (snd kv)))
                         nodes))]
           | None => []
           end).

(** The structured breakdown the specification asks for: for each node
    its identifier and, for each of its errors, the type and the message,
    then the details if there are any (their first 200 characters); after
    the nodes the top-level message and, if there are any, its details. *)
Definition validation_error_lines (e : validation_error) : list line :=
  [Lit "    - "; Fmt (JStr (v_type e)); Lit ": "; Fmt (JStr (v_message e))]
  :: (if String.eqb (v_details e) "" then []
      else [[Lit "      Details: "; Fmt (JStr (take 200 (v_details e)))]]).

Definition node_error_lines (kv : string * list validation_error)
  : list line :=
  [Lit "  Node "; Lit (fst kv); Lit ":"]
  :: flat_map validation_error_lines (snd kv).

Definition breakdown
    (node_errors : option (list (string * list validation_error)))
    (message : string) (details : option string) : list line :=
  match node_errors with
  | Some nodes =>
      [Lit (nl ++ "Node Errors:")] :: flat_map node_error_lines nodes
  | None => []
  end
  ++ [[Lit (nl ++ "Error: "); Fmt (JStr message)]]
  ++ match details with
     | Some d =>
         if String.eqb d "" then [] else [[Lit "Details: "; Fmt (JStr d)]]
     | None => []
     end.

Fixpoint artifacts (s : session) (output_dir : string) (i : nat)
    (infos : list json) : option (list (string * bytes)) :=
  match infos with
  | [] => Some []
  | info :: rest =>
      match artifact s output_dir i info, artifacts s output_dir (S i) rest with
      | Some a, Some l => Some (a :: l)
      | _, _ => None
      end
  end.

End Spec.

(** ** Notions for the further properties *)

Module More.

Import Path Client.

(** How [error_details] is chosen (lines 144-148). *)
Definition error_details (error_msg : json) : json :=
  match error_msg with
  | JObj e => match assoc "message" e with
              | Some message => message
              | None => error_msg
              end
  | _ => error_msg
  end.

(** The channel without its binary frames. *)
Definition is_binary (f : frame) : bool :=
  match f with BinaryFrame => true | _ => false end.

Definition without_binary (c : channel) : channel :=
  {| connects := connects c; now := now c;
     frames := filter (fun f => negb (is_binary f)) (frames c) |}.

(** The line a ['progress'] message makes the loop print. *)
Definition progress_line (f : frame) : list line :=
  match f with
  | TextFrame (Some (JObj m)) =>
      match assoc "type" m, assoc "data" m with
      | Some type, Some (JObj d) =>
          if py_eq type (JStr "progress") then
            match assoc "value" d, assoc "max" d with
            | Some value, Some max =>
                [[Lit "Progress: "; Fmt value; Lit "/"; Fmt max; Lit " - ";
                  Fmt (match assoc "type" d with
                       | Some kind => kind
                       | None => JStr ""
                       end)]]
            | _, _ => []
            end
          else []
      | _, _ => []
      end
  | _ => []
  end.

(** The lines printed by a sequence of events. *)
Definition lines (evs : list event) : list line :=
  flat_map (fun e => match e with Print l => [l] | _ => [] end) evs.

Definition no_event (e : event) : Prop := False.

(** The result of the loop without the count of clock readings. *)
Definition exit_and_images (o : outcome (loop_exit * nat * images))
  : outcome (loop_exit * images) :=
  match o with
  | Returned (x, _, d) => Returned (x, d)
  | Raised e => Raised e
  | Blocked => Blocked
  end.

(** Where [generate_image] writes: the file of an image reference named
    [filename] goes to [output_dir] joined with the timestamped name, which
    is the name itself when [filename] is absolute and begins with
    [output_dir] otherwise. *)
Definition placed (output_dir : string) (today : nat -> datetime) (e : event)
  : Prop :=
  match e with
  | FileWrite p _ =>
      exists filename i,
        let name := new_filename filename (strftime (today i)) in
        p = join output_dir name
        /\ if startswith_sep filename then p = name
           else prefix output_dir p = true
  | _ => True
  end.

(** The loop of [generate_image] records in [saved_images] the paths it
    writes: [acc] and [acc'] are its variables before and after the events
    [evs]. *)
Definition recorded (acc : list string * nat) (evs : list event)
    (acc' : list string * nat) : Prop :=
  fst acc' = fst acc ++ map fst (writes evs).

(** Lines 403-408 of [generate_image]: the bytes fetched for one image
    reference, or the error of the lookup or of [get_image]. *)
Definition fetched (s : session) (image_info : json) : result bytes :=
  Patch.and_then (py_getitem image_info (JStr "filename")) (fun filename =>
  Patch.and_then (py_get image_info "subfolder" (JStr "")) (fun subfolder =>
  Patch.and_then (py_get image_info "type" (JStr "output")) (fun folder_type =>
  view s filename subfolder folder_type))).

(** [workflow[node_id]["inputs"][field]], for a node record and inputs that
    are [dict]s. *)
Definition input_of (wf : Patch.workflow) (node_id field : string)
  : option json :=
  match assoc node_id wf with
  | Some (JObj record) =>
      match assoc "inputs" record with
      | Some (JObj inputs) => assoc field inputs
      | _ => None
      end
  | _ => None
  end.

(** [workflow[node_id][member]], for a node record that is a [dict]. *)
Definition member_of (wf : Patch.workflow) (node_id member : string)
  : option json :=
  match assoc node_id wf with
  | Some (JObj record) => assoc member record
  | _ => None
  end.

(** The node has an ['inputs'] [dict]. *)
Definition has_inputs (wf : Patch.workflow) (node_id : string) : bool :=
  match member_of wf node_id "inputs" with
  | Some (JObj _) => true
  | _ => false
  end.

(** [wf'] is [wf] but for one input of one node: the same node identifiers
    in the same order, the same records for the other nodes, and in the
    node the same members but ['inputs'] and the same inputs but
    [field]. *)
Definition same_but (wf wf' : Patch.workflow) (node_id field : string) : Prop :=
  map fst wf' = map fst wf
  /\ (forall n, n <> node_id -> assoc n wf' = assoc n wf)
  /\ (forall m, m <> "inputs" ->
                member_of wf' node_id m = member_of wf node_id m)
  /\ (forall f, f <> field -> input_of wf' node_id f = input_of wf node_id f).

(** [wf'] has the nodes of [wf], with the same records but for the nodes
    [ids]. *)
Definition same_nodes_but (wf wf' : Patch.workflow) (ids : list string)
  : Prop :=
  map fst wf' = map fst wf
  /\ (forall n, ~ In n ids -> assoc n wf' = assoc n wf).

(** [n] slashes. *)
Fixpoint slashes (n : nat) : string :=
  match n with
  | O => EmptyString
  | S k => String "/" (slashes k)
  end.

(** The errors [upload_image] lets through. *)
Definition upload_error (e : exn) : Prop :=
  e = FileNotFoundError \/ e = OSError \/ e = AttributeError
  \/ exists msg, e = RequestException msg.

(** The [dict] [upload_image] returns. *)
Definition input_reference (name subfolder : json) : json :=
  JObj [("filename", name); ("subfolder", subfolder); ("type", JStr "input")].

(** The order of [sorted] on [str]. *)
Definition str_le (a b : string) : Prop := String.leb a b = true.

(** A call of a patch helper, but for the workflow it is applied to. *)
Inductive patch : Type :=
| Prompt_ (prompt : string)
| Lora_ (lora_name : option string) (node_id : string)
| Seed_ (seed : option Z) (node_id : string) (random_seed : Z)
| Image_ (client : option Patch.uploader) (image_path : option string)
         (node_id : string).

Definition apply_patch (p : patch) (wf : Patch.workflow) : io Patch.workflow :=
  match p with
  | Prompt_ prompt => Patch.update_workflow_prompt wf prompt
  | Lora_ lora_name node_id => Patch.update_workflow_lora wf lora_name node_id
  | Seed_ seed node_id random_seed =>
      Patch.update_workflow_seed wf seed node_id random_seed
  | Image_ client image_path node_id =>
      Patch.update_workflow_image wf client image_path node_id
  end.

(** The node a call targets. *)
Definition target (p : patch) : string :=
  match p with
  | Prompt_ _ => "111"
  | Lora_ _ node_id | Seed_ _ node_id _ | Image_ _ _ node_id => node_id
  end.

Definition outcome_map {A B} (f : A -> B) (o : outcome A) : outcome B :=
  match o with
  | Returned a => Returned (f a)
  | Raised e => Raised e
  | Blocked => Blocked
  end.

End More.

(** ** Inputs for the examples *)

Module Examples.

Import Path Client.

(** The messages of the notification channel (specification, section 6). *)
Definition executing (node id : json) : frame :=
  TextFrame (Some (JObj [("type", JStr "executing");
                         ("data", JObj [("node", node); ("prompt_id", id)])])).

Definition executed (node : json) (imgs : list json) : frame :=
  TextFrame (Some (JObj [("type", JStr "executed");
                         ("data", JObj [("node", node);
                                        ("output", JObj [("images", JArr imgs)])])])).

Definition progress (value max : Z) : frame :=
  TextFrame (Some (JObj [("type", JStr "progress");
                         ("data", JObj [("value", JNum value);
                                        ("max", JNum max)])])).

(** An ['executed'] message whose output is [null], and a ['progress']
    message without a value. *)
Definition executed_without_output (node : json) : frame :=
  TextFrame (Some (JObj [("type", JStr "executed");
                         ("data", JObj [("node", node); ("output", JNull)])])).

Definition progress_without_value : frame :=
  TextFrame (Some (JObj [("type", JStr "progress");
                         ("data", JObj [("max", JNum 20)])])).

Definition image_ref (filename : string) : json :=
  JObj [("filename", JStr filename); ("subfolder", JStr "");
        ("type", JStr "output")].

Definition job : json := JStr "job".

(** A channel that delivers [fs], with a clock that advances by one at
    each reading. *)
Definition ticking (fs : list frame) : channel :=
  {| connects := true; now := fun n => Z.of_nat n; frames := fs |}.

(** A channel whose single frame, the completion signal, is delivered
    late: the clock reads 0 and 1 before [recv] and 400 after it. *)
Definition late_completion : channel :=
  {| connects := true;
     now := fun n => if (n <=? 1)%nat then Z.of_nat n else 400%Z;
     frames := [executing JNull job] |}.

Definition accepted : response :=
  {| status_code := 200; text := ""; http_error := ""; json_error := "";
     json_body := Some (JObj [("prompt_id", job)]) |}.

(** The scenario of the specification: the history of the job lists one
    image, [out.png], for node 9. *)
Definition one_image : session :=
  {| client_id := "client";
     makedirs_ok := fun _ => true;
     http_post := fun _ => PostReturns accepted;
     socket := ticking [executing JNull job];
     history := fun _ =>
       Ok (JObj [("job",
                  JObj [("outputs",
                         JObj [("9", JObj [("images",
                                            JArr [image_ref "out.png"])])])])]);
     view := fun _ _ _ => Ok [];
     today := fun _ => {| year := 2026; month := 1; day := 2;
                          hour := 3; minute := 4; second := 5 |};
     writable := fun _ => true |}.

(** The same run with a history that does not know the job. *)
Definition no_image : session :=
  {| client_id := "client";
     makedirs_ok := makedirs_ok one_image;
     http_post := http_post one_image;
     socket := socket one_image;
     history := fun _ => Ok (JObj []);
     view := view one_image;
     today := today one_image;
     writable := writable one_image |}.

(** The rejected submission of the specification's scenario. *)
Definition bad_node : json :=
  JObj [("error", JObj [("message", JStr "bad node")])].

(** A rejected submission with per-node validation errors. *)
Definition node_errors : json :=
  JObj [("error", JObj [("type", JStr "prompt_outputs_failed_validation");
                        ("message", JStr "Prompt outputs failed validation");
                        ("details", JStr "")]);
        ("node_errors",
         JObj [("3", JObj [("errors",
                            JArr [JObj [("type", JStr "value_not_in_list");
                                        ("message", JStr "Value not in list");
                                        ("details", JStr "ckpt_name")]]);
                           ("class_type", JStr "KSampler")])])].

(** The same rejection, with the details of the top-level error, as the
    specification describes it. *)
Definition ckpt_not_in_list : Spec.validation_error :=
  {| Spec.v_type := "value_not_in_list";
     Spec.v_message := "Value not in list";
     Spec.v_details := "ckpt_name" |}.

Definition failed_validation : json :=
  Spec.error_body (Some [("3", [ckpt_not_in_list])])
    "Prompt outputs failed validation" (Some "1 node failed").

Definition rejected (status : Z) (body : json) : response :=
  {| status_code := status; text := ""; http_error := "400 Client Error";
     json_error := ""; json_body := Some body |}.

(** A run whose submission the service refuses. *)
Definition refused : session :=
  {| client_id := "client";
     makedirs_ok := makedirs_ok one_image;
     http_post := fun _ => PostReturns (rejected 400 bad_node);
     socket := socket one_image;
     history := history one_image;
     view := view one_image;
     today := today one_image;
     writable := writable one_image |}.

(** A run whose history lists two images, the second of which the
    service does not serve. *)
Definition second_is_missing : session :=
  {| client_id := "client";
     makedirs_ok := makedirs_ok one_image;
     http_post := http_post one_image;
     socket := socket one_image;
     history := fun _ =>
       Ok (JObj [("job",
                  JObj [("outputs",
                         JObj [("9", JObj [("images",
                                            JArr [image_ref "a.png";
                                                  image_ref "b.png"])])])])]);
     view := fun filename _ _ =>
       if py_eq filename (JStr "b.png") then Raise (RequestException "404")
       else Ok [];
     today := today one_image;
     writable := writable one_image |}.

(** An upload that the service answers with a page that is no JSON. *)
Definition answered_with_a_page : Net.uploads :=
  {| Net.file_exists := fun _ => true;
     Net.file_opens := fun _ => true;
     Net.guess_type := fun _ => Some "image/png"%string;
     Net.post_upload := fun _ =>
       Net.UploadReturns
         {| Net.u_status := 200; Net.u_text := "<html></html>";
            Net.u_content_type := "text/html";
            Net.u_body := Net.Undecodable "Expecting value" true;
            Net.u_http_error := "" |} |}.

(** An upload that the service stores under a name of its own. *)
Definition renamed_by_the_service : Net.uploads :=
  {| Net.file_exists := fun _ => true;
     Net.file_opens := fun _ => true;
     Net.guess_type := fun _ => Some "image/png"%string;
     Net.post_upload := fun _ =>
       Net.UploadReturns
         {| Net.u_status := 200; Net.u_text := "";
            Net.u_content_type := "application/json";
            Net.u_body := Net.Decoded (JObj [("name", JStr "cat (1).png");
                                             ("subfolder", JStr "")]);
            Net.u_http_error := "" |} |}.

End Examples.

(** * Properties *)

(** ** Strings *)

Section StringFacts.

Local Open Scope string_scope.

Lemma take_drop (n : nat) (s : string) : take n s ++ Path.drop n s = s.
Proof.
  revert n; induction s as [|a s IH]; intros [|n]; simpl; auto.
  now rewrite IH.
Qed.

Lemma take_app_length (a b : string) : take (String.length a) (a ++ b) = a.
Proof. induction a as [|c a IH]; simpl; [now destruct b|now rewrite IH]. Qed.

Lemma drop_app_length (a b : string) : Path.drop (String.length a) (a ++ b) = b.
Proof. induction a as [|c a IH]; simpl; auto. now destruct b. Qed.

Lemma slength_app (a b : string) :
  String.length (a ++ b) = String.length a + String.length b.
Proof. induction a as [|c a IH]; simpl; auto. Qed.

Lemma app_assoc_s (a b c : string) : (a ++ b) ++ c = a ++ b ++ c.
Proof. induction a as [|x a IH]; simpl; auto. now rewrite IH. Qed.

Lemma app_empty_r (a : string) : a ++ "" = a.
Proof. induction a as [|x a IH]; simpl; auto. now rewrite IH. Qed.

Lemma length_take (n : nat) (s : string) :
  n <= String.length s -> String.length (take n s) = n.
Proof.
  revert n; induction s as [|a s IH]; intros [|n] H; simpl in *; auto; try lia.
  rewrite IH; lia.
Qed.

Lemma get_app_l (a b : string) (i : nat) :
  i < String.length a -> String.get i (a ++ b) = String.get i a.
Proof.
  revert i; induction a as [|c a IH]; intros i H; simpl in *; [lia|].
  destruct i; auto. apply IH; lia.
Qed.

Lemma drop_0 (s : string) : Path.drop 0 s = s.
Proof. now destruct s. Qed.

Lemma get_take (n i : nat) (s : string) :
  i < n -> String.get i (take n s) = String.get i s.
Proof.
  revert n i; induction s as [|a s IH]; intros [|n] [|i] H; simpl; auto;
    try lia.
  apply IH; lia.
Qed.

End StringFacts.

(** ** [rfind] and [splitext] *)

Section SplitextFacts.

Import Path.
Local Open Scope string_scope.
Local Open Scope Z_scope.

Lemma rfind_range (c : ascii) (s : string) :
  -1 <= rfind c s < Z.of_nat (String.length s).
Proof.
  induction s as [|a s IH]; simpl; [lia|].
  destruct (0 <=? rfind c s) eqn:E; [apply Z.leb_le in E; lia|].
  destruct (Ascii.eqb a c); lia.
Qed.

Lemma rfind_app (c : ascii) (a b : string) :
  rfind c (a ++ b) =
  if 0 <=? rfind c b then Z.of_nat (String.length a) + rfind c b
  else rfind c a.
Proof.
  induction a as [|x a IH]; simpl String.length; simpl append.
  - destruct (0 <=? rfind c b) eqn:E; simpl; [lia|].
    apply Z.leb_gt in E. pose proof (rfind_range c b). lia.
  - simpl rfind. rewrite IH.
    destruct (0 <=? rfind c b) eqn:E.
    + apply Z.leb_le in E.
      replace (0 <=? Z.of_nat (String.length a) + rfind c b) with true
        by (symmetry; apply Z.leb_le; lia).
      lia.
    + reflexivity.
Qed.

(** The character at the index [rfind] gives. *)
Lemma rfind_get (c : ascii) (s : string) :
  0 <= rfind c s -> String.get (Z.to_nat (rfind c s)) s = Some c.
Proof.
  induction s as [|a s IH]; simpl; [lia|].
  destruct (0 <=? rfind c s) eqn:E.
  - apply Z.leb_le in E. intros _.
    replace (Z.to_nat (rfind c s + 1)) with (S (Z.to_nat (rfind c s))) by lia.
    now apply IH.
  - destruct (Ascii.eqb_spec a c); [subst; reflexivity|lia].
Qed.

(** No later occurrence. *)
Lemma rfind_drop (c : ascii) (s : string) :
  0 <= rfind c s -> rfind c (drop (S (Z.to_nat (rfind c s))) s) = -1.
Proof.
  induction s as [|a s IH]; simpl rfind; [lia|].
  destruct (0 <=? rfind c s) eqn:E.
  - apply Z.leb_le in E. intros _.
    replace (Z.to_nat (rfind c s + 1)) with (S (Z.to_nat (rfind c s))) by lia.
    simpl. now apply IH.
  - intros H0. apply Z.leb_gt in E. pose proof (rfind_range c s).
    destruct (Ascii.eqb a c); [|lia].
    change (Z.to_nat 0) with 0%nat. cbn [drop]. rewrite drop_0. lia.
Qed.

Lemma rfind_absent_drop (c : ascii) (n : nat) (s : string) :
  rfind c s < Z.of_nat n -> rfind c (drop n s) = -1.
Proof.
  revert n; induction s as [|a s IH]; intros n H.
  - now destruct n.
  - destruct n as [|n].
    + pose proof (rfind_range c (String a s)). simpl drop. lia.
    + simpl drop. apply IH. simpl in H.
      destruct (0 <=? rfind c s) eqn:E; [lia|].
      apply Z.leb_gt in E. lia.
Qed.

Lemma drop_at (n : nat) (c : ascii) (s : string) :
  String.get n s = Some c -> drop n s = String c (drop (S n) s).
Proof.
  revert n; induction s as [|a s IH]; intros [|n] H; simpl in *;
    try discriminate.
  - inversion H; subst. now rewrite drop_0.
  - rewrite (IH _ H). reflexivity.
Qed.

Lemma rfind_at_drop (c : ascii) (s : string) :
  0 <= rfind c s -> rfind c (drop (Z.to_nat (rfind c s)) s) = 0.
Proof.
  intros H. rewrite (drop_at _ c) by now apply rfind_get.
  pose proof (rfind_drop c s H) as E.
  change (rfind c (String c ?x))
    with (if 0 <=? rfind c x then rfind c x + 1
          else if Ascii.eqb c c then 0 else -1).
  rewrite E. simpl. now rewrite Ascii.eqb_refl.
Qed.

Lemma skip_agree (p q : string) (i k : nat) :
  (forall j, (i <= j < i + k)%nat -> String.get j p = String.get j q) ->
  skip_leading_dots p i k = skip_leading_dots q i k.
Proof.
  revert i; induction k as [|k IH]; intros i H; simpl; auto.
  unfold not_dot_at. rewrite (H i) by lia.
  destruct (String.get i q) as [a|]; auto.
  destruct (negb (Ascii.eqb a extsep)); auto.
  apply IH. intros j Hj. apply H. lia.
Qed.

Lemma skip_more (p : string) (i k m : nat) :
  skip_leading_dots p i k = true -> skip_leading_dots p i (k + m) = true.
Proof.
  revert i; induction k as [|k IH]; intros i H; simpl in *; [discriminate|].
  destruct (not_dot_at p i); auto.
Qed.

Lemma splitext_app (p : string) :
  fst (splitext p) ++ snd (splitext p) = p.
Proof.
  unfold splitext.
  destruct (rfind sep p <? rfind extsep p); simpl; [|apply app_empty_r].
  destruct (skip_leading_dots _ _ _); simpl;
    [apply take_drop|apply app_empty_r].
Qed.

(** Text without a dot and without a separator, put between the stem and
    the extension, stays in the stem. *)
Lemma splitext_insert_eq (p mid name ext : string) :
  rfind sep mid = -1 -> rfind extsep mid = -1 ->
  splitext p = (name, ext) ->
  splitext (name ++ mid ++ ext) = (name ++ mid, ext).
Proof.
  intros Hsep Hdot.
  pose proof (rfind_range sep p) as Rs.
  pose proof (rfind_range extsep p) as Rd.
  unfold splitext at 1.
  destruct (rfind sep p <? rfind extsep p) eqn:Lt.
  - apply Z.ltb_lt in Lt.
    destruct (skip_leading_dots p (Z.to_nat (rfind sep p + 1))
                (Z.to_nat (rfind extsep p) - Z.to_nat (rfind sep p + 1)))
      eqn:Sk; intros [= <- <-].
    + set (d := Z.to_nat (rfind extsep p)) in *.
      assert (Hd : (d <= String.length p)%nat) by lia.
      assert (Ln : String.length (take d p) = d) by now apply length_take.
      assert (Ed : rfind extsep (drop d p) = 0)
        by (apply rfind_at_drop; lia).
      assert (Es : rfind sep (drop d p) = -1)
        by (apply rfind_absent_drop; lia).
      assert (Sn : rfind sep (take d p) = rfind sep p).
      { rewrite <- (take_drop d p) at 2. rewrite rfind_app, Es. reflexivity. }
      assert (Rdot : rfind extsep (take d p ++ mid ++ drop d p)
                     = Z.of_nat (String.length (take d p ++ mid))).
      { rewrite !rfind_app, Ed, slength_app, Ln.
        change (0 <=? 0) with true. cbv iota.
        destruct (Z.leb_spec 0 (Z.of_nat (String.length mid) + 0)); lia. }
      assert (Rsep : rfind sep (take d p ++ mid ++ drop d p) = rfind sep p).
      { rewrite !rfind_app, Es, Hsep, Sn. reflexivity. }
      unfold splitext. rewrite Rdot, Rsep, Nat2Z.id.
      replace (rfind sep p <? Z.of_nat (String.length (take d p ++ mid)))
        with true
        by (symmetry; apply Z.ltb_lt; rewrite slength_app, Ln; lia).
      replace (String.length (take d p ++ mid)
               - Z.to_nat (rfind sep p + 1))%nat
        with ((d - Z.to_nat (rfind sep p + 1)) + String.length mid)%nat
        by (rewrite slength_app, Ln; lia).
      rewrite skip_more.
      * rewrite <- app_assoc_s.
        now rewrite take_app_length, drop_app_length.
      * rewrite <- Sk. apply skip_agree. intros j Hj.
        rewrite get_app_l by (rewrite Ln; lia).
        apply get_take. lia.
    + rewrite app_empty_r. unfold splitext.
      rewrite !rfind_app, Hsep, Hdot. change (0 <=? -1) with false. cbv iota.
      replace (rfind sep p <? rfind extsep p) with true
        by (symmetry; apply Z.ltb_lt; lia).
      replace (skip_leading_dots (p ++ mid) _ _) with false; [reflexivity|].
      rewrite <- Sk. apply skip_agree. intros j Hj.
      rewrite get_app_l by lia. reflexivity.
  - intros [= <- <-]. rewrite app_empty_r. unfold splitext.
    rewrite !rfind_app, Hsep, Hdot. change (0 <=? -1) with false. cbv iota.
    now rewrite Lt.
Qed.

End SplitextFacts.

(** ** The monad *)

Section IoFacts.

Context {A B : Type}.

Lemma bind_returned (m : io A) (f : A -> io B) evs b :
  bind m f = (evs, Returned b) ->
  exists evs1 a evs2,
    m = (evs1, Returned a) /\ f a = (evs2, Returned b) /\ evs = evs1 ++ evs2.
Proof.
  destruct m as [evs1 [a|e|]]; simpl; try discriminate.
  destruct (f a) as [evs2 r] eqn:E. intros [= <- ->].
  now exists evs1, a, evs2.
Qed.

Lemma bind_step (m : io A) (f : A -> io B) evs a :
  m = (evs, Returned a) ->
  bind m f = (evs ++ fst (f a), snd (f a)).
Proof. intros ->. simpl. now destruct (f a). Qed.

Lemma result_of_bind (m : io A) (f : A -> io B) a :
  result_of m = Returned a -> result_of (bind m f) = result_of (f a).
Proof.
  destruct m as [evs r]; simpl. intros ->. now destruct (f a).
Qed.

Lemma events_bind (m : io A) (f : A -> io B) a :
  result_of m = Returned a -> events (bind m f) = events m ++ events (f a).
Proof.
  destruct m as [evs r]; simpl. intros ->. now destruct (f a).
Qed.

Lemma result_of_bind_raised (m : io A) (f : A -> io B) e :
  result_of m = Raised e -> result_of (bind m f) = Raised e.
Proof. destruct m as [evs r]; simpl. now intros ->. Qed.

Lemma events_bind_raised (m : io A) (f : A -> io B) e :
  result_of m = Raised e -> events (bind m f) = events m.
Proof. destruct m as [evs r]; simpl. now intros ->. Qed.

End IoFacts.

Section Only.

Variable P : event -> Prop.

Lemma only_ret {A} (a : A) : only P (ret a).
Proof. constructor. Qed.

Lemma only_raise {A} (e : exn) : only P (@raise A e).
Proof. constructor. Qed.

Lemma only_lift {A} (r : result A) : only P (lift r).
Proof. destruct r; constructor. Qed.

Lemma only_emit (e : event) : P e -> only P (emit e).
Proof. repeat constructor. assumption. Qed.

Lemma only_bind {A B} (m : io A) (f : A -> io B) :
  only P m -> (forall a, only P (f a)) -> only P (bind m f).
Proof.
  unfold only. destruct m as [evs [a|e|]]; simpl; auto.
  intros H1 H2. specialize (H2 a). destruct (f a) as [evs' r]. simpl in *.
  apply Forall_app; auto.
Qed.

Lemma only_try_pass (m : io unit) : only P m -> only P (try_pass m).
Proof. unfold only. now destruct m as [evs [a|e|]]. Qed.

Lemma only_try_except {A} (m : io A) h :
  only P m -> (forall e k, h e = Some k -> only P k) ->
  only P (try_except m h).
Proof.
  unfold only. destruct m as [evs [a|e|]]; simpl; auto.
  intros H1 H2. destruct (h e) as [k|] eqn:E; simpl; auto.
  specialize (H2 _ _ E). destruct k as [evs' r]. simpl in *.
  apply Forall_app; auto.
Qed.

Lemma only_for_each {A} (l : list A) (body : A -> io unit) :
  (forall x, only P (body x)) -> only P (for_each l body).
Proof.
  intros H. induction l as [|x l IH]; simpl.
  - constructor.
  - apply only_bind; auto.
Qed.

Lemma only_for_fold {A B} (l : list A) (body : B -> A -> io B) (s : B) :
  (forall s x, only P (body s x)) -> only P (for_fold l body s).
Proof.
  intros H. revert s. induction l as [|x l IH]; intros s; simpl.
  - constructor.
  - apply only_bind; auto.
Qed.

End Only.

Lemma no_write_written {A} (m : io A) : only no_write m -> Client.written m = [].
Proof.
  unfold only, Client.written, Client.writes. induction (events m) as [|e l IH]; auto.
  intros H. inversion H; subst. simpl. rewrite IH by assumption.
  now destruct e.
Qed.

Lemma loop_event_no_write (e : event) : loop_event e -> no_write e.
Proof. now destruct e. Qed.

Lemma only_weaken (P Q : event -> Prop) {A} (m : io A) :
  (forall e, P e -> Q e) -> only P m -> only Q m.
Proof. intros H. unfold only. apply Forall_impl. exact H. Qed.

Ltac only_tac :=
  repeat first
    [ solve [auto]
    | apply only_ret | apply only_raise | apply only_lift
    | apply only_emit; exact I
    | apply only_try_pass
    | apply only_for_each; intros
    | apply only_for_fold; intros
    | apply only_bind; [|intros]
    | match goal with
      | |- only _ (if ?b then _ else _) => destruct b
      | |- only _ (match ?x with _ => _ end) => destruct x
      | |- only _ (let '(_, _) := ?x in _) => destruct x
      end ].

Section ClientQuiet.

Import Client.

Lemma queue_prompt_no_write cid post prompt :
  only no_write (queue_prompt cid post prompt).
Proof.
  unfold queue_prompt.
  assert (R : forall j, only no_write (report_error_json j)).
  { intros j. unfold report_error_json, report_node, report_node_error, loads,
      print.
    only_tac. }
  assert (E : forall msg resp, only no_write (on_request_exception msg resp)).
  { intros msg resp. unfold on_request_exception, loads, print. only_tac. }
  destruct (post _) as [msg resp|req]; auto.
  destruct (is_http_error req); auto.
  destruct (json_body req) as [j|]; auto.
  apply only_try_except.
  - unfold read_prompt_id, print. only_tac.
  - intros e k. unfold on_parse_error, print.
    destruct e; intros [= <-]; only_tac.
Qed.

Lemma on_frame_events pid f imgs : only loop_event (on_frame pid f imgs).
Proof.
  unfold on_frame, on_message, on_executed, loads, print. only_tac.
Qed.

Lemma wait_loop_events now pid timeout start n fs imgs :
  only loop_event (wait_loop now pid timeout start n fs imgs).
Proof.
  revert n imgs. induction fs as [|f fs IH]; intros n imgs; cbn [wait_loop].
  - destruct (_ <? _)%Z; repeat constructor.
  - destruct (_ <? _)%Z; [|repeat constructor].
    apply only_bind; [apply on_frame_events|intros [|d]]; auto.
    apply only_ret.
Qed.

Lemma wait_for_completion_no_write c pid timeout :
  only no_write (wait_for_completion c pid timeout).
Proof.
  unfold wait_for_completion. destruct (connects c); [|apply only_raise].
  apply only_bind; [apply only_emit; exact I|intros _].
  apply only_bind.
  - eapply only_weaken; [apply loop_event_no_write|apply wait_loop_events].
  - intros [[x n] d]. only_tac.
Qed.

End ClientQuiet.

(** ** The timestamp and the saved file name *)

Section TimestampFacts.

Import Path Spec.
Local Open Scope string_scope.

Lemma digit_not_sep (n : nat) : Ascii.eqb (digit n) sep = false.
Proof.
  unfold digit.
  destruct (n mod 10) as [|[|[|[|[|[|[|[|[|k]]]]]]]]]; reflexivity.
Qed.

Lemma digit_not_extsep (n : nat) : Ascii.eqb (digit n) extsep = false.
Proof.
  unfold digit.
  destruct (n mod 10) as [|[|[|[|[|[|[|[|[|k]]]]]]]]]; reflexivity.
Qed.

Lemma digit_is_digit (n : nat) : is_digit (digit n) = true.
Proof.
  unfold digit.
  destruct (n mod 10) as [|[|[|[|[|[|[|[|[|k]]]]]]]]]; reflexivity.
Qed.

Lemma lacks_rfind (c : ascii) (s : string) :
  lacks c s = true -> rfind c s = (-1)%Z.
Proof.
  induction s as [|a s IH]; simpl; auto.
  intros H. apply andb_prop in H as [H1 H2]. rewrite (IH H2). simpl.
  now destruct (Ascii.eqb a c).
Qed.

Lemma strftime_length (dt : datetime) : String.length (strftime dt) = 15.
Proof. reflexivity. Qed.

Lemma strftime_form (dt : datetime) : timestamp_form (strftime dt) = true.
Proof.
  unfold timestamp_form, strftime, pad4, pad2. simpl.
  now rewrite !digit_is_digit.
Qed.

Lemma segment_lacks_sep (dt : datetime) :
  rfind sep ("_" ++ strftime dt) = (-1)%Z.
Proof.
  apply lacks_rfind. unfold strftime, pad4, pad2. simpl.
  now rewrite !digit_not_sep.
Qed.

Lemma segment_lacks_extsep (dt : datetime) :
  rfind extsep ("_" ++ strftime dt) = (-1)%Z.
Proof.
  apply lacks_rfind. unfold strftime, pad4, pad2. simpl.
  now rewrite !digit_not_extsep.
Qed.

Lemma new_filename_eq (filename timestamp : string) :
  new_filename filename timestamp
  = fst (splitext filename) ++ "_" ++ timestamp ++ snd (splitext filename).
Proof. unfold new_filename. now destruct (splitext filename). Qed.

(** The saved name splits into the stem with the timestamp segment, and
    the original extension. *)
Lemma splitext_new_filename (filename : string) (dt : datetime) :
  splitext (new_filename filename (strftime dt))
  = (fst (splitext filename) ++ "_" ++ strftime dt, snd (splitext filename)).
Proof.
  rewrite new_filename_eq.
  destruct (splitext filename) as [name ext] eqn:E. simpl fst; simpl snd.
  change (name ++ "_" ++ strftime dt ++ ext)
    with (name ++ ("_" ++ strftime dt) ++ ext).
  apply (splitext_insert_eq filename); auto using segment_lacks_sep,
    segment_lacks_extsep.
Qed.

Lemma strip_new_filename (filename : string) (dt : datetime) :
  strip_timestamp (new_filename filename (strftime dt)) = splitext filename.
Proof.
  unfold strip_timestamp. rewrite splitext_new_filename.
  rewrite slength_app.
  change (String.length ("_" ++ strftime dt)) with 16.
  replace (String.length (fst (splitext filename)) + 16 - 16)
    with (String.length (fst (splitext filename))) by lia.
  rewrite take_app_length. now destruct (splitext filename).
Qed.

End TimestampFacts.

(** ** [generate_image]: the files saved *)

Section SavedFiles.

Import Path Client Spec.
Local Open Scope string_scope.

Lemma lift_returned {A} (r : result A) evs a :
  lift r = (evs, Returned a) -> r = Ok a /\ evs = [].
Proof. destruct r; simpl; intros [= <- <-] || discriminate; auto. Qed.

Lemma for_fold_invariant {A S} (P : S -> Prop) (body : S -> A -> io S) l :
  (forall s x evs s', In x l -> P s -> body s x = (evs, Returned s') -> P s') ->
  forall s evs s', P s -> for_fold l body s = (evs, Returned s') -> P s'.
Proof.
  induction l as [|x l IH]; intros Hbody s evs s' Hs; simpl.
  - now intros [= _ <-].
  - intros H. apply bind_returned in H as (evs1 & s1 & evs2 & H1 & H2 & _).
    apply (IH (fun s x evs s' Hx => Hbody s x evs s' (or_intror Hx))
              s1 evs2 s'); auto.
    apply (Hbody s x evs1 s1); simpl; auto.
Qed.

Lemma save_image_timestamped s output_dir source acc image_info evs acc' :
  source image_info ->
  Forall (timestamped s output_dir source) (fst acc) ->
  save_image s output_dir acc image_info = (evs, Returned acc') ->
  Forall (timestamped s output_dir source) (fst acc').
Proof.
  destruct acc as [saved i]. unfold save_image. intros Hsrc Hacc H.
  apply bind_returned in H as (? & filename & ? & Hf & H & _).
  apply lift_returned in Hf as [Hf _].
  do 4 apply bind_returned in H as (? & ? & ? & _ & H & _).
  apply bind_returned in H as (? & path & ? & Hp & H & _).
  apply lift_returned in Hp as [Hp _].
  destruct filename; try discriminate. injection Hp as ->.
  do 2 apply bind_returned in H as (? & ? & ? & _ & H & _).
  injection H as _ <-. simpl.
  apply Forall_app; split; [assumption|]. constructor; [|constructor].
  exists image_info, path, i. split; [assumption|]. split; [assumption|].
  cbv zeta. repeat split.
  - apply new_filename_eq.
  - apply strftime_form.
  - apply strip_new_filename.
Qed.

Lemma save_node_timestamped s output_dir source acc item evs acc' :
  (forall imgs l image_info,
      py_getitem (snd item) (JStr "images") = Ok imgs ->
      py_iter imgs = Ok l -> In image_info l -> source image_info) ->
  Forall (timestamped s output_dir source) (fst acc) ->
  save_node s output_dir acc item = (evs, Returned acc') ->
  Forall (timestamped s output_dir source) (fst acc').
Proof.
  unfold save_node. intros Hsrc Hacc H.
  apply bind_returned in H as (? & has & ? & _ & H & _).
  destruct has.
  - apply bind_returned in H as (? & imgs & ? & Hi & H & _).
    apply lift_returned in Hi as [Hi _].
    apply bind_returned in H as (? & l & ? & Hl & H & _).
    apply lift_returned in Hl as [Hl _].
    revert H.
    apply (for_fold_invariant
             (fun acc => Forall (timestamped s output_dir source) (fst acc)));
      [|assumption].
    intros acc0 info evs0 acc1 Hx Ha Hrun.
    eapply save_image_timestamped; eauto.
  - now injection H as _ <-.
Qed.

End SavedFiles.

Section SavedFilesClaims.

Import Path Client Spec.
Local Open Scope string_scope.

Lemma save_outputs_timestamped s output_dir history prompt_id evs paths :
  save_outputs s output_dir history prompt_id = (evs, Returned paths) ->
  Forall (timestamped s output_dir (listed history prompt_id)) paths.
Proof.
  unfold save_outputs. intros H.
  apply bind_returned in H as (? & known & ? & _ & H & _).
  destruct known; [|injection H as _ <-; constructor].
  apply bind_returned in H as (? & entry & ? & He & H & _).
  apply lift_returned in He as [He _].
  apply bind_returned in H as (? & outputs & ? & Ho & H & _).
  apply lift_returned in Ho as [Ho _].
  apply bind_returned in H as (? & items & ? & Hi & H & _).
  apply lift_returned in Hi as [Hi _].
  apply bind_returned in H as (? & acc & ? & Hrun & H & _).
  injection H as _ <-.
  revert Hrun.
  apply (for_fold_invariant
           (fun acc =>
              Forall (timestamped s output_dir (listed history prompt_id))
                     (fst acc))).
  - intros acc0 item evs0 acc1 Hitem Ha Hrun.
    eapply save_node_timestamped; eauto.
    intros imgs l image_info Hg Hl Hin.
    now exists entry, outputs, items, item, imgs, l.
  - constructor.
Qed.

Lemma only_bind_result (P : event -> Prop) {A B} (m : io A) (f : A -> io B) :
  only P m -> (forall a, result_of m = Returned a -> only P (f a)) ->
  only P (bind m f).
Proof.
  unfold only. destruct m as [evs [a|e|]]; simpl; auto.
  intros H1 H2. specialize (H2 a eq_refl). destruct (f a) as [evs' r].
  simpl in *. apply Forall_app; auto.
Qed.

Lemma only_bind_lift (P : event -> Prop) {A B} (r : result A) (f : A -> io B) :
  (forall a, r = Ok a -> only P (f a)) -> only P (bind (lift r) f).
Proof.
  intros H. apply only_bind_result; [apply only_lift|].
  intros a E. apply H. destruct r; simpl in E; congruence.
Qed.

Lemma only_for_fold_in (P : event -> Prop) {A S} (l : list A)
    (body : S -> A -> io S) (s : S) :
  (forall s x, In x l -> only P (body s x)) -> only P (for_fold l body s).
Proof.
  revert s. induction l as [|x l IH]; intros s H; simpl.
  - constructor.
  - apply only_bind; [apply H; simpl; auto|].
    intros s'. apply IH. intros s0 y Hy. apply H. simpl. auto.
Qed.

(** Every file [save_image] writes has the timestamped name of the
    reference it saves, whether or not the turn comes to its end. *)
Lemma save_image_saved_as s output_dir source acc image_info :
  source image_info ->
  only (saved_as s output_dir source) (save_image s output_dir acc image_info).
Proof.
  destruct acc as [saved i]. unfold save_image, print. intros Hsrc.
  apply only_bind_lift. intros filename Hf.
  apply only_bind; [apply only_lift|intros subfolder].
  apply only_bind; [apply only_lift|intros folder_type].
  apply only_bind; [apply only_emit; exact I|intros _].
  apply only_bind; [apply only_lift|intros image_data].
  apply only_bind_lift. intros path Hp.
  destruct filename; try discriminate. injection Hp as ->.
  apply only_bind; [|intros _; only_tac].
  destruct (writable s _); [|apply only_raise].
  apply only_emit. simpl.
  exists image_info, path, i. split; [assumption|]. split; [assumption|].
  cbv zeta. repeat split.
  - apply new_filename_eq.
  - apply strftime_form.
  - apply strip_new_filename.
Qed.

Lemma save_node_saved_as s output_dir source acc item :
  (forall imgs l image_info,
      py_getitem (snd item) (JStr "images") = Ok imgs ->
      py_iter imgs = Ok l -> In image_info l -> source image_info) ->
  only (saved_as s output_dir source) (save_node s output_dir acc item).
Proof.
  unfold save_node. intros Hsrc.
  apply only_bind; [apply only_lift|intros [|]]; [|apply only_ret].
  apply only_bind_lift. intros imgs Hi.
  apply only_bind_lift. intros l Hl.
  apply only_for_fold_in. intros acc0 info Hin.
  apply save_image_saved_as. eauto.
Qed.

Lemma save_outputs_saved_as s output_dir history prompt_id :
  only (saved_as s output_dir (listed history prompt_id))
    (save_outputs s output_dir history prompt_id).
Proof.
  unfold save_outputs.
  apply only_bind; [apply only_lift|intros [|]]; [|apply only_ret].
  apply only_bind_lift. intros entry He.
  apply only_bind_lift. intros outputs Ho.
  apply only_bind_lift. intros items Hi.
  apply only_bind; [|intros acc; apply only_ret].
  apply only_for_fold_in. intros acc0 item Hitem.
  apply save_node_saved_as. intros imgs l image_info Hg Hl Hin.
  now exists entry, outputs, items, item, imgs, l.
Qed.

Lemma written_in {A} (m : io A) path data :
  In (path, data) (written m) <-> In (FileWrite path data) (events m).
Proof.
  unfold written, writes. rewrite in_flat_map. split.
  - intros (e & He & Hin). destruct e; simpl in Hin; try contradiction.
    destruct Hin as [[= -> ->]|[]]. exact He.
  - intros H. exists (FileWrite path data). split; [exact H|]. simpl. auto.
Qed.

(** C7.  Every file [generate_image] writes, whether the run returns or
    fails later, and every path it returns, comes from an image reference
    that the history lists for the job, and is [output_dir] joined with
    the stem of the reference's file name, an underscore, the timestamp
    [YYYYMMDD_HHMMSS] of the moment of saving and the extension of that
    file name; removing the 16-character segment before the extension
    gives back the stem and the extension. *)
Theorem C7_saved_names_are_timestamped s workflow output_dir timeout :
  let run := generate_image s workflow output_dir timeout in
  (forall path data,
      In (path, data) (written run) ->
      exists prompt_id response,
        result_of (queue_prompt (client_id s) (http_post s) workflow)
        = Returned prompt_id
        /\ history s prompt_id = Ok response
        /\ timestamped s output_dir (listed response prompt_id) path)
  /\ (forall paths,
        result_of run = Returned paths ->
        exists prompt_id response,
          result_of (queue_prompt (client_id s) (http_post s) workflow)
          = Returned prompt_id
          /\ history s prompt_id = Ok response
          /\ Forall (timestamped s output_dir (listed response prompt_id))
               paths).
Proof.
  intros run. split.
  - set (P := fun e =>
                match e with
                | FileWrite path _ =>
                    exists prompt_id response,
                      result_of (queue_prompt (client_id s) (http_post s)
                                   workflow) = Returned prompt_id
                      /\ history s prompt_id = Ok response
                      /\ timestamped s output_dir (listed response prompt_id)
                           path
                | _ => True
                end).
    assert (O : only P run).
    { subst run. unfold generate_image, makedirs, print.
      apply only_bind;
        [destruct (makedirs_ok s output_dir);
         [apply only_emit; exact I|apply only_raise]|intros _].
      apply only_bind; [apply only_emit; exact I|intros _].
      apply only_bind_result.
      { eapply only_weaken; [|apply queue_prompt_no_write].
        now intros []. }
      intros prompt_id Hq.
      apply only_bind; [apply only_emit; exact I|intros _].
      apply only_bind; [apply only_emit; exact I|intros _].
      apply only_bind.
      { eapply only_weaken; [|apply wait_for_completion_no_write].
        now intros []. }
      intros imgs. apply only_bind_lift. intros response Hh.
      eapply only_weaken; [|apply save_outputs_saved_as].
      intros [] H; simpl; auto. now exists prompt_id, response. }
    intros path data Hin. apply written_in in Hin.
    unfold only in O. rewrite Forall_forall in O. exact (O _ Hin).
  - subst run. unfold generate_image, result_of at 1.
    destruct (bind _ _) as [evs r] eqn:H. simpl. intros paths ->.
    do 2 apply bind_returned in H as (? & ? & ? & _ & H & _).
    apply bind_returned in H as (? & prompt_id & ? & Hq & H & _).
    do 3 apply bind_returned in H as (? & ? & ? & _ & H & _).
    apply bind_returned in H as (? & response & ? & Hh & H & _).
    apply lift_returned in Hh as [Hh _].
    exists prompt_id, response. split; [now rewrite Hq|]. split; [exact Hh|].
    eapply save_outputs_timestamped; eassumption.
Qed.

Lemma C7_saved_names_are_timestamped_witness :
  written (generate_image Examples.one_image (JObj []) "output" 300)
  = [("output/out_20260102_030405.png", [])]
  /\ exists prompt_id response,
       result_of (queue_prompt (client_id Examples.one_image)
                    (http_post Examples.one_image) (JObj []))
       = Returned prompt_id
       /\ history Examples.one_image prompt_id = Ok response
       /\ timestamped Examples.one_image "output"
            (listed response prompt_id) "output/out_20260102_030405.png".
Proof.
  split; [reflexivity|].
  destruct (C7_saved_names_are_timestamped Examples.one_image (JObj [])
              "output" 300) as [W _].
  apply (W "output/out_20260102_030405.png" []). simpl. auto.
Defined.

End SavedFilesClaims.

(** ** [generate_image]: the order of the files *)

Section HistoryOrder.

Import Path Client Spec.

Variables (s : session) (output_dir : string).

Lemma writes_app (a b : list event) : writes (a ++ b) = writes a ++ writes b.
Proof. apply flat_map_app. Qed.

Lemma save_image_run saved i image_info path data :
  artifact s output_dir i image_info = Some (path, data) ->
  exists evs,
    save_image s output_dir (saved, i) image_info
    = (evs, Returned (saved ++ [path], S i))
    /\ writes evs = [(path, data)].
Proof.
  unfold artifact, save_image.
  destruct image_info as [| | | | |o]; try discriminate.
  unfold py_getitem, py_get.
  destruct (assoc "filename" o) as [[| | |filename| |]|]; try discriminate.
  simpl.
  destruct (view s _ _ _) as [d|]; try discriminate. simpl.
  destruct (writable s _) eqn:W; try discriminate.
  intros [= <- <-]. simpl. eexists; split; reflexivity.
Qed.

Lemma save_images_run l : forall saved i files,
  artifacts s output_dir i l = Some files ->
  exists evs,
    for_fold l (save_image s output_dir) (saved, i)
    = (evs, Returned (saved ++ map fst files, i + length l))
    /\ writes evs = files.
Proof.
  induction l as [|info l IH]; intros saved i files;
    cbn [for_fold artifacts length].
  - intros [= <-]. exists []. simpl. rewrite app_nil_r, Nat.add_0_r.
    now split.
  - destruct (artifact s output_dir i info) as [[path data]|] eqn:E;
      try discriminate.
    destruct (artifacts s output_dir (S i) l) as [rest|] eqn:R;
      try discriminate.
    intros [= <-].
    destruct (save_image_run saved i info path data E) as (evs1 & H1 & W1).
    destruct (IH (saved ++ [path]) (S i) rest R) as (evs2 & H2 & W2).
    exists (evs1 ++ evs2). rewrite (bind_step _ _ _ _ H1), H2.
    cbn [fst snd map].
    rewrite <- app_assoc, writes_app, W1, W2, Nat.add_succ_r.
    now split.
Qed.

Lemma artifacts_app l1 : forall l2 i files,
  artifacts s output_dir i (l1 ++ l2) = Some files ->
  exists f1 f2,
    artifacts s output_dir i l1 = Some f1
    /\ artifacts s output_dir (i + length l1) l2 = Some f2
    /\ files = f1 ++ f2.
Proof.
  induction l1 as [|x l1 IH]; intros l2 i files; simpl.
  - intros H. exists [], files. now rewrite Nat.add_0_r.
  - destruct (artifact s output_dir i x) as [a|]; try discriminate.
    destruct (artifacts s output_dir (S i) (l1 ++ l2)) as [l|] eqn:E;
      try discriminate.
    intros [= <-]. destruct (IH _ _ _ E) as (f1 & f2 & -> & H2 & ->).
    exists (a :: f1), f2. now rewrite Nat.add_succ_r.
Qed.

Lemma save_node_run saved i item files :
  node_output_ok (snd item) ->
  artifacts s output_dir i (node_images (snd item)) = Some files ->
  exists evs,
    save_node s output_dir (saved, i) item
    = (evs, Returned (saved ++ map fst files,
                      i + length (node_images (snd item))))
    /\ writes evs = files.
Proof.
  destruct item as [node_id node_output]. unfold save_node, node_output_ok.
  simpl snd. destruct node_output as [| | | | |o]; try contradiction.
  unfold node_images, py_in, py_getitem.
  destruct (assoc "images" o) as [[| | | |l|]|]; try contradiction; intros _.
  - intros H. destruct (save_images_run l saved i files H) as (evs & E & W).
    exists evs. simpl. rewrite E. now split.
  - intros [= <-]. exists []. simpl. now rewrite app_nil_r, Nat.add_0_r.
Qed.

Lemma save_nodes_run nodes : forall saved i files,
  Forall (fun kv => node_output_ok (snd kv)) nodes ->
  artifacts s output_dir i (flat_map (fun kv => node_images (snd kv)) nodes)
  = Some files ->
  exists evs n,
    for_fold nodes (save_node s output_dir) (saved, i)
    = (evs, Returned (saved ++ map fst files, n))
    /\ writes evs = files.
Proof.
  induction nodes as [|item nodes IH]; intros saved i files Hok;
    cbn [for_fold flat_map].
  - intros [= <-]. exists [], i. simpl. now rewrite app_nil_r.
  - inversion Hok as [|? ? Hitem Hrest]; subst. intros H.
    apply artifacts_app in H as (f1 & f2 & H1 & H2 & ->).
    destruct (save_node_run saved i item f1 Hitem H1) as (evs1 & E1 & W1).
    destruct (IH (saved ++ map fst f1) _ _ Hrest H2) as (evs2 & n & E2 & W2).
    exists (evs1 ++ evs2), n. rewrite (bind_step _ _ _ _ E1), E2.
    cbn [fst snd].
    now rewrite map_app, app_assoc, writes_app, W1, W2.
Qed.

Lemma save_outputs_run id h files :
  history_ok id h ->
  artifacts s output_dir 0 (history_images id h) = Some files ->
  exists evs,
    save_outputs s output_dir h (JStr id) = (evs, Returned (map fst files))
    /\ writes evs = files.
Proof.
  unfold history_ok, history_images, save_outputs.
  destruct h as [| | | | |m]; try contradiction.
  unfold py_in, py_getitem.
  destruct (assoc id m) as [[| | | | |entry]|]; try contradiction.
  - destruct (assoc "outputs" entry) as [[| | | | |nodes]|] eqn:Eo;
      try contradiction.
    intros Hok H.
    destruct (save_nodes_run nodes [] 0 files Hok H) as (evs & n & E & W).
    exists evs. simpl. rewrite Eo. simpl. rewrite E. simpl.
    now rewrite app_nil_r.
  - intros _ [= <-]. exists []. now split.
Qed.

End HistoryOrder.

Section HistoryOrderClaim.

Import Path Client Spec.

Lemma written_bind {A B} (m : io A) (f : A -> io B) a :
  result_of m = Returned a -> written (bind m f) = written m ++ written (f a).
Proof.
  intros H. unfold written. rewrite (events_bind _ _ _ H). apply writes_app.
Qed.

Lemma generate_image_run s workflow output_dir timeout id imgs h paths evs :
  makedirs_ok s output_dir = true ->
  result_of (queue_prompt (client_id s) (http_post s) workflow)
  = Returned (JStr id) ->
  result_of (wait_for_completion (socket s) (JStr id) timeout)
  = Returned imgs ->
  history s (JStr id) = Ok h ->
  save_outputs s output_dir h (JStr id) = (evs, Returned paths) ->
  result_of (generate_image s workflow output_dir timeout) = Returned paths
  /\ written (generate_image s workflow output_dir timeout) = writes evs.
Proof.
  intros Hmk Hq Hw Hh Hs.
  assert (Mk : result_of (makedirs s output_dir) = Returned tt)
    by (unfold makedirs; now rewrite Hmk).
  assert (Wmk : written (makedirs s output_dir) = [])
    by (unfold makedirs; now rewrite Hmk).
  pose proof (no_write_written _ (queue_prompt_no_write (client_id s)
                                    (http_post s) workflow)) as Wq.
  pose proof (no_write_written _ (wait_for_completion_no_write (socket s)
                                    (JStr id) timeout)) as Ww.
  assert (P : forall l, result_of (print l) = Returned tt) by reflexivity.
  assert (L : result_of (lift (Ok h)) = Returned h) by reflexivity.
  unfold generate_image. split.
  - rewrite (result_of_bind _ _ _ Mk), (result_of_bind _ _ _ (P _)),
      (result_of_bind _ _ _ Hq), (result_of_bind _ _ _ (P _)),
      (result_of_bind _ _ _ (P _)), (result_of_bind _ _ _ Hw), Hh,
      (result_of_bind _ _ _ L), Hs.
    reflexivity.
  - rewrite (written_bind _ _ _ Mk), (written_bind _ _ _ (P _)),
      (written_bind _ _ _ Hq), (written_bind _ _ _ (P _)),
      (written_bind _ _ _ (P _)), (written_bind _ _ _ Hw), Hh,
      (written_bind _ _ _ L), Hs, Wmk, Wq, Ww.
    reflexivity.
Qed.

(** C8.  After a submission and a wait that succeed, with a history
    response of the documented shape: when history holds no image for the
    job (the job is absent, or none of its nodes lists an image)
    [generate_image] returns the empty list and writes nothing; in general,
    when every fetch and every write succeeds, it writes one file per image
    reference, nodes in the order of the history response and images in
    their listed order, and returns the paths in that order. *)
Theorem C8_outputs_saved_in_history_order
    s workflow output_dir timeout id imgs h :
  makedirs_ok s output_dir = true ->
  result_of (queue_prompt (client_id s) (http_post s) workflow)
  = Returned (JStr id) ->
  result_of (wait_for_completion (socket s) (JStr id) timeout)
  = Returned imgs ->
  history s (JStr id) = Ok h ->
  history_ok id h ->
  let run := generate_image s workflow output_dir timeout in
  (history_images id h = [] -> result_of run = Returned [] /\ written run = [])
  /\ (forall files,
        artifacts s output_dir 0 (history_images id h) = Some files ->
        result_of run = Returned (map fst files) /\ written run = files).
Proof.
  intros Hmk Hq Hw Hh Hok run.
  assert (G : forall files,
             artifacts s output_dir 0 (history_images id h) = Some files ->
             result_of run = Returned (map fst files) /\ written run = files).
  { intros files Hf.
    destruct (save_outputs_run s output_dir id h files Hok Hf)
      as (evs & E & W).
    destruct (generate_image_run s workflow output_dir timeout id imgs h
                _ _ Hmk Hq Hw Hh E) as [R Wr].
    split; [exact R|now rewrite <- W]. }
  split; [|exact G].
  intros Hnone. apply (G []). now rewrite Hnone.
Qed.

Lemma C8_outputs_saved_in_history_order_witness :
  history_images "job" (JObj []) = []
  /\ result_of (generate_image Examples.no_image (JObj []) "output" 300)
     = Returned []
  /\ written (generate_image Examples.one_image (JObj []) "output" 300)
     = [("output/out_20260102_030405.png", [])].
Proof.
  destruct (C8_outputs_saved_in_history_order Examples.no_image (JObj [])
              "output" 300 "job" [] (JObj [])
              eq_refl eq_refl eq_refl eq_refl I) as [None _].
  destruct (C8_outputs_saved_in_history_order Examples.one_image (JObj [])
              "output" 300 "job" []
              (JObj [("job",
                      JObj [("outputs",
                             JObj [("9", JObj [("images",
                                                JArr [Examples.image_ref
                                                        "out.png"])])])])])
              eq_refl eq_refl eq_refl eq_refl) as [_ One].
  { simpl. repeat constructor. }
  split; [reflexivity|]. split.
  - now apply None.
  - now apply (One [("output/out_20260102_030405.png", [])]).
Defined.

End HistoryOrderClaim.

(** ** The receive loop *)

Section LoopFacts.

Import Client Spec.

Lemma py_eq_str (v : json) (s : string) :
  py_eq v (JStr s) = true -> v = JStr s.
Proof.
  destruct v; simpl; try discriminate.
  intros H. apply String.eqb_eq in H. now subst.
Qed.

Lemma py_getitem_obj (c : json) (k : string) (v : json) :
  py_getitem c (JStr k) = Ok v ->
  exists m, c = JObj m /\ assoc k m = Some v.
Proof.
  destruct c as [| | |s|l|m]; simpl; try discriminate.
  destruct (assoc k m) eqn:E; intros [= <-]. now exists m.
Qed.

(** A text message ends the loop only through the ['executing'] branch. *)
Lemma on_message_break pid message imgs evs :
  on_message pid message imgs = (evs, Returned Break) ->
  is_completion pid (TextFrame (Some message)) = true.
Proof.
  unfold on_message. intros H.
  apply bind_returned in H as (? & type & ? & Ht & H & _).
  apply lift_returned in Ht as [Ht _].
  apply py_getitem_obj in Ht as (m & -> & Ht).
  destruct (py_eq type (JStr "executing")) eqn:T.
  - apply bind_returned in H as (? & data & ? & Hd & H & _).
    apply lift_returned in Hd as [Hd _].
    apply py_getitem_obj in Hd as (m' & Em & Hd). injection Em as <-.
    apply bind_returned in H as (? & node & ? & Hn & H & _).
    apply lift_returned in Hn as [Hn _].
    apply py_getitem_obj in Hn as (d & -> & Hn).
    destruct node; cbn [is_none] in H; try discriminate.
    apply bind_returned in H as (? & id & ? & Hi & H & _).
    apply lift_returned in Hi as [Hi _].
    apply py_getitem_obj in Hi as (d' & Ed & Hi). injection Ed as <-.
    destruct (py_eq id pid) eqn:I; try discriminate.
    simpl. now rewrite Ht, Hd, T, Hn, Hi, I.
  - exfalso.
    destruct (py_eq type (JStr "progress")).
    { repeat (apply bind_returned in H as (? & ? & ? & _ & H & _)).
      discriminate. }
    destruct (py_eq type (JStr "executed")).
    { repeat (apply bind_returned in H as (? & ? & ? & _ & H & _)).
      discriminate. }
    discriminate.
Qed.

Lemma on_frame_completion pid f imgs :
  is_completion pid f = true ->
  on_frame pid f imgs = ([WsRecv], Returned Break).
Proof.
  unfold is_completion.
  destruct f as [[[| | | | |m]|]| |]; try discriminate.
  destruct (assoc "type" m) as [type|] eqn:Ht; try discriminate.
  destruct (assoc "data" m) as [[| | | | |d]|] eqn:Hd; try discriminate.
  destruct (py_eq type (JStr "executing")) eqn:T; try discriminate.
  destruct (assoc "node" d) as [[| | | | |]|] eqn:Hn; try discriminate.
  destruct (assoc "prompt_id" d) as [id|] eqn:Hi; try discriminate.
  simpl. intros I.
  unfold on_frame, on_message. simpl. rewrite Ht. simpl. rewrite T.
  rewrite Hd. simpl. rewrite Hn. simpl. rewrite Hi. simpl. now rewrite I.
Qed.

(** One turn of the loop ends it exactly for the completion signal. *)
Lemma on_frame_break_iff pid f imgs :
  result_of (on_frame pid f imgs) = Returned Break
  <-> is_completion pid f = true.
Proof.
  split.
  - destruct (on_frame pid f imgs) as [evs r] eqn:E. simpl. intros ->.
    destruct f as [parsed| |]; unfold on_frame in E; try discriminate.
    apply bind_returned in E as (? & ? & ? & _ & E & _).
    apply bind_returned in E as (? & message & ? & Hl & E & _).
    destruct parsed as [v|]; try discriminate. injection Hl as _ <-.
    eapply on_message_break; eassumption.
  - intros H. now rewrite (on_frame_completion _ _ _ H).
Qed.

Lemma passes_not_completion pid f d d' :
  passes pid f d = Some d' -> is_completion pid f = false.
Proof.
  unfold passes. intros H.
  destruct (is_completion pid f) eqn:E; auto.
  rewrite (on_frame_completion _ _ _ E) in H. discriminate.
Qed.

End LoopFacts.

Section LoopRuns.

Import Client Spec.
Local Open Scope Z_scope.

Lemma on_message_prints pid message imgs :
  only is_print (on_message pid message imgs).
Proof. unfold on_message, on_executed, print. only_tac. Qed.

Lemma received_prints (evs : list event) : Forall is_print evs -> received evs = 0%nat.
Proof.
  unfold received. induction 1 as [|e l He _ IH]; auto.
  destruct e; simpl in *; try contradiction. exact IH.
Qed.

Lemma received_app (a b : list event) :
  received (a ++ b) = (received a + received b)%nat.
Proof. unfold received. now rewrite filter_app, length_app. Qed.

(** A turn of the loop that goes through received one frame. *)
Lemma on_frame_received pid f imgs evs st :
  on_frame pid f imgs = (evs, Returned st) -> received evs = 1%nat.
Proof.
  destruct f as [parsed| |]; unfold on_frame.
  - intros H. apply bind_returned in H as (e1 & [] & e2 & H1 & H2 & ->).
    injection H1 as <-.
    apply bind_returned in H2 as (e3 & message & e4 & H3 & H4 & ->).
    destruct parsed as [v|]; try discriminate. injection H3 as <- <-.
    pose proof (on_message_prints pid v imgs) as P.
    unfold only in P. rewrite H4 in P. simpl in P.
    rewrite !received_app, (received_prints e4) by assumption.
    reflexivity.
  - intros [= <- _]. reflexivity.
  - discriminate.
Qed.

Lemma passes_run pid f d d' :
  passes pid f d = Some d' ->
  exists evs, on_frame pid f d = (evs, Returned (Continue d')).
Proof.
  unfold passes, result_of. destruct (on_frame pid f d) as [evs [[|d1]|e|]];
    simpl; try discriminate.
  intros [= ->]. now exists evs.
Qed.

Variables (now : nat -> Z) (pid : json) (timeout start : Z).

(** However the loop is left, it has read the clock once per turn and once
    more, the frames of the turns that went on were taken in without an
    error, and none of them was the completion signal. *)
Lemma wait_loop_returned fs : forall n imgs evs x n' d,
  wait_loop now pid timeout start n fs imgs = (evs, Returned (x, n', d)) ->
  exists k,
    n' = S (n + k) /\ (k <= length fs)%nat
    /\ handled pid (firstn k fs) imgs = Some d
    /\ (forall i, (i < k)%nat -> now (n + i)%nat - start < timeout)
    /\ match x with
       | ByCondition =>
           timeout <= now (n + k)%nat - start /\ received evs = k
       | ByBreak =>
           now (n + k)%nat - start < timeout /\ received evs = S k
           /\ exists f, nth_error fs k = Some f /\ is_completion pid f = true
       end.
Proof.
  induction fs as [|f fs' IH]; intros n imgs evs x n' d; cbn [wait_loop].
  - destruct (Z.ltb_spec (now n - start) timeout) as [Lt|Ge]; try discriminate.
    intros [= <- <- <- <-]. exists 0%nat. rewrite Nat.add_0_r.
    split; [reflexivity|]. split; [simpl; lia|]. split; [reflexivity|].
    split; [intros i Hi; lia|]. now split.
  - destruct (Z.ltb_spec (now n - start) timeout) as [Lt|Ge].
    + intros H. apply bind_returned in H as (e1 & st & e2 & H1 & H2 & ->).
      pose proof (on_frame_received _ _ _ _ _ H1) as R1.
      destruct st as [|d1].
      * injection H2 as <- <- <- <-. exists 0%nat. rewrite Nat.add_0_r.
        split; [reflexivity|]. split; [simpl; lia|]. split; [reflexivity|].
        split; [intros i Hi; lia|]. split; [assumption|].
        split; [now rewrite received_app, R1|].
        exists f. split; [reflexivity|].
        apply (on_frame_break_iff pid f imgs). now rewrite H1.
      * apply IH in H2 as (k & -> & Hk & Hh & Hb & Hx).
        exists (S k).
        split; [f_equal; lia|]. split; [simpl; lia|].
        split; [cbn [firstn handled]; unfold passes; now rewrite H1|].
        split.
        { intros [|i] Hi; [now rewrite Nat.add_0_r|].
          replace (n + S i)%nat with (S n + i)%nat by lia. apply Hb. lia. }
        rewrite received_app, R1.
        replace (n + S k)%nat with (S n + k)%nat by lia.
        destruct x.
        -- destruct Hx as (H3 & H4 & g & H5 & H6).
           split; [assumption|]. split; [now rewrite H4|]. now exists g.
        -- destruct Hx as (H3 & H4). split; [assumption|]. now rewrite H4.
    + intros [= <- <- <- <-]. exists 0%nat. rewrite Nat.add_0_r.
      split; [reflexivity|]. split; [simpl; lia|]. split; [reflexivity|].
      split; [intros i Hi; lia|]. now split.
Qed.

(** The loop is left through its condition at the first reading of the
    clock that exhausts the budget, when the frames before it were taken in
    without an error. *)
Lemma wait_loop_expires k : forall n fs imgs d,
  (k <= length fs)%nat ->
  handled pid (firstn k fs) imgs = Some d ->
  (forall i, (i < k)%nat -> now (n + i)%nat - start < timeout) ->
  timeout <= now (n + k)%nat - start ->
  result_of (wait_loop now pid timeout start n fs imgs)
  = Returned (ByCondition, S (n + k), d).
Proof.
  induction k as [|k IH]; intros n fs imgs d Hk Hh Hb Hx.
  - rewrite Nat.add_0_r in *. injection Hh as <-.
    destruct fs; cbn [wait_loop];
      destruct (Z.ltb_spec (now n - start) timeout); try lia; reflexivity.
  - destruct fs as [|f fs]; [simpl in Hk; lia|]. cbn [firstn handled] in Hh.
    destruct (passes pid f imgs) as [d1|] eqn:P; try discriminate.
    apply passes_run in P as (evs & P).
    cbn [wait_loop].
    destruct (Z.ltb_spec (now n - start) timeout) as [Lt|Ge].
    + rewrite (result_of_bind _ _ (Continue d1)) by now rewrite P.
      rewrite (IH (S n) fs d1 d); auto.
      * f_equal. f_equal. f_equal. lia.
      * simpl in Hk. lia.
      * intros i Hi. replace (S n + i)%nat with (n + S i)%nat by lia.
        apply Hb. lia.
      * now replace (S n + k)%nat with (n + S k)%nat by lia.
    + specialize (Hb 0%nat). rewrite Nat.add_0_r in Hb. lia.
Qed.

(** The loop is left by [break] at the completion signal, when the frames
    before it were taken in without an error and within the budget. *)
Lemma wait_loop_breaks k : forall n fs imgs d f,
  nth_error fs k = Some f ->
  is_completion pid f = true ->
  handled pid (firstn k fs) imgs = Some d ->
  (forall i, (i <= k)%nat -> now (n + i)%nat - start < timeout) ->
  result_of (wait_loop now pid timeout start n fs imgs)
  = Returned (ByBreak, S (n + k), d).
Proof.
  induction k as [|k IH]; intros n fs imgs d f Hn Hc Hh Hb.
  - destruct fs as [|g fs]; try discriminate. injection Hn as ->.
    injection Hh as <-. cbn [wait_loop].
    specialize (Hb 0%nat). rewrite Nat.add_0_r in *.
    destruct (Z.ltb_spec (now n - start) timeout); try lia.
    now rewrite (on_frame_completion _ _ _ Hc).
  - destruct fs as [|g fs]; try discriminate. simpl in Hn.
    cbn [firstn handled] in Hh.
    destruct (passes pid g imgs) as [d1|] eqn:P; try discriminate.
    apply passes_run in P as (evs & P).
    cbn [wait_loop].
    destruct (Z.ltb_spec (now n - start) timeout) as [Lt|Ge].
    + rewrite (result_of_bind _ _ (Continue d1)) by now rewrite P.
      rewrite (IH (S n) fs d1 d f); auto.
      * f_equal. f_equal. f_equal. lia.
      * intros i Hi. replace (S n + i)%nat with (n + S i)%nat by lia.
        apply Hb. lia.
    + specialize (Hb 0%nat). rewrite Nat.add_0_r in Hb. lia.
Qed.

End LoopRuns.

(** ** Errors of the receive loop *)

Section Raises.

Variable Q : exn -> Prop.

Lemma raises_ret {A} (a : A) : raises Q (ret a).
Proof. intros e; discriminate. Qed.

Lemma raises_emit (ev : event) : raises Q (emit ev).
Proof. intros e; discriminate. Qed.

Lemma raises_raise {A} (e : exn) : Q e -> raises Q (@raise A e).
Proof. intros H e' [= <-]. exact H. Qed.

Lemma raises_lift {A} (r : result A) :
  (forall e, r = Raise e -> Q e) -> raises Q (lift r).
Proof. destruct r; intros H e'; [discriminate|]. intros [= <-]. now apply H. Qed.

Lemma raises_bind {A B} (m : io A) (f : A -> io B) :
  raises Q m -> (forall a, raises Q (f a)) -> raises Q (bind m f).
Proof.
  unfold raises. destruct m as [evs [a|e|]]; simpl; intros H1 H2 e'.
  - specialize (H2 a e'). now destruct (f a).
  - intros [= <-]. now apply H1.
  - discriminate.
Qed.

Lemma raises_for_fold {A S} (l : list A) (body : S -> A -> io S) (s : S) :
  (forall s x, raises Q (body s x)) -> raises Q (for_fold l body s).
Proof.
  intros H. revert s. induction l as [|x l IH]; intros s; simpl.
  - apply raises_ret.
  - apply raises_bind; auto.
Qed.

End Raises.

Section LoopErrors.

Import Client.

Lemma py_getitem_error c k e : py_getitem c k = Raise e -> not_timeout e.
Proof.
  unfold py_getitem.
  repeat match goal with
         | |- context [match ?x with _ => _ end] => destruct x
         end; intros [= <-]; discriminate.
Qed.

Lemma py_in_error x c e : py_in x c = Raise e -> not_timeout e.
Proof.
  unfold py_in.
  repeat match goal with
         | |- context [match ?x with _ => _ end] => destruct x
         end; intros [= <-]; discriminate.
Qed.

Lemma py_iter_error c e : py_iter c = Raise e -> not_timeout e.
Proof. destruct c; intros [= <-]; discriminate. Qed.

Lemma py_get_error c k v e : py_get c k v = Raise e -> not_timeout e.
Proof. destruct c; intros [= <-]; discriminate. Qed.

Ltac raises_tac :=
  repeat first
    [ apply raises_ret | apply raises_emit
    | apply raises_raise; discriminate
    | apply raises_lift; first
        [ apply py_getitem_error | apply py_in_error | apply py_iter_error
        | apply py_get_error ]
    | apply raises_for_fold; intros
    | apply raises_bind; [|intros]
    | match goal with
      | |- raises _ (if ?b then _ else _) => destruct b
      | |- raises _ (match ?x with _ => _ end) => destruct x
      end ].

Lemma on_frame_errors pid f imgs : raises not_timeout (on_frame pid f imgs).
Proof.
  unfold on_frame, on_message, on_executed, loads, print. raises_tac.
Qed.

(** The loop itself never raises [TimeoutError]. *)
Lemma wait_loop_errors now pid timeout start n fs imgs :
  raises not_timeout (wait_loop now pid timeout start n fs imgs).
Proof.
  revert n imgs. induction fs as [|f fs IH]; intros n imgs; cbn [wait_loop].
  - destruct (_ <? _)%Z; [intros e; discriminate|apply raises_ret].
  - destruct (_ <? _)%Z; [|apply raises_ret].
    apply raises_bind; [apply on_frame_errors|intros [|d]]; auto.
    apply raises_ret.
Qed.

(** [wait_for_completion] from the way the loop ends. *)
Lemma wait_for_completion_cases c pid timeout evs r :
  connects c = true ->
  wait_loop (now c) pid timeout (now c 0) 1 (frames c) [] = (evs, r) ->
  wait_for_completion c pid timeout =
  match r with
  | Returned (_, n, d) =>
      (WsOpen :: evs ++ [WsClose],
       if (timeout <=? now c n - now c 0)%Z then Raised TimeoutError
       else Returned d)
  | Raised e => (WsOpen :: evs, Raised e)
  | Blocked => (WsOpen :: evs, Blocked)
  end.
Proof.
  intros C E. unfold wait_for_completion. rewrite C, E.
  destruct r as [[[x n] d]|e|]; simpl; auto.
  destruct (timeout <=? now c n - now c 0)%Z; reflexivity.
Qed.

Lemma ws_closed_at_end (evs : list event) :
  ws_open_after (evs ++ [WsClose]) = false.
Proof. unfold ws_open_after. now rewrite fold_left_app. Qed.

Lemma ws_open_in_loop (evs : list event) :
  Forall loop_event evs -> ws_open_after (WsOpen :: evs) = true.
Proof.
  intros H. unfold ws_open_after. simpl.
  assert (G : forall b,
             fold_left
               (fun o e =>
                  match e with WsOpen => true | WsClose => false | _ => o end)
               evs b = b).
  { induction H as [|e l He _ IH]; intros b; simpl; auto.
    destruct e; simpl in *; try contradiction; apply IH. }
  apply G.
Qed.

End LoopErrors.

(** ** [wait_for_completion]: the connection, the completion signal and the
    time budget *)

Section WaitClaims.

Import Client Spec Examples.
Local Open Scope Z_scope.

Lemma handled_no_completion pid fs : forall imgs d,
  handled pid fs imgs = Some d ->
  forall j g, nth_error fs j = Some g -> is_completion pid g = false.
Proof.
  induction fs as [|f fs IH]; intros imgs d H j g Hj.
  - now destruct j.
  - simpl in H. destruct (passes pid f imgs) as [d1|] eqn:P; try discriminate.
    destruct j as [|j]; simpl in Hj.
    + injection Hj as <-. eapply passes_not_completion; eassumption.
    + eapply IH; eassumption.
Qed.

Lemma nth_error_firstn_lt {A} (l : list A) (j k : nat) :
  (j < k)%nat -> nth_error (firstn k l) j = nth_error l j.
Proof.
  revert j k; induction l as [|x l IH]; intros [|j] [|k] H; simpl; auto;
    try lia.
  apply IH. lia.
Qed.

(** C1 fails as stated: a text frame that is not JSON makes [json.loads]
    raise inside the loop, and the error leaves [wait_for_completion] with
    the connection still open. *)
Lemma C1_left_open_by_malformed_frame :
  let run := wait_for_completion (ticking [TextFrame None]) job 300 in
  result_of run = Raised JSONDecodeError
  /\ events run = [WsOpen; WsRecv]
  /\ ws_open_after (events run) = true.
Proof. repeat split. Qed.

(** When the loop is left, by [break] or through its condition, the
    connection is closed next, whatever the clock then shows. *)
Lemma closed_after_the_loop c pid timeout evs x n d :
  connects c = true ->
  wait_loop (now c) pid timeout (now c 0) 1 (frames c) []
  = (evs, Returned (x, n, d)) ->
  let run := wait_for_completion c pid timeout in
  ws_open_after (events run) = false
  /\ exists evs, events run = WsOpen :: evs ++ [WsClose]
                 /\ Forall loop_event evs.
Proof.
  intros C E run. subst run.
  pose proof (wait_loop_events (now c) pid timeout (now c 0) 1 (frames c) [])
    as L.
  unfold only in L. rewrite E in L. simpl in L.
  rewrite (wait_for_completion_cases c pid timeout evs _ C E). simpl.
  split; [apply (ws_closed_at_end (WsOpen :: evs))|]. now exists evs.
Qed.

(** C1, amended.  When [wait_for_completion] returns, or fails with
    [TimeoutError], the connection it opened has been closed: closing is
    the last thing it did, after the loop, and the loop neither opened nor
    closed a connection. *)
Theorem C1_closed_after_the_loop c pid timeout :
  let run := wait_for_completion c pid timeout in
  (exists d, result_of run = Returned d) \/ result_of run = Raised TimeoutError ->
  ws_open_after (events run) = false
  /\ exists evs, events run = WsOpen :: evs ++ [WsClose]
                 /\ Forall loop_event evs.
Proof.
  intros run H.
  destruct (connects c) eqn:C.
  - destruct (wait_loop (now c) pid timeout (now c 0) 1 (frames c) [])
      as [evs r] eqn:E.
    destruct r as [[[x n] d]|e|].
    + exact (closed_after_the_loop c pid timeout evs x n d C E).
    + (* the loop raised: the error is not [TimeoutError], and the call
         raises it *)
      pose proof (wait_loop_errors (now c) pid timeout (now c 0) 1
                    (frames c) []) as R.
      unfold raises in R. rewrite E in R. simpl in R.
      subst run. rewrite (wait_for_completion_cases c pid timeout evs _ C E) in H.
      simpl in H. destruct H as [[d H]|H]; try discriminate.
      injection H as ->. now destruct (R TimeoutError eq_refl).
    + (* the loop is blocked in [recv]: the call does not end *)
      subst run. rewrite (wait_for_completion_cases c pid timeout evs _ C E) in H.
      simpl in H. destruct H as [[d H]|H]; discriminate.
  - (* no connection: [create_connection] raised *)
    subst run. unfold wait_for_completion in H. rewrite C in H.
    destruct H as [[d H]|H]; discriminate.
Qed.

Lemma C1_closed_after_the_loop_witness :
  result_of (wait_for_completion (ticking [executing JNull job]) job 300)
  = Returned []
  /\ ws_open_after
       (events (wait_for_completion (ticking [executing JNull job]) job 300))
     = false.
Proof.
  split; [reflexivity|].
  apply (C1_closed_after_the_loop (ticking [executing JNull job]) job 300).
  left. exists []. reflexivity.
Defined.

(** An error raised in the loop leaves the connection open. *)
Lemma open_after_loop_error c pid timeout e :
  connects c = true ->
  result_of (wait_for_completion c pid timeout) = Raised e ->
  e <> TimeoutError ->
  ws_open_after (events (wait_for_completion c pid timeout)) = true.
Proof.
  intros C H Ne.
  destruct (wait_loop (now c) pid timeout (now c 0) 1 (frames c) [])
    as [evs r] eqn:E.
  pose proof (wait_loop_events (now c) pid timeout (now c 0) 1 (frames c) [])
    as L.
  unfold only in L. rewrite E in L. simpl in L.
  rewrite (wait_for_completion_cases c pid timeout evs r C E) in *.
  destruct r as [[[x n] d]|e'|]; simpl in *; try discriminate.
  - destruct (timeout <=? now c n - now c 0); try discriminate.
    injection H as <-. contradiction.
  - now apply ws_open_in_loop.
Qed.

Lemma store_images_ok (r : result json) (node : json) (l : list json) :
  r = Ok node -> hashable node = true ->
  forall d,
    for_fold l
      (fun d image =>
         node <- lift r ;;
         if hashable node then ret (images_set node image d)
         else raise TypeError) d
    = ([], Returned (apply_refs (map (pair node) l) d)).
Proof.
  intros -> Hh. induction l as [|x l IH]; intros d; cbn [for_fold].
  - reflexivity.
  - cbv beta.
    assert (B : (node <- lift (Ok node) ;;
                 if hashable node then ret (images_set node x d)
                 else raise TypeError)
                = ([], Returned (images_set node x d))).
    { simpl. now rewrite Hh. }
    rewrite (bind_step _ _ _ _ B), IH. reflexivity.
Qed.

(** A frame of one of the shapes [goes_on] lists is taken in, and the
    loop goes on with the images of the frame stored. *)
Lemma on_frame_goes_on pid f imgs :
  goes_on pid f = true ->
  on_frame pid f imgs
  = (WsRecv :: map Print (More.progress_line f),
     Returned (Continue (apply_refs (executed_refs f) imgs))).
Proof.
  destruct f as [[[| | | | |m]|]| |]; try discriminate; [|reflexivity].
  unfold goes_on, executed_refs, More.progress_line, on_frame, on_message.
  simpl.
  destruct (assoc "type" m) as [type|]; [|discriminate]. simpl.
  destruct (py_eq type (JStr "executing")) eqn:T1.
  { apply py_eq_str in T1 as ->. simpl.
    destruct (assoc "data" m) as [[| | | | |d]|]; try discriminate.
    simpl.
    destruct (assoc "node" d) as [node|]; [|discriminate].
    destruct node; simpl; try reflexivity.
    destruct (assoc "prompt_id" d) as [id|]; [|discriminate]. simpl.
    destruct (py_eq id pid); [discriminate|reflexivity]. }
  destruct (py_eq type (JStr "progress")) eqn:T2.
  { destruct (assoc "data" m) as [[| | | | |d]|]; try discriminate.
    simpl.
    destruct (assoc "value" d) as [value|]; [|discriminate].
    destruct (assoc "max" d) as [max|]; [|discriminate]. simpl.
    apply py_eq_str in T2 as ->. reflexivity. }
  destruct (py_eq type (JStr "executed")) eqn:T3.
  { destruct (assoc "data" m) as [[| | | | |d]|]; try discriminate.
    unfold on_executed. simpl.
    destruct (assoc "output" d) as [[| | | | |o]|]; try discriminate;
      [|reflexivity].
    simpl.
    destruct (assoc "images" o) as [[| | | |l|]|]; try discriminate;
      [|reflexivity].
    simpl. destruct l as [|x l]; [intros _; now destruct (assoc "node" d)|].
    destruct (assoc "node" d) as [node|] eqn:Hn; [|discriminate].
    intros Hh.
    now rewrite (store_images_ok (Ok node) node (x :: l) eq_refl Hh). }
  intros _. now destruct (assoc "data" m) as [[]|].
Qed.

(** C3 fails as stated for a message that lacks what its branch reads.  An
    ['executed'] message whose output is [null], or a ['progress'] message
    without a value, raises: the loop ends there, and the call with it,
    before the completion signal that follows is received. *)
Lemma C3_malformed_message_ends_the_loop :
  let run f := wait_for_completion (ticking [f; executing JNull job]) job 300 in
  is_completion job (executed_without_output (JStr "9")) = false
  /\ result_of (run (executed_without_output (JStr "9"))) = Raised TypeError
  /\ received (events (run (executed_without_output (JStr "9")))) = 1%nat
  /\ result_of (run progress_without_value)
     = Raised (KeyError [Fmt (JStr "value")])
  /\ received (events (run progress_without_value)) = 1%nat.
Proof. repeat split; reflexivity. Qed.

(** C3, amended.  One turn of the loop ends it by [break] exactly when the
    frame received is the completion signal of the job; hence a loop left
    by [break] has received that signal as its last frame and none before
    it, and a loop that receives the signal within the budget is left
    there.  A binary frame and a text message of a type other than
    ['executing'], ['progress'] and ['executed'] are passed over: the loop
    goes on with the same images and nothing printed.  So is every
    ['executing'] message for a node or for another job; a ['progress']
    message that holds ['value'] and ['max'] prints its line and changes
    nothing else; an ['executed'] message of the documented shape has its
    images stored, and the loop goes on. *)
Theorem C3_loop_ends_exactly_at_completion now pid timeout start :
  (forall f imgs,
      result_of (on_frame pid f imgs) = Returned Break
      <-> is_completion pid f = true)
  /\ (forall n fs imgs evs n' d,
        wait_loop now pid timeout start n fs imgs
        = (evs, Returned (ByBreak, n', d)) ->
        exists k f,
          received evs = S k /\ nth_error fs k = Some f
          /\ is_completion pid f = true
          /\ forall j g, (j < k)%nat -> nth_error fs j = Some g ->
                         is_completion pid g = false)
  /\ (forall n fs imgs k f d,
        nth_error fs k = Some f -> is_completion pid f = true ->
        handled pid (firstn k fs) imgs = Some d ->
        (forall i, (i <= k)%nat -> now (n + i)%nat - start < timeout) ->
        result_of (wait_loop now pid timeout start n fs imgs)
        = Returned (ByBreak, S (n + k), d))
  /\ (forall f imgs,
        f = BinaryFrame
        \/ (exists type, message_type f = Some type
                         /\ py_eq type (JStr "executing") = false
                         /\ py_eq type (JStr "progress") = false
                         /\ py_eq type (JStr "executed") = false) ->
        on_frame pid f imgs = ([WsRecv], Returned (Continue imgs)))
  /\ (forall f imgs,
        goes_on pid f = true ->
        on_frame pid f imgs
        = (WsRecv :: map Print (More.progress_line f),
           Returned (Continue (apply_refs (executed_refs f) imgs)))
        /\ (forall type, message_type f = Some type ->
                         py_eq type (JStr "executed") = false ->
                         apply_refs (executed_refs f) imgs = imgs)).
Proof.
  split; [apply on_frame_break_iff|]. split; [|split; [|split]].
  - intros n fs imgs evs n' d H.
    apply wait_loop_returned in H as (k & _ & _ & Hh & _ & _ & Hr & f & Hf & Hc).
    exists k, f. repeat split; auto.
    intros j g Hj Hg. apply (handled_no_completion _ _ _ _ Hh j g).
    now rewrite nth_error_firstn_lt.
  - intros n fs imgs k f d. apply wait_loop_breaks.
  - intros f imgs [->|(type & Ht & T1 & T2 & T3)]; [reflexivity|].
    unfold message_type in Ht.
    destruct f as [[[| | | | |m]|]| |]; try discriminate.
    unfold on_frame, on_message. simpl. rewrite Ht. simpl.
    now rewrite T1, T2, T3.
  - intros f imgs G. split; [now apply on_frame_goes_on|].
    intros type Ht T. unfold message_type in Ht. unfold executed_refs.
    destruct f as [[[| | | | |m]|]| |]; try discriminate.
    rewrite Ht, T. now destruct (assoc "data" m).
Qed.

Lemma C3_loop_ends_exactly_at_completion_witness :
  is_completion job (executing JNull job) = true
  /\ result_of (on_frame job (executing JNull job) []) = Returned Break
  /\ on_frame job (progress 3 20) []
     = (WsRecv :: map Print (More.progress_line (progress 3 20)),
        Returned (Continue []))
  /\ on_frame job (executed (JStr "9") [image_ref "out.png"]) []
     = ([WsRecv], Returned (Continue [(JStr "9", image_ref "out.png")]))
  /\ result_of
       (wait_loop (fun n => Z.of_nat n) job 300 0 1
          [progress 3 20; BinaryFrame; executing JNull job] [])
     = Returned (ByBreak, 4%nat, []).
Proof.
  pose proof (C3_loop_ends_exactly_at_completion
                (fun n => Z.of_nat n) job 300 0) as (H1 & _ & H3 & _ & H5).
  split; [reflexivity|]. split; [now apply H1|]. split; [|split].
  - now apply (H5 (progress 3 20) []).
  - now apply (H5 (executed (JStr "9") [image_ref "out.png"]) []).
  - apply (H3 1%nat _ [] 2%nat (executing JNull job) []);
      try reflexivity.
    intros i Hi. simpl. lia.
Defined.

(** C4 fails as stated: on a channel that delivers nothing, [recv] never
    returns, the clock is not read again and no [TimeoutError] is raised,
    whatever the budget; the connection stays open. *)
Lemma C4_silent_channel_never_times_out :
  let run := wait_for_completion (ticking []) job 300 in
  result_of run = Blocked /\ events run = [WsOpen].
Proof. split; reflexivity. Qed.

(** C4, amended.  With a clock that does not go back: when the first [k]
    frames are taken in without an error, none of them the completion
    signal, each received within the budget, and the clock read after the
    [k]-th shows the budget exhausted, [wait_for_completion] fails with
    [TimeoutError], and closing the connection is the last thing it did. *)
Theorem C4_timeout_after_the_deadline c pid timeout k d :
  connects c = true ->
  (forall n, now c n <= now c (S n)) ->
  (k <= length (frames c))%nat ->
  handled pid (firstn k (frames c)) [] = Some d ->
  (forall i, (1 <= i <= k)%nat -> now c i - now c 0 < timeout) ->
  timeout <= now c (S k) - now c 0 ->
  let run := wait_for_completion c pid timeout in
  result_of run = Raised TimeoutError
  /\ ws_open_after (events run) = false
  /\ exists evs, events run = WsOpen :: evs ++ [WsClose]
                 /\ Forall loop_event evs.
Proof.
  intros C Mono Hk Hh Hb Hx run.
  destruct (wait_loop (now c) pid timeout (now c 0) 1 (frames c) [])
    as [evs r] eqn:E.
  assert (X : r = Returned (ByCondition, S (S k), d)).
  { pose proof (wait_loop_expires (now c) pid timeout (now c 0) k 1
                  (frames c) [] d Hk Hh) as X.
    rewrite E in X. apply X; [|exact Hx].
    intros i Hi. apply Hb. lia. }
  subst r. split.
  - subst run. rewrite (wait_for_completion_cases c pid timeout evs _ C E).
    simpl. pose proof (Mono (S k)).
    destruct (Z.leb_spec timeout (now c (S (S k)) - now c 0)); auto. lia.
  - exact (closed_after_the_loop c pid timeout evs _ _ d C E).
Qed.

Lemma C4_timeout_after_the_deadline_witness :
  handled job (firstn 2 [progress 1 20; BinaryFrame; progress 2 20]) []
  = Some []
  /\ result_of
       (wait_for_completion
          (ticking [progress 1 20; BinaryFrame; progress 2 20]) job 3)
     = Raised TimeoutError.
Proof.
  split; [reflexivity|].
  apply (C4_timeout_after_the_deadline
           (ticking [progress 1 20; BinaryFrame; progress 2 20]) job 3
           2%nat []).
  - reflexivity.
  - intros n. simpl. lia.
  - simpl. lia.
  - reflexivity.
  - intros i Hi. simpl. lia.
  - simpl. lia.
Defined.

(** C9.  When the completion signal is received (the loop is left by
    [break]) but the clock read after the loop shows the budget exhausted,
    [wait_for_completion] closes the connection and raises [TimeoutError]:
    the images gathered are not returned. *)
Theorem C9_timeout_despite_completion c pid timeout k f d :
  connects c = true ->
  nth_error (frames c) k = Some f ->
  is_completion pid f = true ->
  handled pid (firstn k (frames c)) [] = Some d ->
  (forall i, (1 <= i <= S k)%nat -> now c i - now c 0 < timeout) ->
  timeout <= now c (S (S k)) - now c 0 ->
  result_of (wait_loop (now c) pid timeout (now c 0) 1 (frames c) [])
  = Returned (ByBreak, S (S k), d)
  /\ result_of (wait_for_completion c pid timeout) = Raised TimeoutError.
Proof.
  intros C Hf Hc Hh Hb Hx.
  assert (B : result_of (wait_loop (now c) pid timeout (now c 0) 1 (frames c) [])
              = Returned (ByBreak, S (S k), d)).
  { apply (wait_loop_breaks (now c) pid timeout (now c 0) k 1 (frames c) [] d f);
      auto.
    intros i Hi. apply Hb. lia. }
  split; [exact B|].
  destruct (wait_loop (now c) pid timeout (now c 0) 1 (frames c) [])
    as [evs r] eqn:E.
  simpl in B. subst r.
  rewrite (wait_for_completion_cases c pid timeout evs _ C E). simpl.
  destruct (Z.leb_spec timeout (now c (S (S k)) - now c 0)); auto. lia.
Qed.

(** The same run with the clock still within the budget after the loop
    returns the images. *)
Lemma completion_in_time_returns c pid timeout k f d :
  connects c = true ->
  nth_error (frames c) k = Some f ->
  is_completion pid f = true ->
  handled pid (firstn k (frames c)) [] = Some d ->
  (forall i, (1 <= i <= S (S k))%nat -> now c i - now c 0 < timeout) ->
  result_of (wait_for_completion c pid timeout) = Returned d.
Proof.
  intros C Hf Hc Hh Hb.
  pose proof (wait_loop_breaks (now c) pid timeout (now c 0) k 1 (frames c)
                [] d f Hf Hc Hh) as B.
  destruct (wait_loop (now c) pid timeout (now c 0) 1 (frames c) [])
    as [evs r] eqn:E.
  simpl in B. rewrite B in E by (intros i Hi; apply Hb; lia).
  rewrite (wait_for_completion_cases c pid timeout evs _ C E). simpl.
  specialize (Hb (S (S k))).
  destruct (Z.leb_spec timeout (now c (S (S k)) - now c 0)); auto. lia.
Qed.

Lemma C9_timeout_despite_completion_witness :
  is_completion job (executing JNull job) = true
  /\ result_of (wait_for_completion late_completion job 300)
     = Raised TimeoutError.
Proof.
  split; [reflexivity|].
  apply (C9_timeout_despite_completion late_completion job 300 0%nat
           (executing JNull job) []).
  - reflexivity.
  - reflexivity.
  - reflexivity.
  - reflexivity.
  - intros i Hi. assert (i = 1%nat) as -> by lia. reflexivity.
  - simpl. lia.
Defined.

End WaitClaims.

(** ** The table of images *)

Section ImagesFacts.

Import Client Spec.

Lemma py_eq_hashable (a b : json) :
  hashable a = true -> py_eq a b = true -> hashable b = true.
Proof. destruct a, b; simpl; auto; discriminate. Qed.

Lemma py_eq_sym (a b : json) :
  hashable a = true -> py_eq a b = py_eq b a.
Proof.
  destruct a, b; simpl; intros H; try discriminate H; try reflexivity;
    try apply Z.eqb_sym; try apply String.eqb_sym.
  repeat match goal with x : bool |- _ => destruct x end; reflexivity.
Qed.

Lemma Z_of_bool_eqb (x y : bool) :
  Z.eqb (Z_of_bool x) (Z_of_bool y) = Bool.eqb x y.
Proof. now destruct x, y. Qed.

Lemma py_eq_trans (a b c : json) :
  hashable a = true -> py_eq a b = true -> py_eq a c = py_eq b c.
Proof.
  destruct a, b; simpl; try discriminate; intros _ H;
    try apply Z.eqb_eq in H; try apply String.eqb_eq in H;
    try apply Bool.eqb_prop in H; subst; auto;
    destruct c; simpl; auto using Z_of_bool_eqb;
    symmetry; apply Z_of_bool_eqb.
Qed.

Lemma images_get_set k k' v d :
  hashable k' = true -> keys_hashable d ->
  images_get k (images_set k' v d)
  = if py_eq k' k then Some v else images_get k d.
Proof.
  intros Hk. induction 1 as [|[k0 v0] d Hk0 _ IH]; simpl in *.
  - reflexivity.
  - destruct (py_eq k0 k') eqn:E; simpl.
    + rewrite (py_eq_trans k0 k' k Hk0 E). now destruct (py_eq k' k).
    + rewrite IH. destruct (py_eq k0 k) eqn:E0; auto.
      destruct (py_eq k' k) eqn:E1; auto.
      assert (py_eq k0 k' = true); [|congruence].
      rewrite (py_eq_trans k0 k k' Hk0 E0).
      rewrite py_eq_sym by (eapply py_eq_hashable; eassumption).
      exact E1.
Qed.

Lemma images_set_hashable k v d :
  hashable k = true -> keys_hashable d -> keys_hashable (images_set k v d).
Proof.
  intros Hk. induction 1 as [|[k0 v0] d Hk0 Hd IH]; simpl in *.
  - repeat constructor. exact Hk.
  - destruct (py_eq k0 k); constructor; auto.
Qed.

Lemma images_set_unique k v d :
  hashable k = true -> keys_hashable d -> unique_keys d ->
  unique_keys (images_set k v d).
Proof.
  intros Hk Hd. induction Hd as [|[k0 v0] d Hk0 Hd IH]; simpl in *.
  - auto.
  - intros [Hn Hu]. destruct (py_eq k0 k) eqn:E; simpl.
    + now split.
    + split; [|now apply IH].
      rewrite images_get_set by assumption.
      rewrite py_eq_sym, E by assumption. exact Hn.
Qed.

Lemma apply_refs_spec refs : forall d,
  keys_hashable refs -> keys_hashable d ->
  (forall k, images_get k (apply_refs refs d)
             = match last_ref k refs with
               | Some v => Some v
               | None => images_get k d
               end)
  /\ keys_hashable (apply_refs refs d)
  /\ (unique_keys d -> unique_keys (apply_refs refs d)).
Proof.
  induction refs as [|[n v] refs IH]; intros d Hr Hd.
  - now repeat split.
  - inversion Hr as [|? ? Hn Hr']; subst. simpl in Hn.
    destruct (IH (images_set n v d) Hr' (images_set_hashable n v d Hn Hd))
      as (G & H & U).
    repeat split.
    + intros k. cbn [apply_refs fold_left fst snd last_ref].
      fold (apply_refs refs (images_set n v d)). rewrite G.
      destruct (last_ref k refs); auto.
      rewrite images_get_set by assumption. now destruct (py_eq n k).
    + exact H.
    + intros Hu. apply U. now apply images_set_unique.
Qed.

Lemma apply_refs_app a b d :
  apply_refs (a ++ b) d = apply_refs b (apply_refs a d).
Proof. apply fold_left_app. Qed.

End ImagesFacts.

(** ** [wait_for_completion]: the images gathered *)

Section GatheredImages.

Import Client Spec Examples.

Lemma store_images_run (data : json) l : forall d evs d',
  for_fold l
    (fun d image =>
       node <- lift (py_getitem data (JStr "node")) ;;
       if hashable node then ret (images_set node image d)
       else raise TypeError) d
  = (evs, Returned d') ->
  (l = [] /\ d' = d)
  \/ exists node,
       py_getitem data (JStr "node") = Ok node /\ hashable node = true
       /\ d' = apply_refs (map (pair node) l) d.
Proof.
  induction l as [|x l IH]; intros d evs d'; cbn [for_fold].
  - intros [= _ <-]. now left.
  - intros H. apply bind_returned in H as (e1 & d1 & e2 & H1 & H2 & _).
    apply bind_returned in H1 as (e3 & node & e4 & Hn & H1 & _).
    apply lift_returned in Hn as [Hn _].
    destruct (hashable node) eqn:Hh; try discriminate.
    injection H1 as _ <-. right. exists node. repeat split; auto.
    apply IH in H2 as [[-> ->]|(node' & Hn' & _ & ->)]; [reflexivity|].
    rewrite Hn in Hn'. now injection Hn' as <-.
Qed.

Lemma keys_hashable_pairs (node : json) (l : list json) :
  hashable node = true -> keys_hashable (map (pair node) l).
Proof.
  intros H. unfold keys_hashable. induction l; simpl; constructor; auto.
Qed.

Lemma py_in_obj (k : string) (m : list (string * json)) (b : bool) :
  py_in (JStr k) (JObj m) = Ok b ->
  b = match assoc k m with Some _ => true | None => false end.
Proof. simpl. now intros [= <-]. Qed.

Lemma on_executed_refs data d evs d' :
  on_executed data d = (evs, Returned d') ->
  d' = apply_refs (data_refs data) d /\ keys_hashable (data_refs data).
Proof.
  unfold on_executed. intros H.
  apply bind_returned in H as (? & has_output & ? & Ho & H & _).
  apply lift_returned in Ho as [Ho _].
  destruct has_output.
  - apply bind_returned in H as (? & output & ? & Hg & H & _).
    apply lift_returned in Hg as [Hg _].
    apply py_getitem_obj in Hg as (d0 & -> & Hg).
    apply bind_returned in H as (? & has_images & ? & Hi & H & _).
    apply lift_returned in Hi as [Hi _].
    unfold data_refs. rewrite Hg.
    destruct has_images.
    + apply bind_returned in H as (? & imgs & ? & Hm & H & _).
      apply lift_returned in Hm as [Hm _].
      apply py_getitem_obj in Hm as (o & -> & Hm). rewrite Hm.
      apply bind_returned in H as (? & l & ? & Hl & H & _).
      apply lift_returned in Hl as [Hl _]. rewrite Hl.
      apply store_images_run in H as [[-> ->]|(node & Hn & Hh & ->)].
      * destruct (assoc "node" d0); simpl; split; auto; constructor.
      * apply py_getitem_obj in Hn as (d1 & [= <-] & Hn). rewrite Hn.
        split; [reflexivity|]. now apply keys_hashable_pairs.
    + injection H as _ <-.
      destruct output as [| | | | |o]; try (split; [reflexivity|constructor]).
      apply py_in_obj in Hi. destruct (assoc "images" o); try discriminate.
      split; [reflexivity|constructor].
  - injection H as _ <-. unfold data_refs.
    destruct data as [| | | | |d0]; try (split; [reflexivity|constructor]).
    apply py_in_obj in Ho. destruct (assoc "output" d0); try discriminate.
    split; [reflexivity|constructor].
Qed.

Lemma on_message_refs pid message d evs d' :
  on_message pid message d = (evs, Returned (Continue d')) ->
  d' = apply_refs (executed_refs (TextFrame (Some message))) d
  /\ keys_hashable (executed_refs (TextFrame (Some message))).
Proof.
  unfold on_message. intros H.
  apply bind_returned in H as (? & type & ? & Ht & H & _).
  apply lift_returned in Ht as [Ht _].
  apply py_getitem_obj in Ht as (m & -> & Ht).
  unfold executed_refs. rewrite Ht.
  destruct (py_eq type (JStr "executing")) eqn:T1.
  - apply py_eq_str in T1 as ->. simpl py_eq. cbv iota.
    assert (d' = d) as ->.
    { apply bind_returned in H as (? & data & ? & _ & H & _).
      apply bind_returned in H as (? & node & ? & _ & H & _).
      destruct (is_none node); [|now injection H as _ <-].
      apply bind_returned in H as (? & id & ? & _ & H & _).
      destruct (py_eq id pid); [discriminate|now injection H as _ <-]. }
    destruct (assoc "data" m); split; try reflexivity; constructor.
  - destruct (py_eq type (JStr "progress")) eqn:T2.
    + apply py_eq_str in T2 as ->. simpl py_eq. cbv iota.
      repeat (apply bind_returned in H as (? & ? & ? & _ & H & _)).
      injection H as _ <-.
      destruct (assoc "data" m); split; try reflexivity; constructor.
    + destruct (py_eq type (JStr "executed")) eqn:T3.
      * apply bind_returned in H as (? & data & ? & Hd & H & _).
        apply lift_returned in Hd as [Hd _].
        apply py_getitem_obj in Hd as (m' & [= <-] & Hd). rewrite Hd.
        apply bind_returned in H as (? & d1 & ? & He & H & _).
        injection H as _ <-. eapply on_executed_refs; eassumption.
      * injection H as _ <-.
        destruct (assoc "data" m); split; try reflexivity; constructor.
Qed.

Lemma passes_refs pid f d d' :
  passes pid f d = Some d' ->
  d' = apply_refs (executed_refs f) d /\ keys_hashable (executed_refs f).
Proof.
  intros H. apply passes_run in H as (evs & H).
  destruct f as [parsed| |]; unfold on_frame in H.
  - apply bind_returned in H as (? & ? & ? & _ & H & _).
    apply bind_returned in H as (? & message & ? & Hl & H & _).
    destruct parsed as [v|]; try discriminate. injection Hl as _ <-.
    eapply on_message_refs; eassumption.
  - injection H as _ <-. split; [reflexivity|constructor].
  - discriminate.
Qed.

Lemma handled_refs pid fs : forall d d',
  handled pid fs d = Some d' ->
  d' = apply_refs (flat_map executed_refs fs) d
  /\ keys_hashable (flat_map executed_refs fs).
Proof.
  induction fs as [|f fs IH]; intros d d'; cbn [handled flat_map].
  - intros [= <-]. split; [reflexivity|constructor].
  - destruct (passes pid f d) as [d1|] eqn:P; try discriminate.
    apply passes_refs in P as [-> K1]. intros H.
    apply IH in H as [-> K2]. split.
    + now rewrite apply_refs_app.
    + apply Forall_app. now split.
Qed.

Lemma completion_no_refs pid f :
  is_completion pid f = true -> executed_refs f = [].
Proof.
  unfold is_completion, executed_refs.
  destruct f as [[[| | | | |m]|]| |]; auto.
  destruct (assoc "type" m) as [type|]; auto.
  destruct (assoc "data" m) as [[| | | | |d]|]; try discriminate.
  destruct (py_eq type (JStr "executing")) eqn:T; try discriminate.
  apply py_eq_str in T as ->. reflexivity.
Qed.

Lemma firstn_succ_nth {A} (l : list A) (k : nat) (x : A) :
  nth_error l k = Some x -> firstn (S k) l = firstn k l ++ [x].
Proof.
  revert k; induction l as [|a l IH]; intros [|k] H; simpl in *;
    try discriminate.
  - now injection H as ->.
  - now rewrite <- (IH k H).
Qed.

(** What the loop has gathered when it is left, from the frames it
    received. *)
Lemma wait_loop_gathers now pid timeout start fs evs x n' d :
  wait_loop now pid timeout start 1 fs [] = (evs, Returned (x, n', d)) ->
  d = apply_refs (flat_map executed_refs (firstn (received evs) fs)) []
  /\ keys_hashable (flat_map executed_refs (firstn (received evs) fs)).
Proof.
  intros H.
  apply wait_loop_returned in H as (k & _ & _ & Hh & _ & Hx).
  apply handled_refs in Hh as [Hd Hk].
  destruct x.
  - destruct Hx as (_ & -> & f & Hf & Hc).
    rewrite (firstn_succ_nth _ _ _ Hf), flat_map_app. simpl.
    rewrite (completion_no_refs _ _ Hc), !app_nil_r. now split.
  - destruct Hx as (_ & ->). now split.
Qed.

(** C2 fails as stated: two ['executed'] events for node 9, each with
    one image, leave a single entry in the returned table, and it is the
    reference seen last, not the one seen first. *)
Lemma C2_later_reference_replaces_first :
  let fs := [executed (JStr "9") [image_ref "a.png"];
             executed (JStr "9") [image_ref "b.png"];
             executing JNull job] in
  result_of (wait_for_completion (ticking fs) job 300)
  = Returned [(JStr "9", image_ref "b.png")]
  /\ first_ref (JStr "9") (flat_map executed_refs fs)
     = Some (image_ref "a.png")
  /\ image_ref "a.png" <> image_ref "b.png".
Proof. repeat split. discriminate. Qed.

(** C2, amended.  The table [wait_for_completion] returns has at most one
    entry per node, and the entry of a node is the last image reference
    among those of the ['executed'] events received for that node, events
    in the order received and images in their listed order; a node without
    such a reference has no entry. *)
Theorem C2_last_reference_per_node c pid timeout d :
  let run := wait_for_completion c pid timeout in
  result_of run = Returned d ->
  let consumed := firstn (received (events run)) (frames c) in
  unique_keys d
  /\ forall node,
       images_get node d = last_ref node (flat_map executed_refs consumed).
Proof.
  intros run H consumed. subst run consumed.
  destruct (connects c) eqn:C;
    [|unfold wait_for_completion in H; rewrite C in H; discriminate].
  destruct (wait_loop (now c) pid timeout (now c 0) 1 (frames c) [])
    as [evs r] eqn:E.
  rewrite (wait_for_completion_cases c pid timeout evs r C E) in *.
  destruct r as [[[x n] d0]|e|]; simpl in H; try discriminate.
  destruct (timeout <=? now c n - now c 0)%Z; try discriminate.
  injection H as ->. simpl events.
  change (WsOpen :: evs ++ [WsClose]) with ([WsOpen] ++ evs ++ [WsClose]).
  rewrite !received_app. change (received [WsOpen]) with 0%nat.
  change (received [WsClose]) with 0%nat. rewrite Nat.add_0_r. simpl plus.
  apply wait_loop_gathers in E as [-> K].
  destruct (apply_refs_spec _ [] K (Forall_nil _)) as (G & _ & U).
  split; [now apply U|].
  intros node. rewrite G. now destruct (last_ref node _).
Qed.

Lemma C2_last_reference_per_node_witness :
  let fs := [executed (JStr "9") [image_ref "a.png"; image_ref "b.png"];
             executed (JStr "7") [image_ref "c.png"];
             executing JNull job] in
  result_of (wait_for_completion (ticking fs) job 300)
  = Returned [(JStr "9", image_ref "b.png"); (JStr "7", image_ref "c.png")]
  /\ images_get (JStr "9")
       [(JStr "9", image_ref "b.png"); (JStr "7", image_ref "c.png")]
     = last_ref (JStr "9") (flat_map executed_refs fs).
Proof.
  intros fs. split; [reflexivity|].
  apply (C2_last_reference_per_node (ticking fs) job 300
           [(JStr "9", image_ref "b.png"); (JStr "7", image_ref "c.png")]
           eq_refl).
Defined.

End GatheredImages.

(** ** The patch helpers *)

Section PatchClaims.

Import Patch Spec.

Lemma patch_image_absent client path node_id wf :
  has_node node_id wf = false -> patch_image client path node_id wf = ret wf.
Proof. unfold patch_image. intros ->. now destruct (given path). Qed.

(** C5.  On a workflow that lacks the node a helper targets, each helper
    returns the workflow as it is, without an error, an upload or a line of
    output; [update_workflow_images] skips each of its three nodes that is
    absent. *)
Theorem C5_absent_node_is_skipped (wf : workflow) :
  (forall client image_path node_id,
      has_node node_id wf = false ->
      update_workflow_image wf client image_path node_id = ret wf)
  /\ (forall client image_path node_id,
        has_node node_id wf = false ->
        patch_image client image_path node_id wf = ret wf)
  /\ (forall client image1_path image2_path image3_path,
        has_node "78" wf = false -> has_node "106" wf = false ->
        has_node "108" wf = false ->
        update_workflow_images wf client image1_path image2_path image3_path
        = ret wf)
  /\ (forall prompt,
        has_node "111" wf = false -> update_workflow_prompt wf prompt = ret wf)
  /\ (forall lora_name node_id,
        has_node node_id wf = false ->
        update_workflow_lora wf lora_name node_id = ret wf)
  /\ (forall seed node_id random_seed,
        has_node node_id wf = false ->
        update_workflow_seed wf seed node_id random_seed = ret wf).
Proof.
  repeat split.
  - intros client path node_id H. unfold update_workflow_image.
    rewrite H. now destruct (given path).
  - intros. now apply patch_image_absent.
  - intros client p1 p2 p3 H1 H2 H3. unfold update_workflow_images.
    rewrite (patch_image_absent _ _ _ _ H1). simpl.
    rewrite (patch_image_absent _ _ _ _ H2). simpl.
    now rewrite (patch_image_absent _ _ _ _ H3).
  - intros prompt H. unfold update_workflow_prompt. now rewrite H.
  - intros name node_id H. unfold update_workflow_lora. rewrite H.
    now destruct (given name).
  - intros seed node_id rnd H. unfold update_workflow_seed. rewrite H.
    now destruct seed.
Qed.

(** The scenario of the specification: node 1 gets the new image. *)
Example image_is_patched :
  result_of
    (update_workflow_image
       [("1", JObj [("inputs", JObj [("image", JStr "old.png")])])]
       None (Some "cat.png") "1")
  = Returned [("1", JObj [("inputs", JObj [("image", JStr "cat.png")])])].
Proof. reflexivity. Qed.

Lemma C5_absent_node_is_skipped_witness :
  let wf := [("1", JObj [("inputs", JObj [("image", JStr "old.png")])])] in
  has_node "111" wf = false
  /\ update_workflow_prompt wf "a cat" = ret wf
  /\ update_workflow_seed wf (Some 7%Z) "3" 0%Z = ret wf.
Proof.
  intros wf.
  pose proof (C5_absent_node_is_skipped wf) as (_ & _ & _ & Hp & _ & Hs).
  split; [reflexivity|]. split.
  - apply Hp. reflexivity.
  - apply Hs. reflexivity.
Defined.

Lemma assoc_set_absent k v m :
  assoc k m = None -> assoc_set k v m = m ++ [(k, v)].
Proof.
  induction m as [|[k' v'] m IH]; simpl; auto.
  destruct (String.eqb k k'); [discriminate|]. intros H. now rewrite IH.
Qed.

Lemma has_node_present node_id wf v :
  assoc node_id wf = Some v -> has_node node_id wf = true.
Proof. unfold has_node. now intros ->. Qed.

Lemma set_input_no_inputs wf node_id record field value :
  assoc node_id wf = Some (JObj record) ->
  assoc "inputs" record = None ->
  set_input wf node_id field value = Raise (KeyError [Fmt (JStr "inputs")]).
Proof.
  intros Hn Hi. unfold set_input, node. simpl. rewrite Hn. simpl.
  now rewrite Hi.
Qed.

Lemma set_input_new_field wf node_id record inputs field value :
  assoc node_id wf = Some (JObj record) ->
  assoc "inputs" record = Some (JObj inputs) ->
  assoc field inputs = None ->
  set_input wf node_id field value
  = Ok (with_new_input wf node_id record inputs field value).
Proof.
  intros Hn Hi Hf. unfold set_input, node, with_new_input. simpl.
  rewrite Hn. simpl. rewrite Hi. simpl. now rewrite (assoc_set_absent _ _ _ Hf).
Qed.

Lemma has_input_no_inputs wf node_id record field :
  assoc node_id wf = Some (JObj record) ->
  assoc "inputs" record = None ->
  has_input wf node_id field = Ok false.
Proof.
  intros Hn Hi. unfold has_input, node. simpl. rewrite Hn. simpl.
  now rewrite Hi.
Qed.

Lemma has_input_no_field wf node_id record inputs field :
  assoc node_id wf = Some (JObj record) ->
  assoc "inputs" record = Some (JObj inputs) ->
  assoc field inputs = None ->
  has_input wf node_id field = Ok false.
Proof.
  intros Hn Hi Hf. unfold has_input, node. simpl. rewrite Hn. simpl.
  rewrite Hi. simpl. now rewrite Hf.
Qed.

Lemma lora_unchecked wf name node_id :
  has_input wf node_id "lora_name" = Ok false ->
  update_workflow_lora wf name node_id = ret wf.
Proof.
  intros H. unfold update_workflow_lora. rewrite H.
  destruct (given name); auto. now destruct (has_node node_id wf).
Qed.

Lemma seed_unchecked wf seed node_id random_seed :
  has_input wf node_id "seed" = Ok false ->
  update_workflow_seed wf seed node_id random_seed = ret wf.
Proof.
  intros H. unfold update_workflow_seed. rewrite H.
  destruct seed; now destruct (has_node node_id wf).
Qed.

(** C10 fails as stated for a node whose inputs lack only the targeted
    field: the prompt patcher and the image patcher raise no error there,
    the assignment adds the field. *)
Lemma C10_missing_field_is_added :
  let wf := [("111", JObj [("inputs", JObj [])]);
             ("1", JObj [("inputs", JObj [])])] in
  update_workflow_prompt wf "a cat"
  = ret [("111", JObj [("inputs", JObj [("prompt", JStr "a cat")])]);
         ("1", JObj [("inputs", JObj [])])]
  /\ result_of (update_workflow_image wf None (Some "in/cat.png") "1")
     = Returned [("111", JObj [("inputs", JObj [])]);
                 ("1", JObj [("inputs", JObj [("image", JStr "cat.png")])])].
Proof. split; reflexivity. Qed.

Lemma set_input_scalar wf node_id record v field value :
  assoc node_id wf = Some (JObj record) ->
  assoc "inputs" record = Some v -> is_scalar v = true ->
  set_input wf node_id field value = Raise TypeError.
Proof.
  intros Hn Hi Hs. unfold set_input, node. simpl. rewrite Hn. simpl.
  rewrite Hi. now destruct v.
Qed.

Lemma has_input_scalar wf node_id record v field :
  assoc node_id wf = Some (JObj record) ->
  assoc "inputs" record = Some v -> is_scalar v = true ->
  has_input wf node_id field = Raise TypeError.
Proof.
  intros Hn Hi Hs. unfold has_input, node. simpl. rewrite Hn. simpl.
  rewrite Hi. simpl. rewrite ?Hi. now destruct v.
Qed.

(** C10, amended.  For a node that is in the workflow and whose record is
    an object.  Without an ['inputs'] member, the image patchers (given a
    path that is not empty, and when the value to store was obtained) and
    the prompt patcher raise [KeyError('inputs')], while the LoRA and the
    seed patcher return the workflow as it is.  With an ['inputs'] object
    that lacks the targeted field, the LoRA and the seed patcher again
    return the workflow as it is, while the image and the prompt patcher
    add the field.  With ['inputs'] [None], a number or a boolean, the
    image and the prompt patcher, the LoRA patcher given a name and the
    seed patcher all raise [TypeError].  Without a path, or a name, the
    image patchers and the LoRA patcher return the workflow as it is,
    whatever the record. *)
Theorem C10_patchers_on_incomplete_nodes
    (wf : workflow) (node_id : string) (record : list (string * json)) :
  assoc node_id wf = Some (JObj record) ->
  (assoc "inputs" record = None ->
     (forall client path evs v,
         path <> "" -> image_value client path = (evs, Returned v) ->
         result_of (update_workflow_image wf client (Some path) node_id)
         = Raised (KeyError [Fmt (JStr "inputs")])
         /\ result_of (patch_image client (Some path) node_id wf)
            = Raised (KeyError [Fmt (JStr "inputs")]))
     /\ (node_id = "111" ->
         forall prompt,
           result_of (update_workflow_prompt wf prompt)
           = Raised (KeyError [Fmt (JStr "inputs")]))
     /\ (forall lora_name, update_workflow_lora wf lora_name node_id = ret wf)
     /\ (forall seed random_seed,
           update_workflow_seed wf seed node_id random_seed = ret wf))
  /\ (forall inputs,
        assoc "inputs" record = Some (JObj inputs) ->
        (assoc "lora_name" inputs = None ->
           forall lora_name, update_workflow_lora wf lora_name node_id = ret wf)
        /\ (assoc "seed" inputs = None ->
            forall seed random_seed,
              update_workflow_seed wf seed node_id random_seed = ret wf)
        /\ (assoc "image" inputs = None ->
            forall client path evs v,
              path <> "" -> image_value client path = (evs, Returned v) ->
              result_of (update_workflow_image wf client (Some path) node_id)
              = Returned (with_new_input wf node_id record inputs "image" v)
              /\ result_of (patch_image client (Some path) node_id wf)
                 = Returned (with_new_input wf node_id record inputs "image" v))
        /\ (assoc "prompt" inputs = None -> node_id = "111" ->
            forall prompt,
              result_of (update_workflow_prompt wf prompt)
              = Returned (with_new_input wf node_id record inputs "prompt"
                            (JStr prompt))))
  /\ (forall inputs,
        assoc "inputs" record = Some inputs -> is_scalar inputs = true ->
        (forall client path evs v,
            path <> "" -> image_value client path = (evs, Returned v) ->
            result_of (update_workflow_image wf client (Some path) node_id)
            = Raised TypeError
            /\ result_of (patch_image client (Some path) node_id wf)
               = Raised TypeError)
        /\ (node_id = "111" ->
            forall prompt,
              result_of (update_workflow_prompt wf prompt) = Raised TypeError)
        /\ (forall lora_name,
              lora_name <> "" ->
              result_of (update_workflow_lora wf (Some lora_name) node_id)
              = Raised TypeError)
        /\ (forall seed random_seed,
              result_of (update_workflow_seed wf seed node_id random_seed)
              = Raised TypeError))
  /\ (forall client,
        update_workflow_image wf client None node_id = ret wf
        /\ update_workflow_image wf client (Some "") node_id = ret wf
        /\ patch_image client None node_id wf = ret wf
        /\ patch_image client (Some "") node_id wf = ret wf)
  /\ update_workflow_lora wf None node_id = ret wf
  /\ update_workflow_lora wf (Some "") node_id = ret wf.
Proof.
  intros Hn.
  pose proof (has_node_present _ _ _ Hn) as Hp.
  assert (G : forall path, path <> "" -> given (Some path) = Some path).
  { intros path Hne. unfold given.
    destruct (String.eqb_spec path ""); [contradiction|reflexivity]. }
  split; [|split; [|split; [|split; [|split]]]].
  - intros Hi.
    pose proof (fun field value =>
                  set_input_no_inputs wf node_id record field value Hn Hi)
      as S.
    pose proof (fun field => has_input_no_inputs wf node_id record field Hn Hi)
      as I.
    split; [|split; [|split]].
    + intros client path evs v Hne Hv. split.
      * unfold update_workflow_image. rewrite (G _ Hne), Hp.
        rewrite (result_of_bind _ _ v) by now rewrite Hv.
        now rewrite S.
      * unfold patch_image. rewrite (G _ Hne), Hp.
        rewrite (result_of_bind _ _ v) by now rewrite Hv.
        now rewrite S.
    + intros -> prompt. unfold update_workflow_prompt. now rewrite Hp, S.
    + intros name. apply lora_unchecked, I.
    + intros seed rnd. apply seed_unchecked, I.
  - intros inputs Hi. split; [|split; [|split]].
    + intros Hf name. apply lora_unchecked.
      eapply has_input_no_field; eassumption.
    + intros Hf seed rnd. apply seed_unchecked.
      eapply has_input_no_field; eassumption.
    + intros Hf client path evs v Hne Hv.
      pose proof (set_input_new_field wf node_id record inputs "image" v
                    Hn Hi Hf) as S.
      split.
      * unfold update_workflow_image. rewrite (G _ Hne), Hp.
        rewrite (result_of_bind _ _ v) by now rewrite Hv.
        now rewrite S.
      * unfold patch_image. rewrite (G _ Hne), Hp.
        rewrite (result_of_bind _ _ v) by now rewrite Hv.
        now rewrite S.
    + intros Hf -> prompt. unfold update_workflow_prompt. rewrite Hp.
      now rewrite (set_input_new_field wf _ record inputs _ _ Hn Hi Hf).
  - intros inputs Hi Hs.
    pose proof (fun field value =>
                  set_input_scalar wf node_id record inputs field value
                    Hn Hi Hs) as S.
    pose proof (fun field =>
                  has_input_scalar wf node_id record inputs field Hn Hi Hs)
      as I.
    split; [|split; [|split]].
    + intros client path evs v Hne Hv. split.
      * unfold update_workflow_image. rewrite (G _ Hne), Hp.
        rewrite (result_of_bind _ _ v) by now rewrite Hv.
        now rewrite S.
      * unfold patch_image. rewrite (G _ Hne), Hp.
        rewrite (result_of_bind _ _ v) by now rewrite Hv.
        now rewrite S.
    + intros -> prompt. unfold update_workflow_prompt. now rewrite Hp, S.
    + intros name Hne. unfold update_workflow_lora.
      now rewrite (G _ Hne), Hp, I.
    + intros seed rnd. unfold update_workflow_seed. rewrite Hp, I.
      now destruct seed.
  - intros client. repeat split.
  - reflexivity.
  - reflexivity.
Qed.

Lemma C10_patchers_on_incomplete_nodes_witness :
  let wf := [("111", JObj [("class_type", JStr "TextEncode")]);
             ("3", JObj [("inputs", JObj [("steps", JNum 20)])]);
             ("89", JObj [("inputs", JNull)])] in
  (result_of (update_workflow_prompt wf "a cat")
   = Raised (KeyError [Fmt (JStr "inputs")])
   /\ update_workflow_lora wf (Some "style.safetensors") "111" = ret wf
   /\ update_workflow_seed wf None "111" 42%Z = ret wf)
  /\ (update_workflow_seed wf (Some 7%Z) "3" 42%Z = ret wf
      /\ result_of (update_workflow_image wf None (Some "in/cat.png") "3")
         = Returned
             (with_new_input wf "3" [("inputs", JObj [("steps", JNum 20)])]
                [("steps", JNum 20)] "image" (JStr "cat.png")))
  /\ (result_of (update_workflow_lora wf (Some "style.safetensors") "89")
      = Raised TypeError
      /\ result_of (update_workflow_seed wf None "89" 42%Z) = Raised TypeError).
Proof.
  intros wf.
  destruct (C10_patchers_on_incomplete_nodes wf "111"
              [("class_type", JStr "TextEncode")] eq_refl) as [H _].
  destruct (H eq_refl) as (_ & Hp & Hl & Hs).
  destruct (C10_patchers_on_incomplete_nodes wf "3"
              [("inputs", JObj [("steps", JNum 20)])] eq_refl)
    as (_ & F & _).
  destruct (F [("steps", JNum 20)] eq_refl) as (_ & Fs & Fi & _).
  destruct (C10_patchers_on_incomplete_nodes wf "89"
              [("inputs", JNull)] eq_refl) as (_ & _ & T & _).
  destruct (T JNull eq_refl eq_refl) as (_ & _ & Tl & Ts).
  split; [|split].
  - split; [now apply Hp|]. split; [apply Hl|apply Hs].
  - split; [now apply Fs|].
    apply (Fi eq_refl None "in/cat.png"%string [] (JStr "cat.png"));
      [discriminate|reflexivity].
  - split; [apply Tl; discriminate|apply Ts].
Defined.

End PatchClaims.

(** ** [queue_prompt]: a rejected submission *)

Section Finishes.

Lemma finishes_ret {A} (a : A) : finishes (ret a).
Proof. discriminate. Qed.

Lemma finishes_raise {A} (e : exn) : finishes (@raise A e).
Proof. discriminate. Qed.

Lemma finishes_lift {A} (r : result A) : finishes (lift r).
Proof. destruct r; discriminate. Qed.

Lemma finishes_print (l : line) : finishes (print l).
Proof. discriminate. Qed.

Lemma finishes_bind {A B} (m : io A) (f : A -> io B) :
  finishes m -> (forall a, finishes (f a)) -> finishes (bind m f).
Proof.
  unfold finishes. destruct m as [evs [a|e|]]; simpl; intros H1 H2.
  - specialize (H2 a). now destruct (f a).
  - discriminate.
  - contradiction.
Qed.

Lemma finishes_for_each {A} (l : list A) (body : A -> io unit) :
  (forall x, finishes (body x)) -> finishes (for_each l body).
Proof.
  intros H. induction l as [|x l IH]; simpl.
  - apply finishes_ret.
  - apply finishes_bind; auto.
Qed.

End Finishes.

Ltac finishes_tac :=
  repeat first
    [ apply finishes_ret | apply finishes_raise | apply finishes_lift
    | apply finishes_print
    | apply finishes_for_each; intros
    | apply finishes_bind; [|intros]
    | match goal with
      | |- finishes (if ?b then _ else _) => destruct b
      | |- finishes (match ?x with _ => _ end) => destruct x
      | |- finishes (let '(_, _) := ?x in _) => destruct x
      end ].

Section SubmitClaims.

Import Client Spec Examples.

Lemma surfaces_intro needle (out : list line) (l : line) (p : piece) :
  In l out -> In p l -> piece_shows needle p = true ->
  surfaces needle out = true.
Proof.
  intros Hl Hp Hs. unfold surfaces. apply existsb_exists. exists l.
  split; [assumption|]. apply existsb_exists. now exists p.
Qed.

Lemma report_error_json_finishes j : finishes (report_error_json j).
Proof.
  unfold report_error_json, report_node, report_node_error. finishes_tac.
Qed.

(** What a response with an error status makes [queue_prompt] do: print
    the error, the status and the start of the body, then the structured
    breakdown of the body as far as it can be read, and raise the error
    again. *)
Lemma http_error_report cid post prompt r j :
  post (JObj [("prompt", prompt); ("client_id", JStr cid)]) = PostReturns r ->
  is_http_error r = true ->
  json_body r = Some j ->
  let run := queue_prompt cid post prompt in
  result_of run = Raised (RequestException (http_error r))
  /\ printed run
     = [[Lit "Error queueing prompt: "; Lit (http_error r)];
        [Lit "Response status: "; Fmt (JNum (status_code r))];
        [Lit "Response text: "; Lit (take 1000 (text r))]]
       ++ printed (report_error_json j).
Proof.
  intros Hp Hs Hj. unfold queue_prompt. rewrite Hp, Hs.
  unfold on_request_exception, printed. rewrite Hj. simpl loads.
  pose proof (report_error_json_finishes j) as F. unfold finishes in F.
  destruct (report_error_json j) as [evs o] eqn:E. simpl. rewrite E.
  destruct o as [[]|e|]; simpl; rewrite ?app_nil_r; try split;
    try reflexivity.
  now contradiction F.
Qed.

Lemma printed_prints {A} (l : list line) (o : outcome A) :
  printed (map Print l, o) = l.
Proof.
  unfold printed. simpl. induction l as [|x l IH]; simpl; congruence.
Qed.

Lemma for_each_prints {A} (lines : A -> list line) (body : A -> io unit) l :
  (forall x, body x = (map Print (lines x), Returned tt)) ->
  for_each l body = (map Print (flat_map lines l), Returned tt).
Proof.
  intros H. induction l as [|x l IH]; simpl; [reflexivity|].
  rewrite H, IH. now rewrite map_app.
Qed.

Lemma for_each_map {A B} (f : A -> B) (body : B -> io unit) l :
  for_each (map f l) body = for_each l (fun x => body (f x)).
Proof. induction l as [|x l IH]; simpl; [reflexivity|now rewrite IH]. Qed.

Lemma report_node_error_lines e :
  report_node_error (validation_error_json e)
  = (map Print (validation_error_lines e), Returned tt).
Proof.
  unfold report_node_error, validation_error_lines, validation_error_json.
  simpl. now destruct (String.eqb (v_details e) "").
Qed.

Lemma report_node_lines kv :
  report_node (fst kv, node_error_json (snd kv))
  = (map Print (node_error_lines kv), Returned tt).
Proof.
  unfold report_node, node_error_lines, node_error_json. cbn -[for_each].
  rewrite for_each_map, (for_each_prints validation_error_lines).
  - reflexivity.
  - intros x. apply report_node_error_lines.
Qed.

(** The breakdown printed for a body of the documented shape. *)
Lemma report_error_json_lines node_errors message details :
  report_error_json (error_body node_errors message details)
  = (map Print (breakdown node_errors message details), Returned tt).
Proof.
  unfold report_error_json, error_body, breakdown.
  assert (N : forall nodes,
             for_each
               (map (fun kv => (fst kv, node_error_json (snd kv))) nodes)
               report_node
             = (map Print (flat_map node_error_lines nodes), Returned tt)).
  { intros nodes. rewrite for_each_map.
    apply (for_each_prints node_error_lines). intros kv.
    apply report_node_lines. }
  destruct node_errors as [nodes|]; cbn -[for_each].
  - rewrite N. simpl.
    destruct details as [d|]; simpl;
      [destruct (String.eqb d ""); simpl|];
      now rewrite !map_app.
  - destruct details as [d|]; simpl; [now destruct (String.eqb d "")|].
    reflexivity.
Qed.

(** C6.  A response that is not a success and whose body is
    [{"error": {"message": "bad node"}}] makes [queue_prompt] raise, and a
    printed line contains "bad node".  For an error status (400 to 599)
    and a body of the documented shape, the lines printed before the error
    is raised again are the error, the status, the start of the body and
    the structured breakdown: for each node its identifier and, for each
    of its validation errors, the type and the message and then the
    details; after the nodes the top-level message and its details. *)
Theorem C6_rejected_submission_is_reported cid post prompt r :
  post (JObj [("prompt", prompt); ("client_id", JStr cid)]) = PostReturns r ->
  let run := queue_prompt cid post prompt in
  (json_body r = Some bad_node -> ~ (200 <= status_code r < 300)%Z ->
   (exists e, result_of run = Raised e)
   /\ surfaces "bad node" (printed run) = true)
  /\ (forall node_errors message details,
        json_body r = Some (error_body node_errors message details) ->
        is_http_error r = true ->
        result_of run = Raised (RequestException (http_error r))
        /\ printed run
           = [[Lit "Error queueing prompt: "; Lit (http_error r)];
              [Lit "Response status: "; Fmt (JNum (status_code r))];
              [Lit "Response text: "; Lit (take 1000 (text r))]]
             ++ breakdown node_errors message details).
Proof.
  intros Hp run. split.
  - intros Hj _.
    destruct (is_http_error r) eqn:Hs.
    + destruct (http_error_report cid post prompt r bad_node Hp Hs Hj)
        as [R P].
      fold run in R, P. split; [eauto|]. rewrite P.
      apply (surfaces_intro _ _ [Lit (nl ++ "Error: "); Fmt (JStr "bad node")]
               (Fmt (JStr "bad node"))); simpl; auto.
    + subst run. unfold queue_prompt. rewrite Hp, Hs, Hj. split.
      * simpl. eauto.
      * apply (surfaces_intro _ _
                 [Lit "Error parsing response: "; Lit "ComfyUI error: ";
                  Fmt (JStr "bad node")]
                 (Fmt (JStr "bad node"))); simpl; auto.
  - intros node_errors message details Hj Hs.
    destruct (http_error_report cid post prompt r _ Hp Hs Hj) as [R P].
    split; [exact R|]. fold run in P. rewrite P.
    now rewrite report_error_json_lines, printed_prints.
Qed.

Lemma C6_rejected_submission_is_reported_witness :
  let run body :=
    queue_prompt "client" (fun _ => PostReturns (rejected 400 body))
      (JObj []) in
  bad_node = error_body None "bad node" None
  /\ result_of (run bad_node) = Raised (RequestException "400 Client Error")
  /\ surfaces "bad node" (printed (run bad_node)) = true
  /\ printed (run failed_validation)
     = [[Lit "Error queueing prompt: "; Lit "400 Client Error"];
        [Lit "Response status: "; Fmt (JNum 400)];
        [Lit "Response text: "; Lit ""];
        [Lit (nl ++ "Node Errors:")];
        [Lit "  Node "; Lit "3"; Lit ":"];
        [Lit "    - "; Fmt (JStr "value_not_in_list"); Lit ": ";
         Fmt (JStr "Value not in list")];
        [Lit "      Details: "; Fmt (JStr "ckpt_name")];
        [Lit (nl ++ "Error: "); Fmt (JStr "Prompt outputs failed validation")];
        [Lit "Details: "; Fmt (JStr "1 node failed")]].
Proof.
  intros run.
  destruct (C6_rejected_submission_is_reported "client"
              (fun _ => PostReturns (rejected 400 bad_node)) (JObj [])
              (rejected 400 bad_node) eq_refl) as (S & R).
  destruct (C6_rejected_submission_is_reported "client"
              (fun _ => PostReturns (rejected 400 failed_validation)) (JObj [])
              (rejected 400 failed_validation) eq_refl) as (_ & R').
  split; [reflexivity|]. split; [|split].
  - now apply (R None "bad node"%string None).
  - apply S; [reflexivity|]. simpl. lia.
  - now apply (R' (Some [("3"%string, [ckpt_not_in_list])])
                 "Prompt outputs failed validation"%string
                 (Some "1 node failed"%string)).
Defined.

(** The breakdown of per-node validation errors: a line per node, a line
    with type and message per error, a line for its details, then the
    top-level message. *)
Example node_errors_report :
  printed (queue_prompt "client"
             (fun _ => PostReturns (rejected 400 node_errors)) (JObj []))
  = [[Lit "Error queueing prompt: "; Lit "400 Client Error"];
     [Lit "Response status: "; Fmt (JNum 400)];
     [Lit "Response text: "; Lit ""];
     [Lit (nl ++ "Node Errors:")];
     [Lit "  Node "; Lit "3"; Lit ":"];
     [Lit "    - "; Fmt (JStr "value_not_in_list"); Lit ": ";
      Fmt (JStr "Value not in list")];
     [Lit "      Details: "; Fmt (JStr "ckpt_name")];
     [Lit (nl ++ "Error: "); Fmt (JStr "Prompt outputs failed validation")]].
Proof. reflexivity. Qed.

End SubmitClaims.

(** * Further properties of the code *)

(** ** [queue_prompt]: every way it ends *)

Section SubmitEnds.

Import Client Spec Examples More.

Lemma try_pass_returns (m : io unit) :
  finishes m -> result_of (try_pass m) = Returned tt.
Proof.
  unfold finishes. destruct m as [evs [[]|e|]]; simpl; auto. contradiction.
Qed.

(** The handler of a failed request ends by raising the error again,
    whatever the response attached to it. *)
Lemma on_request_exception_raises msg resp :
  result_of (on_request_exception msg resp) = Raised (RequestException msg).
Proof.
  unfold on_request_exception.
  rewrite (result_of_bind _ _ tt) by reflexivity.
  assert (F : forall r,
             finishes (print [Lit "Response text: "; Lit (take 1000 (text r))] ;;;
                       try_pass (error_json <- loads (json_body r) ;;
                                 report_error_json error_json))).
  { intros r. apply finishes_bind; [apply finishes_print|intros _].
    unfold finishes. rewrite try_pass_returns; [discriminate|].
    apply finishes_bind; [unfold loads; finishes_tac|].
    apply report_error_json_finishes. }
  destruct resp as [r|].
  - rewrite (result_of_bind _ _ tt); [reflexivity|].
    rewrite (result_of_bind _ _ tt) by reflexivity.
    apply try_pass_returns, F.
  - reflexivity.
Qed.

(** X1.  A request that fails and a response with an error status make
    [queue_prompt] raise the [RequestException] of the failure: nothing in
    the body of the response, which the handler reads to report it, can
    turn the failure into a result or into another error. *)
Theorem queue_prompt_reraises cid post prompt :
  let p := JObj [("prompt", prompt); ("client_id", JStr cid)] in
  let run := queue_prompt cid post prompt in
  (forall msg resp,
      post p = PostFails msg resp ->
      result_of run = Raised (RequestException msg))
  /\ (forall r,
        post p = PostReturns r -> is_http_error r = true ->
        result_of run = Raised (RequestException (http_error r))).
Proof.
  intros p run. subst p run. unfold queue_prompt. split.
  - intros msg resp ->. apply on_request_exception_raises.
  - intros r -> ->. apply on_request_exception_raises.
Qed.

Lemma queue_prompt_reraises_witness :
  result_of (queue_prompt "client"
               (fun _ => PostReturns (rejected 500 node_errors)) (JObj []))
  = Raised (RequestException "400 Client Error").
Proof.
  destruct (queue_prompt_reraises "client"
              (fun _ => PostReturns (rejected 500 node_errors)) (JObj []))
    as (_ & H).
  apply (H (rejected 500 node_errors)); reflexivity.
Defined.

Lemma try_except_returned {A} (m : io A) h evs a :
  (forall e k, h e = Some k -> forall a', result_of k <> Returned a') ->
  try_except m h = (evs, Returned a) -> m = (evs, Returned a).
Proof.
  intros Hh. destruct m as [evs0 [a0|e|]]; simpl; auto.
  destruct (h e) as [k|] eqn:E; auto.
  specialize (Hh e k E). destruct k as [evs1 r]. simpl in *.
  intros [= _ ->]. now destruct (Hh a).
Qed.

Lemma on_parse_error_raises e k :
  on_parse_error e = Some k -> forall a, result_of k <> Returned a.
Proof.
  unfold on_parse_error. destruct e; intros [= <-] a; discriminate.
Qed.

(** X2.  [queue_prompt] returns a value exactly when the request went
    through with a status that is no error and a JSON body that contains
    ['prompt_id']; the value is the one the body holds there, and nothing
    is printed. *)
Theorem queue_prompt_returns_iff cid post prompt v :
  let p := JObj [("prompt", prompt); ("client_id", JStr cid)] in
  let run := queue_prompt cid post prompt in
  (result_of run = Returned v
   <-> exists r response_json,
         post p = PostReturns r /\ is_http_error r = false
         /\ json_body r = Some response_json
         /\ py_in (JStr "prompt_id") response_json = Ok true
         /\ py_getitem response_json (JStr "prompt_id") = Ok v)
  /\ (result_of run = Returned v -> run = ret v).
Proof.
  intros p run. subst p run. unfold queue_prompt.
  assert (G : result_of
                match post (JObj [("prompt", prompt); ("client_id", JStr cid)])
                with
                | PostFails msg resp => on_request_exception msg resp
                | PostReturns req =>
                    if is_http_error req
                    then on_request_exception (http_error req) (Some req)
                    else
                      match json_body req with
                      | Some response_json =>
                          try_except (read_prompt_id response_json)
                                     on_parse_error
                      | None => on_request_exception (json_error req) None
                      end
                end = Returned v ->
              exists r j,
                post (JObj [("prompt", prompt); ("client_id", JStr cid)])
                = PostReturns r
                /\ is_http_error r = false /\ json_body r = Some j
                /\ py_in (JStr "prompt_id") j = Ok true
                /\ py_getitem j (JStr "prompt_id") = Ok v
                /\ try_except (read_prompt_id j) on_parse_error = ret v).
  { destruct (post _) as [msg resp|r].
    { rewrite on_request_exception_raises. discriminate. }
    destruct (is_http_error r) eqn:Hs.
    { rewrite on_request_exception_raises. discriminate. }
    destruct (json_body r) as [j|] eqn:Hj.
    2:{ rewrite on_request_exception_raises. discriminate. }
    unfold result_of.
    destruct (try_except _ _) as [evs o] eqn:E. simpl. intros ->.
    pose proof E as E0.
    apply (try_except_returned _ _ _ _ on_parse_error_raises) in E.
    unfold read_prompt_id in E.
    apply bind_returned in E as (e1 & has & e2 & Hin & E & ->).
    apply lift_returned in Hin as [Hin ->].
    destruct has; cbn [negb] in E.
    + apply lift_returned in E as [Hg ->].
      exists r, j. repeat split; auto.
    + repeat (apply bind_returned in E as (? & ? & ? & _ & E & _)).
      discriminate. }
  split; [split|].
  - intros H. destruct (G H) as (r & j & H1 & H2 & H3 & H4 & H5 & _).
    now exists r, j.
  - intros (r & j & -> & -> & -> & Hin & Hg).
    unfold read_prompt_id. rewrite Hin. simpl. now rewrite Hg.
  - intros H. destruct (G H) as (r & j & H1 & H2 & H3 & _ & _ & H6).
    now rewrite H1, H2, H3.
Qed.

Lemma queue_prompt_returns_iff_witness :
  result_of (queue_prompt "client" (fun _ => PostReturns accepted) (JObj []))
  = Returned job.
Proof.
  apply (queue_prompt_returns_iff "client" (fun _ => PostReturns accepted)
           (JObj []) job).
  exists accepted, (JObj [("prompt_id", job)]). repeat split.
Defined.

(** X3.  A successful response whose JSON object has no ['prompt_id']
    never gives a result: with an ['error'] member [queue_prompt] raises
    [ValueError("ComfyUI error: ...")], naming the message of the error or,
    failing that, the error itself; without one it raises [KeyError].  The
    response is printed first, and the error once more before it leaves. *)
Theorem queue_prompt_without_id cid post prompt r m :
  post (JObj [("prompt", prompt); ("client_id", JStr cid)]) = PostReturns r ->
  is_http_error r = false ->
  json_body r = Some (JObj m) ->
  assoc "prompt_id" m = None ->
  let run := queue_prompt cid post prompt in
  let error :=
    match assoc "error" m with
    | Some error_msg =>
        ValueError [Lit "ComfyUI error: "; Fmt (error_details error_msg)]
    | None =>
        KeyError [Lit "'prompt_id' not found in response: "; Fmt (JObj m)]
    end in
  result_of run = Raised error
  /\ printed run
     = [[Lit "Error: Response does not contain 'prompt_id'"];
        [Lit "Response: "; Dumps (JObj m)];
        match error with
        | KeyError msg => [Lit "Error parsing response: "; ReprOf msg]
        | ValueError msg => Lit "Error parsing response: " :: msg
        | _ => []
        end].
Proof.
  intros Hp Hs Hj Hid run error. subst run error.
  unfold queue_prompt. rewrite Hp, Hs, Hj.
  unfold read_prompt_id, printed. simpl. rewrite Hid. simpl.
  destruct (assoc "error" m) as [[| | | | |e]|]; simpl; auto.
Qed.

Lemma queue_prompt_without_id_witness :
  result_of (queue_prompt "client"
               (fun _ => PostReturns (rejected 200 bad_node)) (JObj []))
  = Raised (ValueError [Lit "ComfyUI error: "; Fmt (JStr "bad node")]).
Proof.
  apply (queue_prompt_without_id "client"
           (fun _ => PostReturns (rejected 200 bad_node)) (JObj [])
           (rejected 200 bad_node)
           [("error", JObj [("message", JStr "bad node")])]);
    reflexivity.
Defined.

End SubmitEnds.

(** ** [wait_for_completion]: the budget, binary frames and the output *)

Section WaitMore.

Import Client Spec Examples More.
Local Open Scope Z_scope.

(** X4.  When the first reading of the clock after [start_time] already
    shows the budget exhausted (so for every budget that is not positive),
    and the clock does not go back, [wait_for_completion] receives no
    frame at all: it opens the connection, closes it and raises
    [TimeoutError], whatever the channel holds. *)
Theorem wait_with_no_budget c pid timeout :
  connects c = true ->
  (forall n, now c n <= now c (S n)) ->
  timeout <= now c 1 - now c 0 ->
  wait_for_completion c pid timeout = ([WsOpen; WsClose], Raised TimeoutError).
Proof.
  intros C Mono H. unfold wait_for_completion. rewrite C.
  assert (E : wait_loop (now c) pid timeout (now c 0) 1 (frames c) []
              = ret (ByCondition, 2%nat, [])).
  { destruct (frames c); cbn [wait_loop];
      destruct (Z.ltb_spec (now c 1 - now c 0) timeout); auto; lia. }
  rewrite E. simpl. pose proof (Mono 1%nat).
  destruct (Z.leb_spec timeout (now c 2 - now c 0)); auto. lia.
Qed.

Lemma wait_with_no_budget_witness :
  wait_for_completion (ticking [executing JNull job]) job 0
  = ([WsOpen; WsClose], Raised TimeoutError).
Proof.
  apply (wait_with_no_budget (ticking [executing JNull job]) job 0).
  - reflexivity.
  - intros n. simpl. lia.
  - simpl. lia.
Defined.

Lemma wait_loop_without_binary now pid timeout start fs :
  (forall n, now n - start < timeout) ->
  forall n m imgs,
    exit_and_images (result_of (wait_loop now pid timeout start n fs imgs))
    = exit_and_images
        (result_of (wait_loop now pid timeout start m
                      (filter (fun f => negb (is_binary f)) fs) imgs)).
Proof.
  intros B. induction fs as [|f fs IH]; intros n m imgs.
  - cbn [filter wait_loop].
    destruct (Z.ltb_spec (now n - start) timeout) as [_|G];
      [|specialize (B n); lia].
    destruct (Z.ltb_spec (now m - start) timeout) as [_|G];
      [|specialize (B m); lia].
    reflexivity.
  - cbn [filter wait_loop].
    destruct (Z.ltb_spec (now n - start) timeout) as [_|G];
      [|specialize (B n); lia].
    destruct (is_binary f) eqn:Bf; cbn [negb].
    + destruct f; try discriminate. simpl on_frame.
      rewrite (result_of_bind _ _ (Continue imgs)) by reflexivity.
      apply IH.
    + cbn [wait_loop].
      destruct (Z.ltb_spec (now m - start) timeout) as [_|G];
        [|specialize (B m); lia].
      destruct (on_frame pid f imgs) as [evs [[|d]|e|]] eqn:E.
      * rewrite !(result_of_bind _ _ Break) by reflexivity. reflexivity.
      * rewrite !(result_of_bind _ _ (Continue d)) by reflexivity. apply IH.
      * reflexivity.
      * reflexivity.
Qed.

(** X5.  Binary frames do not count: as long as the clock stays within the
    budget, [wait_for_completion] ends the same way, with the same images,
    on a channel and on that channel without its binary frames. *)
Theorem binary_frames_are_ignored c pid timeout :
  (forall n, now c n - now c 0 < timeout) ->
  result_of (wait_for_completion c pid timeout)
  = result_of (wait_for_completion (without_binary c) pid timeout).
Proof.
  intros B.
  destruct (connects c) eqn:C;
    [|unfold wait_for_completion; simpl; now rewrite C].
  pose proof (wait_loop_without_binary (now c) pid timeout (now c 0)
                (frames c) B 1%nat 1%nat []) as E.
  destruct (wait_loop (now c) pid timeout (now c 0) 1 (frames c) [])
    as [e1 r1] eqn:E1.
  destruct (wait_loop (now c) pid timeout (now c 0) 1
              (filter (fun f => negb (is_binary f)) (frames c)) [])
    as [e2 r2] eqn:E2.
  rewrite (wait_for_completion_cases c pid timeout e1 r1 C E1).
  rewrite (wait_for_completion_cases (without_binary c) pid timeout e2 r2
             C E2).
  simpl in E.
  destruct r1 as [[[x1 n1] d1]|err1|]; destruct r2 as [[[x2 n2] d2]|err2|];
    simpl in E; try discriminate.
  - injection E as _ <-. simpl.
    destruct (Z.leb_spec timeout (now c n1 - now c 0)) as [G|_];
      [specialize (B n1); lia|].
    destruct (Z.leb_spec timeout (now c n2 - now c 0)) as [G|_];
      [specialize (B n2); lia|].
    reflexivity.
  - now injection E as <-.
  - reflexivity.
Qed.

Lemma binary_frames_are_ignored_witness :
  let c := {| connects := true; now := fun _ => 0;
              frames := [BinaryFrame; executed (JStr "9") [image_ref "a.png"];
                         BinaryFrame; executing JNull job] |} in
  result_of (wait_for_completion (without_binary c) job 300)
  = Returned [(JStr "9", image_ref "a.png")]
  /\ result_of (wait_for_completion c job 300)
     = result_of (wait_for_completion (without_binary c) job 300).
Proof.
  intros c. split; [reflexivity|].
  apply (binary_frames_are_ignored c job 300).
  intros n. simpl. lia.
Defined.

(** X6.  The test after the loop reads the clock anew: when the loop is
    left through its condition, no completion signal received, but the
    next reading is within the budget again (the wall clock was set back),
    [wait_for_completion] returns the images gathered so far as if the job
    had finished. *)
Theorem clock_set_back_returns c pid timeout k d :
  connects c = true ->
  (k <= length (frames c))%nat ->
  handled pid (firstn k (frames c)) [] = Some d ->
  (forall i, (1 <= i <= k)%nat -> now c i - now c 0 < timeout) ->
  timeout <= now c (S k) - now c 0 ->
  now c (S (S k)) - now c 0 < timeout ->
  result_of (wait_for_completion c pid timeout) = Returned d
  /\ forall j g, (j < k)%nat -> nth_error (frames c) j = Some g ->
                 is_completion pid g = false.
Proof.
  intros C Hk Hh Hb Hx Hy. split.
  - destruct (wait_loop (now c) pid timeout (now c 0) 1 (frames c) [])
      as [evs r] eqn:E.
    pose proof (wait_loop_expires (now c) pid timeout (now c 0) k 1
                  (frames c) [] d Hk Hh) as X.
    rewrite E in X. simpl in X.
    rewrite (wait_for_completion_cases c pid timeout evs r C E), X.
    + simpl. destruct (Z.leb_spec timeout (now c (S (S k)) - now c 0)); auto.
      lia.
    + intros i Hi. apply Hb. lia.
    + exact Hx.
  - intros j g Hj Hg. apply (handled_no_completion _ _ _ _ Hh j g).
    now rewrite nth_error_firstn_lt.
Qed.

Lemma clock_set_back_returns_witness :
  let c := {| connects := true;
              now := fun n => if (n =? 2)%nat then 500 else 0;
              frames := [executed (JStr "9") [image_ref "a.png"]] |} in
  result_of (wait_for_completion c job 300)
  = Returned [(JStr "9", image_ref "a.png")].
Proof.
  intros c.
  apply (clock_set_back_returns c job 300 1%nat
           [(JStr "9", image_ref "a.png")]).
  - reflexivity.
  - simpl. lia.
  - reflexivity.
  - intros i Hi. assert (i = 1%nat) as -> by lia. reflexivity.
  - simpl. lia.
  - simpl. lia.
Defined.

Lemma lines_app (a b : list event) : lines (a ++ b) = lines a ++ lines b.
Proof. apply flat_map_app. Qed.

Lemma no_event_nil {A} (m : io A) : only no_event m -> events m = [].
Proof.
  unfold only. destruct (events m) as [|e l]; auto.
  intros H. inversion H; subst. contradiction.
Qed.

Lemma on_executed_silent data d : events (on_executed data d) = [].
Proof. apply no_event_nil. unfold on_executed. only_tac. Qed.

Lemma on_message_lines pid message d evs st :
  on_message pid message d = (evs, Returned st) ->
  lines evs = progress_line (TextFrame (Some message)).
Proof.
  unfold on_message. intros H.
  apply bind_returned in H as (? & type & ? & Ht & H & ->).
  apply lift_returned in Ht as [Ht ->].
  apply py_getitem_obj in Ht as (m & -> & Ht).
  unfold progress_line. rewrite Ht.
  destruct (py_eq type (JStr "executing")) eqn:T1.
  - apply py_eq_str in T1 as ->. simpl py_eq. cbv iota.
    apply bind_returned in H as (? & data & ? & Hd & H & ->).
    apply lift_returned in Hd as [Hd ->].
    apply bind_returned in H as (? & node & ? & Hn & H & ->).
    apply lift_returned in Hn as [Hn ->].
    assert (x0 = []) as ->.
    { destruct (is_none node); [|now injection H as <-].
      apply bind_returned in H as (? & id & ? & Hi & H & ->).
      apply lift_returned in Hi as [_ ->].
      destruct (py_eq id pid); now injection H as <-. }
    destruct (assoc "data" m) as [[]|]; reflexivity.
  - destruct (py_eq type (JStr "progress")) eqn:T2.
    + apply bind_returned in H as (? & data & ? & Hd & H & ->).
      apply lift_returned in Hd as [Hd ->].
      apply py_getitem_obj in Hd as (m' & [= <-] & Hd). rewrite Hd.
      apply bind_returned in H as (? & value & ? & Hv & H & ->).
      apply lift_returned in Hv as [Hv ->].
      apply py_getitem_obj in Hv as (dd & -> & Hv). rewrite Hv.
      apply bind_returned in H as (? & max & ? & Hm & H & ->).
      apply lift_returned in Hm as [Hm ->].
      apply py_getitem_obj in Hm as (dd' & [= <-] & Hm). rewrite Hm.
      apply bind_returned in H as (? & kind & ? & Hk & H & ->).
      apply lift_returned in Hk as [Hk ->]. simpl in Hk. injection Hk as <-.
      apply bind_returned in H as (? & [] & ? & Hp & H & ->).
      injection Hp as <-. injection H as <- _. reflexivity.
    + destruct (py_eq type (JStr "executed")) eqn:T3.
      * apply bind_returned in H as (? & data & ? & Hd & H & ->).
        apply lift_returned in Hd as [Hd ->].
        apply bind_returned in H as (e1 & d1 & ? & He & H & ->).
        injection H as <- _.
        pose proof (on_executed_silent data d) as S.
        rewrite He in S. simpl in S. subst e1.
        destruct (assoc "data" m) as [[]|]; reflexivity.
      * injection H as <- _.
        destruct (assoc "data" m) as [[]|]; reflexivity.
Qed.

Lemma on_frame_lines pid f d evs st :
  on_frame pid f d = (evs, Returned st) -> lines evs = progress_line f.
Proof.
  destruct f as [parsed| |]; unfold on_frame.
  - intros H. apply bind_returned in H as (? & [] & ? & H1 & H & ->).
    injection H1 as <-.
    apply bind_returned in H as (? & message & ? & Hl & H & ->).
    destruct parsed as [v|]; try discriminate. injection Hl as <- <-.
    simpl. eapply on_message_lines; eassumption.
  - intros [= <- _]. reflexivity.
  - discriminate.
Qed.

Lemma wait_loop_lines now pid timeout start fs : forall n imgs evs r,
  wait_loop now pid timeout start n fs imgs = (evs, Returned r) ->
  lines evs = flat_map progress_line (firstn (received evs) fs).
Proof.
  induction fs as [|f fs IH]; intros n imgs evs r; cbn [wait_loop].
  - destruct (_ <? _); [discriminate|]. intros [= <- _]. reflexivity.
  - destruct (_ <? _); [|intros [= <- _]; reflexivity].
    intros H. apply bind_returned in H as (e1 & st & e2 & H1 & H2 & ->).
    rewrite lines_app, received_app, (on_frame_received _ _ _ _ _ H1).
    rewrite (on_frame_lines _ _ _ _ _ H1). cbn [plus firstn flat_map].
    f_equal. destruct st as [|d1].
    + injection H2 as <- _. reflexivity.
    + eapply IH; eassumption.
Qed.

(** X7.  [wait_for_completion] prints for the ['progress'] messages it
    receives and for nothing else: when it returns or times out, its
    output is one line per ['progress'] message among the frames received,
    in the order received, showing the value, the maximum and the type of
    the message. *)
Theorem output_is_the_progress_lines c pid timeout :
  let run := wait_for_completion c pid timeout in
  (exists d, result_of run = Returned d) \/ result_of run = Raised TimeoutError ->
  printed run
  = flat_map progress_line (firstn (received (events run)) (frames c)).
Proof.
  intros run H. subst run.
  destruct (connects c) eqn:C.
  - destruct (wait_loop (now c) pid timeout (now c 0) 1 (frames c) [])
      as [evs r] eqn:E.
    pose proof (wait_loop_errors (now c) pid timeout (now c 0) 1 (frames c) [])
      as R.
    unfold raises in R. rewrite E in R. simpl in R.
    rewrite (wait_for_completion_cases c pid timeout evs r C E) in *.
    destruct r as [[[x n] d]|e|]; simpl in H.
    + apply wait_loop_lines in E. unfold printed. simpl events.
      change (WsOpen :: evs ++ [WsClose]) with ([WsOpen] ++ evs ++ [WsClose]).
      rewrite !received_app. change (received [WsOpen]) with 0%nat.
      change (received [WsClose]) with 0%nat.
      rewrite Nat.add_0_r. cbn [plus].
      change (flat_map _ ([WsOpen] ++ evs ++ [WsClose]))
        with (lines ([WsOpen] ++ evs ++ [WsClose])).
      rewrite !lines_app. simpl (lines [WsOpen]). simpl (lines [WsClose]).
      now rewrite app_nil_r.
    + destruct H as [[d H]|H]; try discriminate.
      injection H as ->. now destruct (R TimeoutError eq_refl).
    + destruct H as [[d H]|H]; discriminate.
  - unfold wait_for_completion in H. rewrite C in H.
    destruct H as [[d H]|H]; discriminate.
Qed.

Lemma output_is_the_progress_lines_witness :
  printed (wait_for_completion
             (ticking [progress 3 20; BinaryFrame; executing JNull job])
             job 300)
  = [[Lit "Progress: "; Fmt (JNum 3); Lit "/"; Fmt (JNum 20); Lit " - ";
      Fmt (JStr "")]].
Proof.
  apply (output_is_the_progress_lines
           (ticking [progress 3 20; BinaryFrame; executing JNull job])
           job 300).
  left. exists []. reflexivity.
Defined.

End WaitMore.

(** ** [generate_image]: what a run writes and how it fails *)

Section RunMore.

Import Path Client Spec More Examples.

Lemma for_fold_trace {A S} (R : S -> list event -> S -> Prop)
    (body : S -> A -> io S) :
  (forall s, R s [] s) ->
  (forall s1 e1 s2 e2 s3, R s1 e1 s2 -> R s2 e2 s3 -> R s1 (e1 ++ e2) s3) ->
  (forall s x evs s', body s x = (evs, Returned s') -> R s evs s') ->
  forall l s evs s', for_fold l body s = (evs, Returned s') -> R s evs s'.
Proof.
  intros Hnil Happ Hbody. induction l as [|x l IH]; intros s evs s'; simpl.
  - intros [= <- <-]. apply Hnil.
  - intros H. apply bind_returned in H as (e1 & s1 & e2 & H1 & H2 & ->).
    eapply Happ; eauto.
Qed.

Lemma recorded_nil acc : recorded acc [] acc.
Proof. unfold recorded. simpl. now rewrite app_nil_r. Qed.

Lemma recorded_app a e1 b e2 c :
  recorded a e1 b -> recorded b e2 c -> recorded a (e1 ++ e2) c.
Proof.
  unfold recorded. intros -> ->. now rewrite writes_app, map_app, app_assoc.
Qed.

Lemma save_image_recorded s output_dir acc image_info evs acc' :
  save_image s output_dir acc image_info = (evs, Returned acc') ->
  recorded acc evs acc'.
Proof.
  destruct acc as [saved i]. unfold save_image, recorded. intros H.
  apply bind_returned in H as (? & filename & ? & Hf & H & ->).
  apply lift_returned in Hf as [_ ->].
  apply bind_returned in H as (? & subfolder & ? & Hs & H & ->).
  apply lift_returned in Hs as [_ ->].
  apply bind_returned in H as (? & folder_type & ? & Ht & H & ->).
  apply lift_returned in Ht as [_ ->].
  apply bind_returned in H as (? & [] & ? & Hp & H & ->).
  injection Hp as <-.
  apply bind_returned in H as (? & image_data & ? & Hd & H & ->).
  apply lift_returned in Hd as [_ ->].
  apply bind_returned in H as (? & path & ? & Hn & H & ->).
  apply lift_returned in Hn as [_ ->].
  apply bind_returned in H as (? & [] & ? & Hw & H & ->).
  destruct (writable s _); [|discriminate]. injection Hw as <-.
  apply bind_returned in H as (? & [] & ? & Hq & H & ->).
  injection Hq as <-. injection H as <- <-. reflexivity.
Qed.

Lemma save_node_recorded s output_dir acc item evs acc' :
  save_node s output_dir acc item = (evs, Returned acc') ->
  recorded acc evs acc'.
Proof.
  unfold save_node. intros H.
  apply bind_returned in H as (? & has & ? & Hh & H & ->).
  apply lift_returned in Hh as [_ ->].
  destruct has; [|injection H as <- <-; apply recorded_nil].
  apply bind_returned in H as (? & imgs & ? & Hi & H & ->).
  apply lift_returned in Hi as [_ ->].
  apply bind_returned in H as (? & l & ? & Hl & H & ->).
  apply lift_returned in Hl as [_ ->].
  revert H. apply for_fold_trace.
  - apply recorded_nil.
  - apply recorded_app.
  - intros. eapply save_image_recorded; eassumption.
Qed.

Lemma save_outputs_recorded s output_dir h pid evs paths :
  save_outputs s output_dir h pid = (evs, Returned paths) ->
  map fst (writes evs) = paths.
Proof.
  unfold save_outputs. intros H.
  apply bind_returned in H as (? & known & ? & Hk & H & ->).
  apply lift_returned in Hk as [_ ->].
  destruct known; [|now injection H as <- <-].
  apply bind_returned in H as (? & entry & ? & He & H & ->).
  apply lift_returned in He as [_ ->].
  apply bind_returned in H as (? & outputs & ? & Ho & H & ->).
  apply lift_returned in Ho as [_ ->].
  apply bind_returned in H as (? & items & ? & Hi & H & ->).
  apply lift_returned in Hi as [_ ->].
  apply bind_returned in H as (e1 & acc & ? & Hrun & H & ->).
  injection H as <- <-.
  apply (for_fold_trace recorded) in Hrun.
  - unfold recorded in Hrun. simpl in *. now rewrite app_nil_r.
  - apply recorded_nil.
  - apply recorded_app.
  - intros. eapply save_node_recorded; eassumption.
Qed.

Lemma writes_no_write (evs : list event) :
  Forall no_write evs -> writes evs = [].
Proof.
  induction 1 as [|e l He _ IH]; auto. simpl. rewrite IH. now destruct e.
Qed.

(** X8.  The list [generate_image] returns is the list of the files it
    wrote, in the order of writing: every returned path was written, and
    nothing else was. *)
Theorem returned_paths_are_the_files_written
    s workflow output_dir timeout paths :
  let run := generate_image s workflow output_dir timeout in
  result_of run = Returned paths -> map fst (written run) = paths.
Proof.
  intros run. subst run. unfold written, events, result_of.
  destruct (generate_image _ _ _ _) as [evs r] eqn:H. simpl. intros ->.
  unfold generate_image in H.
  apply bind_returned in H as (e1 & [] & ? & Hm & H & ->).
  apply bind_returned in H as (e2 & [] & ? & Hp & H & ->).
  apply bind_returned in H as (e3 & prompt_id & ? & Hq & H & ->).
  apply bind_returned in H as (e4 & [] & ? & Hp1 & H & ->).
  apply bind_returned in H as (e5 & [] & ? & Hp2 & H & ->).
  apply bind_returned in H as (e6 & imgs & ? & Hw & H & ->).
  apply bind_returned in H as (e7 & h & e8 & Hh & H & ->).
  apply lift_returned in Hh as [_ ->].
  apply save_outputs_recorded in H.
  assert (W1 : writes e1 = []).
  { unfold makedirs in Hm. destruct (makedirs_ok _ _); [|discriminate].
    now injection Hm as <-. }
  assert (W3 : writes e3 = []).
  { apply writes_no_write.
    pose proof (queue_prompt_no_write (client_id s) (http_post s) workflow)
      as Q.
    unfold only in Q. now rewrite Hq in Q. }
  assert (W6 : writes e6 = []).
  { apply writes_no_write.
    pose proof (wait_for_completion_no_write (socket s) prompt_id timeout)
      as Q.
    unfold only in Q. now rewrite Hw in Q. }
  injection Hp as <-. injection Hp1 as <-. injection Hp2 as <-.
  rewrite !writes_app, W1, W3, W6. simpl. exact H.
Qed.

Lemma returned_paths_are_the_files_written_witness :
  map fst (written (generate_image one_image (JObj []) "output" 300))
  = ["output/out_20260102_030405.png"].
Proof.
  apply (returned_paths_are_the_files_written one_image (JObj []) "output"
           300).
  reflexivity.
Defined.

Lemma written_bind_cases {A B} (m : io A) (f : A -> io B) :
  written (bind m f)
  = written m ++ match result_of m with
                 | Returned a => written (f a)
                 | _ => []
                 end.
Proof.
  destruct m as [evs [a|e|]]; unfold written; simpl.
  - destruct (f a). apply writes_app.
  - now rewrite app_nil_r.
  - now rewrite app_nil_r.
Qed.

Lemma written_print {B} (l : line) (f : unit -> io B) :
  written (bind (print l) f) = written (f tt).
Proof. unfold written. simpl. now destruct (f tt). Qed.

(** X9.  [generate_image] writes no file before it has the history of the
    job: whenever a run has written a file, however the run ends, the
    submission returned a job identifier, the wait for that job returned
    and the history request was answered. *)
Theorem no_file_before_the_history s workflow output_dir timeout :
  let run := generate_image s workflow output_dir timeout in
  written run <> [] ->
  exists prompt_id imgs h,
    result_of (queue_prompt (client_id s) (http_post s) workflow)
    = Returned prompt_id
    /\ result_of (wait_for_completion (socket s) prompt_id timeout)
       = Returned imgs
    /\ history s prompt_id = Ok h.
Proof.
  intros run W. subst run. unfold generate_image in W.
  rewrite written_bind_cases in W.
  assert (Wm : written (makedirs s output_dir) = []).
  { unfold makedirs. now destruct (makedirs_ok _ _). }
  rewrite Wm in W. rewrite app_nil_l in W.
  destruct (result_of (makedirs s output_dir)) as [[]|e|]; try now destruct W.
  cbv beta iota in W. rewrite written_print in W.
  rewrite written_bind_cases in W.
  rewrite (no_write_written _ (queue_prompt_no_write _ _ _)) in W.
  rewrite app_nil_l in W.
  destruct (result_of (queue_prompt _ _ _)) as [prompt_id|e|] eqn:Q;
    try now destruct W.
  cbv beta iota in W. rewrite !written_print in W.
  rewrite written_bind_cases in W.
  rewrite (no_write_written _ (wait_for_completion_no_write _ _ _)) in W.
  rewrite app_nil_l in W.
  destruct (result_of (wait_for_completion _ _ _)) as [imgs|e|] eqn:Wt;
    try now destruct W.
  cbv beta iota in W. exists prompt_id, imgs.
  destruct (history s prompt_id) as [h|e]; [now exists h|].
  now destruct W.
Qed.

Lemma no_file_before_the_history_witness :
  exists prompt_id imgs h,
    result_of (queue_prompt (client_id one_image) (http_post one_image)
                 (JObj []))
    = Returned prompt_id
    /\ result_of (wait_for_completion (socket one_image) prompt_id 300)
       = Returned imgs
    /\ history one_image prompt_id = Ok h.
Proof.
  apply (no_file_before_the_history one_image (JObj []) "output" 300).
  discriminate.
Defined.

Lemma queue_prompt_prints cid post prompt :
  only is_print (queue_prompt cid post prompt).
Proof.
  unfold queue_prompt.
  assert (R : forall j, only is_print (report_error_json j)).
  { intros j. unfold report_error_json, report_node, report_node_error, loads,
      print.
    only_tac. }
  assert (E : forall msg resp, only is_print (on_request_exception msg resp)).
  { intros msg resp. unfold on_request_exception, loads, print. only_tac. }
  destruct (post _) as [msg resp|req]; auto.
  destruct (is_http_error req); auto.
  destruct (json_body req) as [j|]; auto.
  apply only_try_except.
  - unfold read_prompt_id, print. only_tac.
  - intros e k. unfold on_parse_error, print.
    destruct e; intros [= <-]; only_tac.
Qed.

(** X10.  [generate_image] handles no error of its steps.  When the
    submission fails the run fails with the same error and the
    notification channel is never opened; when the wait fails (a timeout
    included) or the history request fails, the run fails with that
    error. *)
Theorem run_fails_as_its_step_fails s workflow output_dir timeout e :
  makedirs_ok s output_dir = true ->
  let run := generate_image s workflow output_dir timeout in
  let submit := queue_prompt (client_id s) (http_post s) workflow in
  (result_of submit = Raised e ->
   result_of run = Raised e /\ ~ In WsOpen (events run))
  /\ (forall prompt_id,
        result_of submit = Returned prompt_id ->
        let wait := wait_for_completion (socket s) prompt_id timeout in
        (result_of wait = Raised e -> result_of run = Raised e)
        /\ (forall imgs,
              result_of wait = Returned imgs ->
              history s prompt_id = Raise e -> result_of run = Raised e)).
Proof.
  intros Mk run submit.
  assert (M : makedirs s output_dir = ([MakeDirs output_dir], Returned tt))
    by (unfold makedirs; now rewrite Mk).
  assert (P : forall l, result_of (print l) = Returned tt) by reflexivity.
  split.
  - intros Q. subst run. unfold generate_image. split.
    + rewrite (result_of_bind _ _ tt) by now rewrite M.
      rewrite (result_of_bind _ _ _ (P _)).
      now apply result_of_bind_raised.
    + rewrite (events_bind _ _ tt) by now rewrite M.
      rewrite (events_bind _ _ _ (P _)).
      rewrite (events_bind_raised _ _ _ Q). rewrite M. simpl.
      pose proof (queue_prompt_prints (client_id s) (http_post s) workflow)
        as O.
      unfold only in O. fold submit in O.
      intros [F|[F|F]]; try discriminate.
      rewrite Forall_forall in O. exact (O _ F).
  - intros prompt_id Q wait. subst run. unfold generate_image. split.
    + intros W.
      rewrite (result_of_bind _ _ tt) by now rewrite M.
      rewrite (result_of_bind _ _ _ (P _)), (result_of_bind _ _ _ Q),
        (result_of_bind _ _ _ (P _)), (result_of_bind _ _ _ (P _)).
      now apply result_of_bind_raised.
    + intros imgs W H.
      rewrite (result_of_bind _ _ tt) by now rewrite M.
      rewrite (result_of_bind _ _ _ (P _)), (result_of_bind _ _ _ Q),
        (result_of_bind _ _ _ (P _)), (result_of_bind _ _ _ (P _)),
        (result_of_bind _ _ _ W), H.
      reflexivity.
Qed.

Lemma run_fails_as_its_step_fails_witness :
  result_of (generate_image refused (JObj []) "output" 300)
  = Raised (RequestException "400 Client Error")
  /\ ~ In WsOpen (events (generate_image refused (JObj []) "output" 300)).
Proof.
  apply (run_fails_as_its_step_fails refused (JObj []) "output" 300
           (RequestException "400 Client Error") eq_refl).
  reflexivity.
Defined.

Lemma prefix_app (a b : string) : prefix a (a ++ b) = true.
Proof.
  induction a as [|c a IH]; simpl; [now destruct b|].
  now destruct (ascii_dec c c).
Qed.

Lemma startswith_sep_root (p : string) :
  startswith_sep (fst (splitext p)) = startswith_sep p.
Proof.
  unfold splitext.
  destruct (rfind sep p <? rfind extsep p)%Z eqn:L; auto.
  destruct (skip_leading_dots _ _ _) eqn:K; auto. simpl fst.
  destruct (Z.to_nat (rfind extsep p)) as [|n] eqn:D.
  - rewrite Nat.sub_0_l in K. discriminate.
  - now destruct p.
Qed.

Lemma startswith_sep_new_filename (filename timestamp : string) :
  startswith_sep (new_filename filename timestamp) = startswith_sep filename.
Proof.
  unfold new_filename. rewrite <- (startswith_sep_root filename).
  destruct (splitext filename) as [name ext]. simpl fst.
  now destruct name.
Qed.

Lemma join_placed (output_dir filename : string) today i data :
  placed output_dir today
    (FileWrite (join output_dir (new_filename filename (strftime (today i))))
       data).
Proof.
  exists filename, i. cbv zeta. split; [reflexivity|].
  unfold join. rewrite startswith_sep_new_filename.
  destruct (startswith_sep filename); [reflexivity|].
  destruct (_ || _); apply prefix_app.
Qed.

Lemma no_write_placed output_dir today e : no_write e -> placed output_dir today e.
Proof. now destruct e. Qed.

(** X11.  Where [generate_image] writes, however the run ends: each file
    goes to [os.path.join(output_dir, name)], [name] being the timestamped
    form of a file name.  The path begins with [output_dir], except when
    the file name begins with ["/"]: then [output_dir] is dropped and the
    file is written at that absolute path. *)
Theorem files_are_placed_by_join s workflow output_dir timeout :
  only (placed output_dir (today s))
    (generate_image s workflow output_dir timeout).
Proof.
  unfold generate_image, makedirs, print.
  assert (Q : forall pid,
             only (placed output_dir (today s))
               (queue_prompt (client_id s) (http_post s) pid)).
  { intros pid. eapply only_weaken; [apply no_write_placed|].
    apply queue_prompt_no_write. }
  assert (W : forall pid,
             only (placed output_dir (today s))
               (wait_for_completion (socket s) pid timeout)).
  { intros pid. eapply only_weaken; [apply no_write_placed|].
    apply wait_for_completion_no_write. }
  assert (I : forall acc info,
             only (placed output_dir (today s))
               (save_image s output_dir acc info)).
  { intros [saved i] info. unfold save_image, print.
    apply only_bind; [apply only_lift|intros filename].
    apply only_bind; [apply only_lift|intros subfolder].
    apply only_bind; [apply only_lift|intros folder_type].
    apply only_bind; [apply only_emit; exact I|intros _].
    apply only_bind; [apply only_lift|intros image_data].
    apply only_bind; [apply only_lift|intros path].
    apply only_bind; [|intros _; only_tac].
    destruct (writable s _); [|apply only_raise].
    apply only_emit. apply join_placed. }
  assert (N : forall acc item,
             only (placed output_dir (today s))
               (save_node s output_dir acc item)).
  { intros acc item. unfold save_node. only_tac. }
  unfold save_outputs. only_tac.
Qed.

Lemma save_image_fails s output_dir acc bad e :
  fetched s bad = Raise e ->
  exists evs,
    save_image s output_dir acc bad = (evs, Raised e) /\ writes evs = [].
Proof.
  destruct acc as [saved i]. unfold fetched, save_image, Patch.and_then.
  destruct (py_getitem bad (JStr "filename")) as [filename|e1];
    [|intros [= ->]; now exists []].
  destruct (py_get bad "subfolder" (JStr "")) as [subfolder|e2];
    [|intros [= ->]; now exists []].
  destruct (py_get bad "type" (JStr "output")) as [folder_type|e3];
    [|intros [= ->]; now exists []].
  intros V. simpl. rewrite V. simpl. eexists. split; reflexivity.
Qed.

Lemma save_images_fail s output_dir before bad after e : forall saved i files,
  artifacts s output_dir i before = Some files ->
  fetched s bad = Raise e ->
  exists evs,
    for_fold (before ++ bad :: after) (save_image s output_dir) (saved, i)
    = (evs, Raised e)
    /\ writes evs = files.
Proof.
  induction before as [|info l IH]; intros saved i files;
    cbn [for_fold artifacts app].
  - intros [= <-] F.
    destruct (save_image_fails s output_dir (saved, i) bad e F)
      as (evs & E & W).
    exists evs. now rewrite E.
  - destruct (artifact s output_dir i info) as [[path data]|] eqn:E;
      try discriminate.
    destruct (artifacts s output_dir (S i) l) as [rest|] eqn:R;
      try discriminate.
    intros [= <-] F.
    destruct (save_image_run s output_dir saved i info path data E)
      as (evs1 & H1 & W1).
    destruct (IH (saved ++ [path]) (S i) rest R F) as (evs2 & H2 & W2).
    exists (evs1 ++ evs2). rewrite (bind_step _ _ _ _ H1), H2.
    cbn [fst snd]. now rewrite writes_app, W1, W2.
Qed.

Lemma save_node_fails s output_dir saved i item before bad after files e :
  node_images (snd item) = before ++ bad :: after ->
  artifacts s output_dir i before = Some files ->
  fetched s bad = Raise e ->
  exists evs,
    save_node s output_dir (saved, i) item = (evs, Raised e)
    /\ writes evs = files.
Proof.
  destruct item as [node_id node_output]. unfold save_node. simpl snd.
  unfold node_images.
  destruct node_output as [| | | | |o]; try now destruct before.
  unfold py_in, py_getitem.
  destruct (assoc "images" o) as [[| | | |l|]|]; try now destruct before.
  intros -> A F.
  destruct (save_images_fail s output_dir before bad after e saved i files A F)
    as (evs & E & W).
  exists evs. simpl. rewrite E. now split.
Qed.

Lemma save_nodes_fail s output_dir bad after e nodes :
  forall before saved i files,
  Forall (fun kv => node_output_ok (snd kv)) nodes ->
  flat_map (fun kv => node_images (snd kv)) nodes = before ++ bad :: after ->
  artifacts s output_dir i before = Some files ->
  fetched s bad = Raise e ->
  exists evs,
    for_fold nodes (save_node s output_dir) (saved, i) = (evs, Raised e)
    /\ writes evs = files.
Proof.
  induction nodes as [|item nodes IH]; intros before saved i files Hok;
    cbn [for_fold flat_map].
  - now destruct before.
  - inversion Hok as [|? ? Hitem Hrest]; subst. intros S A F.
    assert (D : (exists m, node_images (snd item) = before ++ bad :: m)
                \/ exists m,
                     before = node_images (snd item) ++ m
                     /\ flat_map (fun kv => node_images (snd kv)) nodes
                        = m ++ bad :: after).
    { apply app_eq_app in S as [m [[S1 S2]|[S1 S2]]].
      - destruct m as [|x m].
        + right. exists []. now rewrite app_nil_r in *.
        + injection S2 as -> _. left. now exists m.
      - right. now exists m. }
    destruct D as [[m D]|[m [-> D]]].
    + destruct (save_node_fails s output_dir saved i item before bad m
                  files e D A F) as (evs & E & W).
      exists evs. now rewrite E.
    + apply artifacts_app in A as (f1 & f2 & A1 & A2 & ->).
      destruct (save_node_run s output_dir saved i item f1 Hitem A1)
        as (evs1 & E1 & W1).
      destruct (IH m (saved ++ map fst f1) _ f2 Hrest D A2 F)
        as (evs2 & E2 & W2).
      exists (evs1 ++ evs2). rewrite (bind_step _ _ _ _ E1), E2.
      cbn [fst snd]. now rewrite writes_app, W1, W2.
Qed.

Lemma save_outputs_fails s output_dir id h before bad after files e :
  history_ok id h ->
  history_images id h = before ++ bad :: after ->
  artifacts s output_dir 0 before = Some files ->
  fetched s bad = Raise e ->
  exists evs,
    save_outputs s output_dir h (JStr id) = (evs, Raised e)
    /\ writes evs = files.
Proof.
  unfold history_ok, history_images, save_outputs.
  destruct h as [| | | | |m]; try contradiction.
  unfold py_in, py_getitem.
  destruct (assoc id m) as [[| | | | |entry]|]; try contradiction;
    try now destruct before.
  destruct (assoc "outputs" entry) as [[| | | | |nodes]|] eqn:Eo;
    try contradiction.
  intros Hok S A F.
  destruct (save_nodes_fail s output_dir bad after e nodes before [] 0 files
              Hok S A F) as (evs & E & W).
  exists evs. simpl. rewrite Eo. simpl. rewrite E. now split.
Qed.

Lemma generate_image_saves s workflow output_dir timeout prompt_id imgs h :
  makedirs_ok s output_dir = true ->
  result_of (queue_prompt (client_id s) (http_post s) workflow)
  = Returned prompt_id ->
  result_of (wait_for_completion (socket s) prompt_id timeout)
  = Returned imgs ->
  history s prompt_id = Ok h ->
  let run := generate_image s workflow output_dir timeout in
  result_of run = result_of (save_outputs s output_dir h prompt_id)
  /\ written run = written (save_outputs s output_dir h prompt_id).
Proof.
  intros Hmk Hq Hw Hh.
  assert (Mk : result_of (makedirs s output_dir) = Returned tt)
    by (unfold makedirs; now rewrite Hmk).
  assert (Wmk : written (makedirs s output_dir) = [])
    by (unfold makedirs; now rewrite Hmk).
  pose proof (no_write_written _ (queue_prompt_no_write (client_id s)
                                    (http_post s) workflow)) as Wq.
  pose proof (no_write_written _ (wait_for_completion_no_write (socket s)
                                    prompt_id timeout)) as Ww.
  assert (P : forall l, result_of (print l) = Returned tt) by reflexivity.
  assert (L : result_of (lift (Ok h)) = Returned h) by reflexivity.
  unfold generate_image. split.
  - rewrite (result_of_bind _ _ _ Mk), (result_of_bind _ _ _ (P _)),
      (result_of_bind _ _ _ Hq), (result_of_bind _ _ _ (P _)),
      (result_of_bind _ _ _ (P _)), (result_of_bind _ _ _ Hw), Hh,
      (result_of_bind _ _ _ L).
    reflexivity.
  - rewrite (written_bind _ _ _ Mk), (written_bind _ _ _ (P _)),
      (written_bind _ _ _ Hq), (written_bind _ _ _ (P _)),
      (written_bind _ _ _ (P _)), (written_bind _ _ _ Hw), Hh,
      (written_bind _ _ _ L), Wmk, Wq, Ww.
    reflexivity.
Qed.

(** X12.  No partial success and no rollback.  With a history response of
    the documented shape, when the images listed before some image are
    fetched and written and the fetch of that image fails, the run fails
    with the error of the fetch and the files of the earlier images stay
    written: they are the files the run wrote. *)
Theorem failed_fetch_keeps_earlier_files
    s workflow output_dir timeout id imgs h before bad after files e :
  makedirs_ok s output_dir = true ->
  result_of (queue_prompt (client_id s) (http_post s) workflow)
  = Returned (JStr id) ->
  result_of (wait_for_completion (socket s) (JStr id) timeout)
  = Returned imgs ->
  history s (JStr id) = Ok h ->
  history_ok id h ->
  history_images id h = before ++ bad :: after ->
  artifacts s output_dir 0 before = Some files ->
  fetched s bad = Raise e ->
  let run := generate_image s workflow output_dir timeout in
  result_of run = Raised e /\ written run = files.
Proof.
  intros Hmk Hq Hw Hh Hok S A F run.
  destruct (save_outputs_fails s output_dir id h before bad after files e
              Hok S A F) as (evs & E & W).
  destruct (generate_image_saves s workflow output_dir timeout (JStr id) imgs
              h Hmk Hq Hw Hh) as [R Wr].
  fold run in R, Wr. rewrite R, Wr, E. now split.
Qed.

Lemma failed_fetch_keeps_earlier_files_witness :
  result_of (generate_image second_is_missing (JObj []) "output" 300)
  = Raised (RequestException "404")
  /\ written (generate_image second_is_missing (JObj []) "output" 300)
     = [("output/a_20260102_030405.png", [])].
Proof.
  apply (failed_fetch_keeps_earlier_files second_is_missing (JObj [])
           "output" 300 "job" []
           (JObj [("job",
                   JObj [("outputs",
                          JObj [("9", JObj [("images",
                                             JArr [image_ref "a.png";
                                                   image_ref "b.png"])])])])])
           [image_ref "a.png"] (image_ref "b.png") []
           [("output/a_20260102_030405.png", [])]
           (RequestException "404"));
    try reflexivity.
  simpl. repeat constructor.
Defined.

End RunMore.

(** ** The patch helpers: what a patch changes *)

Section PatchMore.

Import Path Patch Spec More.

Lemma assoc_set_same k v m : assoc k (assoc_set k v m) = Some v.
Proof.
  induction m as [|[k' v'] m IH]; simpl.
  - now rewrite String.eqb_refl.
  - destruct (String.eqb k k') eqn:E; simpl; now rewrite E.
Qed.

Lemma assoc_set_other k k' v m :
  k' <> k -> assoc k' (assoc_set k v m) = assoc k' m.
Proof.
  intros N. induction m as [|[a w] m IH]; simpl.
  - destruct (String.eqb_spec k' k); [contradiction|reflexivity].
  - destruct (String.eqb_spec k a) as [->|Na]; simpl.
    + destruct (String.eqb_spec k' a); [contradiction|reflexivity].
    + now destruct (String.eqb k' a).
Qed.

Lemma assoc_set_keys k v w m :
  assoc k m = Some w -> map fst (assoc_set k v m) = map fst m.
Proof.
  induction m as [|[a x] m IH]; simpl; [discriminate|].
  destruct (String.eqb k a); simpl; [reflexivity|].
  intros H. now rewrite IH.
Qed.

Lemma set_input_ok wf node_id field value wf' :
  set_input wf node_id field value = Ok wf' ->
  exists record inputs,
    assoc node_id wf = Some (JObj record)
    /\ assoc "inputs" record = Some (JObj inputs)
    /\ wf' = assoc_set node_id
               (JObj (assoc_set "inputs" (JObj (assoc_set field value inputs))
                        record)) wf.
Proof.
  unfold set_input, node, and_then. simpl.
  destruct (assoc node_id wf) as [record|]; [|discriminate].
  destruct (py_getitem record (JStr "inputs")) as [inputs|] eqn:I;
    [|discriminate].
  destruct inputs as [| | | | |inputs]; try discriminate. simpl.
  destruct record as [| | | | |record]; try discriminate. simpl.
  intros [= <-]. exists record, inputs. split; [reflexivity|].
  split; [|reflexivity].
  simpl in I. destruct (assoc "inputs" record); now inversion I.
Qed.

Lemma set_input_present wf node_id field value record inputs :
  assoc node_id wf = Some (JObj record) ->
  assoc "inputs" record = Some (JObj inputs) ->
  set_input wf node_id field value
  = Ok (assoc_set node_id
          (JObj (assoc_set "inputs" (JObj (assoc_set field value inputs))
                   record)) wf).
Proof.
  intros Hn Hi. unfold set_input, node, and_then. simpl. rewrite Hn. simpl.
  now rewrite Hi.
Qed.

Lemma same_but_refl wf node_id field : same_but wf wf node_id field.
Proof. now repeat split. Qed.

Lemma set_input_same_but wf node_id field value wf' :
  set_input wf node_id field value = Ok wf' -> same_but wf wf' node_id field.
Proof.
  intros H. apply set_input_ok in H as (record & inputs & Hn & Hi & ->).
  repeat split.
  - eapply assoc_set_keys; eassumption.
  - intros n N. now apply assoc_set_other.
  - intros m N. unfold member_of. rewrite assoc_set_same, Hn.
    now apply assoc_set_other.
  - intros f N. unfold input_of. rewrite assoc_set_same, Hn, Hi.
    rewrite assoc_set_same. now apply assoc_set_other.
Qed.

Lemma set_input_read_back wf node_id field value wf' :
  set_input wf node_id field value = Ok wf' ->
  input_of wf' node_id field = Some value.
Proof.
  intros H. apply set_input_ok in H as (record & inputs & Hn & Hi & ->).
  unfold input_of. now rewrite !assoc_set_same.
Qed.

Lemma lift_result {A} (r : result A) a :
  result_of (lift r) = Returned a -> r = Ok a.
Proof. destruct r; simpl; now intros [= ->]. Qed.

Lemma result_bind_returned {A B} (m : io A) (f : A -> io B) b :
  result_of (bind m f) = Returned b ->
  exists a, result_of m = Returned a /\ result_of (f a) = Returned b.
Proof.
  destruct m as [evs [a|e|]]; simpl; try discriminate.
  destruct (f a) as [evs' r] eqn:E. simpl. intros ->. exists a.
  now rewrite E.
Qed.

Lemma patch_image_same_but client image_path node_id wf wf' :
  result_of (patch_image client image_path node_id wf) = Returned wf' ->
  same_but wf wf' node_id "image".
Proof.
  unfold patch_image.
  destruct (given image_path) as [path|];
    [|intros [= <-]; apply same_but_refl].
  destruct (has_node node_id wf); [|intros [= <-]; apply same_but_refl].
  intros H. apply result_bind_returned in H as (v & _ & H).
  apply lift_result in H. eapply set_input_same_but; eassumption.
Qed.

Lemma same_but_nodes wf wf' node_id field ids :
  same_but wf wf' node_id field -> In node_id ids -> same_nodes_but wf wf' ids.
Proof.
  intros (K & O & _) I. split; [exact K|].
  intros n N. apply O. intros ->. contradiction.
Qed.

Lemma same_nodes_but_trans a b c ids :
  same_nodes_but a b ids -> same_nodes_but b c ids -> same_nodes_but a c ids.
Proof.
  intros [K1 O1] [K2 O2]. split; [congruence|].
  intros n N. now rewrite O2, O1.
Qed.

(** X13.  A patch helper that returns has changed at most the input it
    targets: the workflow has the same node identifiers in the same order,
    every other node has the record it had, and the targeted node has
    the other members and the other inputs it had.  The three-image helper
    keeps the node identifiers and every node but 78, 106 and 108. *)
Theorem patchers_change_one_input (wf wf' : workflow) :
  (forall prompt,
      result_of (update_workflow_prompt wf prompt) = Returned wf' ->
      same_but wf wf' "111" "prompt")
  /\ (forall lora_name node_id,
        result_of (update_workflow_lora wf lora_name node_id) = Returned wf' ->
        same_but wf wf' node_id "lora_name")
  /\ (forall seed node_id random_seed,
        result_of (update_workflow_seed wf seed node_id random_seed)
        = Returned wf' ->
        same_but wf wf' node_id "seed")
  /\ (forall client image_path node_id,
        result_of (update_workflow_image wf client image_path node_id)
        = Returned wf' ->
        same_but wf wf' node_id "image")
  /\ (forall client image1_path image2_path image3_path,
        result_of (update_workflow_images wf client image1_path image2_path
                     image3_path) = Returned wf' ->
        same_nodes_but wf wf' ["78"; "106"; "108"]).
Proof.
  split; [|split; [|split; [|split]]].
  - intros prompt. unfold update_workflow_prompt.
    destruct (has_node "111" wf); [|intros [= <-]; apply same_but_refl].
    intros H. apply lift_result in H. eapply set_input_same_but; eassumption.
  - intros name node_id. unfold update_workflow_lora.
    destruct (given name) as [nm|]; [|intros [= <-]; apply same_but_refl].
    destruct (has_node node_id wf); [|intros [= <-]; apply same_but_refl].
    intros H. apply result_bind_returned in H as ([] & _ & H);
      [|injection H as <-; apply same_but_refl].
    apply result_bind_returned in H as (wf1 & S & H).
    apply lift_result in S. apply result_bind_returned in H as (? & _ & H).
    injection H as <-. eapply set_input_same_but; eassumption.
  - intros seed node_id rnd. unfold update_workflow_seed.
    destruct seed as [value|];
      (destruct (has_node node_id wf); [|intros [= <-]; apply same_but_refl]);
      intros H; apply result_bind_returned in H as ([] & _ & H);
      try (injection H as <-; apply same_but_refl);
      apply result_bind_returned in H as (wf1 & S & H);
      apply lift_result in S; apply result_bind_returned in H as (? & _ & H);
      injection H as <-; eapply set_input_same_but; eassumption.
  - intros client image_path node_id. unfold update_workflow_image.
    destruct (given image_path) as [path|];
      [|intros [= <-]; apply same_but_refl].
    destruct (has_node node_id wf); [|intros [= <-]; apply same_but_refl].
    intros H. apply result_bind_returned in H as (v & _ & H).
    apply result_bind_returned in H as (wf1 & S & H).
    apply lift_result in S. apply result_bind_returned in H as (? & _ & H).
    injection H as <-. eapply set_input_same_but; eassumption.
  - intros client p1 p2 p3. unfold update_workflow_images. intros H.
    apply result_bind_returned in H as (wf1 & H1 & H).
    apply result_bind_returned in H as (wf2 & H2 & H3).
    apply patch_image_same_but in H1, H2, H3.
    eapply same_nodes_but_trans; [|eapply same_nodes_but_trans].
    + eapply same_but_nodes; [exact H1|simpl; auto].
    + eapply same_but_nodes; [exact H2|simpl; auto].
    + eapply same_but_nodes; [exact H3|simpl; auto].
Qed.

Lemma patchers_change_one_input_witness :
  same_but
    [("3", JObj [("class_type", JStr "KSampler");
                 ("inputs", JObj [("seed", JNum 1); ("steps", JNum 20)])]);
     ("111", JObj [("inputs", JObj [("prompt", JStr "a dog")])])]
    [("3", JObj [("class_type", JStr "KSampler");
                 ("inputs", JObj [("seed", JNum 7); ("steps", JNum 20)])]);
     ("111", JObj [("inputs", JObj [("prompt", JStr "a dog")])])]
    "3" "seed".
Proof.
  apply (patchers_change_one_input
           [("3", JObj [("class_type", JStr "KSampler");
                        ("inputs", JObj [("seed", JNum 1); ("steps", JNum 20)])]);
            ("111", JObj [("inputs", JObj [("prompt", JStr "a dog")])])]
           [("3", JObj [("class_type", JStr "KSampler");
                        ("inputs", JObj [("seed", JNum 7); ("steps", JNum 20)])]);
            ("111", JObj [("inputs", JObj [("prompt", JStr "a dog")])])])
    with (seed := Some 7%Z) (random_seed := 0%Z).
  reflexivity.
Defined.

Lemma has_inputs_shape wf node_id :
  has_inputs wf node_id = true ->
  exists record inputs,
    assoc node_id wf = Some (JObj record)
    /\ assoc "inputs" record = Some (JObj inputs).
Proof.
  unfold has_inputs, member_of.
  destruct (assoc node_id wf) as [[| | | | |record]|]; try discriminate.
  destruct (assoc "inputs" record) as [[| | | | |inputs]|] eqn:I;
    try discriminate.
  intros _. now exists record, inputs.
Qed.

Lemma input_of_shape wf node_id field :
  input_of wf node_id field <> None ->
  exists record inputs old,
    assoc node_id wf = Some (JObj record)
    /\ assoc "inputs" record = Some (JObj inputs)
    /\ assoc field inputs = Some old.
Proof.
  unfold input_of.
  destruct (assoc node_id wf) as [[| | | | |record]|]; try now intros [].
  destruct (assoc "inputs" record) as [[| | | | |inputs]|] eqn:I;
    try now intros [].
  destruct (assoc field inputs) as [old|] eqn:F; [|now intros []].
  intros _. now exists record, inputs, old.
Qed.

Lemma has_input_present wf node_id field record inputs old :
  assoc node_id wf = Some (JObj record) ->
  assoc "inputs" record = Some (JObj inputs) ->
  assoc field inputs = Some old ->
  has_input wf node_id field = Ok true.
Proof.
  intros Hn Hi Hf. unfold has_input, node, and_then. simpl. rewrite Hn. simpl.
  rewrite Hi. simpl. now rewrite ?Hi, Hf.
Qed.

Lemma given_nonempty (path : string) : path <> "" -> given (Some path) = Some path.
Proof.
  intros N. unfold given. now destruct (String.eqb_spec path "").
Qed.

(** X14.  A patch is read back.  On a node that has an ['inputs'] [dict],
    the prompt helper and, without a client, the image helper return a
    workflow in which the field holds the new prompt, or the base name of
    the path.  On a node that has the field, the LoRA helper returns a
    workflow in which it holds the new name, and the seed helper one in
    which it holds the seed given, or the random draw when none is
    given. *)
Theorem patched_input_is_read_back (wf : workflow) (node_id : string) :
  (node_id = "111" -> has_inputs wf node_id = true ->
   forall prompt, exists wf',
     update_workflow_prompt wf prompt = ret wf'
     /\ input_of wf' "111" "prompt" = Some (JStr prompt))
  /\ (input_of wf node_id "lora_name" <> None ->
      forall name, name <> "" -> exists wf',
        result_of (update_workflow_lora wf (Some name) node_id) = Returned wf'
        /\ input_of wf' node_id "lora_name" = Some (JStr name))
  /\ (input_of wf node_id "seed" <> None ->
      forall seed random_seed, exists wf',
        result_of (update_workflow_seed wf seed node_id random_seed)
        = Returned wf'
        /\ input_of wf' node_id "seed"
           = Some (JNum (match seed with
                         | Some value => value
                         | None => random_seed
                         end)))
  /\ (has_inputs wf node_id = true ->
      forall path, path <> "" -> exists wf',
        result_of (update_workflow_image wf None (Some path) node_id)
        = Returned wf'
        /\ input_of wf' node_id "image" = Some (JStr (basename path))).
Proof.
  split; [|split; [|split]].
  - intros -> H prompt.
    apply has_inputs_shape in H as (record & inputs & Hn & Hi).
    pose proof (set_input_present wf "111" "prompt" (JStr prompt) _ _ Hn Hi)
      as S.
    eexists. unfold update_workflow_prompt.
    rewrite (has_node_present _ _ _ Hn), S. split; [reflexivity|].
    eapply set_input_read_back; eassumption.
  - intros H name N.
    apply input_of_shape in H as (record & inputs & old & Hn & Hi & Hf).
    pose proof (set_input_present wf node_id "lora_name" (JStr name) _ _ Hn Hi)
      as S.
    eexists. unfold update_workflow_lora.
    rewrite (given_nonempty _ N), (has_node_present _ _ _ Hn),
      (has_input_present _ _ _ _ _ _ Hn Hi Hf), S.
    split; [reflexivity|]. eapply set_input_read_back; eassumption.
  - intros H seed rnd.
    apply input_of_shape in H as (record & inputs & old & Hn & Hi & Hf).
    pose proof (fun v => set_input_present wf node_id "seed" (JNum v) _ _ Hn Hi)
      as S.
    unfold update_workflow_seed.
    rewrite (has_node_present _ _ _ Hn),
      (has_input_present _ _ _ _ _ _ Hn Hi Hf).
    destruct seed as [value|]; rewrite S; eexists;
      (split; [reflexivity|]; eapply set_input_read_back; apply S).
  - intros H path N.
    apply has_inputs_shape in H as (record & inputs & Hn & Hi).
    pose proof (set_input_present wf node_id "image" (JStr (basename path))
                  _ _ Hn Hi) as S.
    eexists. unfold update_workflow_image.
    rewrite (given_nonempty _ N), (has_node_present _ _ _ Hn).
    simpl image_value.
    rewrite (result_of_bind _ _ (JStr (basename path))) by reflexivity.
    rewrite S. split; [reflexivity|].
    eapply set_input_read_back; eassumption.
Qed.

Lemma patched_input_is_read_back_witness :
  exists wf',
    result_of
      (update_workflow_seed
         [("3", JObj [("inputs", JObj [("seed", JNum 1)])])] None "3" 42%Z)
    = Returned wf'
    /\ input_of wf' "3" "seed" = Some (JNum 42).
Proof.
  destruct (patched_input_is_read_back
              [("3", JObj [("inputs", JObj [("seed", JNum 1)])])] "3")
    as (_ & _ & S & _).
  apply (S ltac:(discriminate) None 42%Z).
Defined.

Lemma assoc_set_twice k v1 v2 m :
  assoc_set k v2 (assoc_set k v1 m) = assoc_set k v2 m.
Proof.
  induction m as [|[a w] m IH]; simpl.
  - now rewrite String.eqb_refl.
  - destruct (String.eqb k a) eqn:E; simpl; rewrite E; [reflexivity|].
    now rewrite IH.
Qed.

Lemma set_input_error wf node_id field v1 v2 e :
  set_input wf node_id field v1 = Raise e ->
  set_input wf node_id field v2 = Raise e.
Proof.
  unfold set_input, node, and_then. simpl.
  destruct (assoc node_id wf) as [record|]; [|auto].
  destruct (py_getitem record (JStr "inputs")) as [inputs|]; [|auto].
  destruct inputs as [| | | | |inputs]; auto. simpl.
  destruct record as [| | | | |record]; auto. discriminate.
Qed.

Lemma set_input_twice wf node_id field v1 v2 wf1 :
  set_input wf node_id field v1 = Ok wf1 ->
  set_input wf1 node_id field v2 = set_input wf node_id field v2.
Proof.
  intros H. apply set_input_ok in H as (record & inputs & Hn & Hi & ->).
  rewrite (set_input_present wf _ _ _ _ _ Hn Hi).
  erewrite set_input_present;
    [|apply assoc_set_same|apply assoc_set_same].
  now rewrite !assoc_set_twice.
Qed.

(** X15.  The last prompt wins: setting a prompt and then another one
    gives what setting the second alone gives, the same workflow or the
    same error; setting the same prompt twice changes nothing more. *)
Theorem last_prompt_wins (wf : workflow) (first second : string) :
  (wf1 <- update_workflow_prompt wf first ;; update_workflow_prompt wf1 second)
  = update_workflow_prompt wf second.
Proof.
  unfold update_workflow_prompt.
  destruct (has_node "111" wf) eqn:N; [|simpl; now rewrite N].
  destruct (set_input wf "111" "prompt" (JStr first)) as [wf1|e] eqn:S.
  - pose proof S as S1. apply set_input_ok in S1 as (record & inputs & Hn & _).
    pose proof (set_input_twice _ _ _ _ (JStr second) _ S) as T.
    apply set_input_ok in S as (r & i & Hr & _ & ->).
    simpl. unfold has_node. rewrite assoc_set_same.
    fold (has_node "111" wf). simpl in T. rewrite T.
    now destruct (set_input wf "111" "prompt" (JStr second)).
  - now rewrite (set_input_error _ _ _ _ (JStr second) _ S).
Qed.

End PatchMore.

(** ** The addresses of the service *)

Section Addresses.

Import Path Net More.
Local Open Scope string_scope.

Lemma rstrip_shape (s : string) :
  exists n, s = rstrip "/" s ++ slashes n /\ endswith_sep (rstrip "/" s) = false.
Proof.
  induction s as [|a s (n & E & F)]; [now exists O|].
  cbn [rstrip]. destruct (rstrip "/" s) as [|b r] eqn:R.
  - simpl in E. unfold sep in *. destruct (Ascii.eqb_spec a "/") as [->|N].
    + exists (S n). simpl. now rewrite <- E.
    + exists n. simpl. rewrite <- E. split; [reflexivity|].
      now apply Ascii.eqb_neq.
  - exists n. split; [simpl in *; now rewrite <- E|exact F].
Qed.

Lemma lstrip_shape (p : string) :
  exists m,
    p = slashes m ++ lstrip "/" p /\ startswith_sep (lstrip "/" p) = false.
Proof.
  induction p as [|a p (m & E & F)]; [now exists O|].
  cbn [lstrip]. unfold sep in *. destruct (Ascii.eqb_spec a "/") as [->|N].
  - exists (S m). simpl. now rewrite <- E.
  - exists O. split; [reflexivity|]. simpl. now apply Ascii.eqb_neq.
Qed.

(** X16.  [_build_url] joins the address and the path with exactly one
    slash, whatever slashes the address ends with and the path begins
    with: the result is the address without its trailing slashes, a slash,
    and the path without its leading slashes. *)
Theorem build_url_joins_with_one_slash (server_address path : string) :
  exists base rest n m,
    server_address = base ++ slashes n
    /\ path = slashes m ++ rest
    /\ endswith_sep base = false
    /\ startswith_sep rest = false
    /\ build_url server_address path = base ++ "/" ++ rest.
Proof.
  destruct (rstrip_shape server_address) as (n & E & F).
  destruct (lstrip_shape path) as (m & E' & F').
  exists (rstrip "/" server_address), (lstrip "/" path), n, m.
  repeat split; assumption.
Qed.

Lemma replace_absent (old new s : string) :
  contains old s = false -> replace old new s = s.
Proof.
  unfold replace. induction s as [|a s IH]; [reflexivity|].
  cbn [contains replace_from]. intros H.
  apply Bool.orb_false_iff in H as [P C]. rewrite P. now rewrite IH.
Qed.

Lemma replace_skip (old new x s : string) :
  replace_from old new (String.length x) (x ++ s) = replace_from old new 0 s.
Proof.
  induction x as [|a x IH]; simpl; [now destruct s|exact IH].
Qed.

Lemma replace_at (c : ascii) (old' new s : string) :
  replace (String c old') new (String c old' ++ s)
  = new ++ replace (String c old') new s.
Proof.
  unfold replace. cbn [append replace_from].
  change (String c (old' ++ s)) with (String c old' ++ s).
  rewrite prefix_app. cbn [String.length]. rewrite Nat.sub_succ, Nat.sub_0_r.
  now rewrite replace_skip.
Qed.

Lemma rstrip_app (x h : string) :
  rstrip "/" h <> "" -> rstrip "/" (x ++ h) = x ++ rstrip "/" h.
Proof.
  intros N. induction x as [|a x IH]; [reflexivity|].
  cbn [append rstrip]. rewrite IH.
  destruct x; [|reflexivity]. simpl.
  destruct (rstrip "/" h); [contradiction|reflexivity].
Qed.

(** X17.  The channel address follows the scheme of the service address.
    For a host part that keeps something when its trailing slashes are
    removed and in which the scheme does not occur again, an [http://]
    address gives the [ws://] address of the same host and path, and an
    [https://] address the [wss://] one. *)
Theorem ws_address_follows_the_scheme (host path : string) :
  rstrip "/" host <> "" ->
  (contains "http://" host = false ->
   build_url ("http://" ++ host) path = "http://" ++ build_url host path
   /\ build_ws_url ("http://" ++ host) path = "ws://" ++ build_url host path)
  /\ (contains "https://" host = false ->
      build_url ("https://" ++ host) path = "https://" ++ build_url host path
      /\ build_ws_url ("https://" ++ host) path
         = "wss://" ++ build_url host path).
Proof.
  intros N. unfold build_url, build_ws_url. split; intros C; split.
  - now rewrite (rstrip_app "http://" host N), app_assoc_s.
  - change (prefix "https://" ("http://" ++ host)) with false. cbv iota.
    rewrite (replace_at "h" "ttp://" "ws://" host), (replace_absent _ _ _ C).
    now rewrite (rstrip_app "ws://" host N), app_assoc_s.
  - now rewrite (rstrip_app "https://" host N), app_assoc_s.
  - rewrite (prefix_app "https://" host).
    rewrite (replace_at "h" "ttps://" "wss://" host), (replace_absent _ _ _ C).
    now rewrite (rstrip_app "wss://" host N), app_assoc_s.
Qed.

Lemma ws_address_follows_the_scheme_witness :
  build_ws_url "https://comfy.example:8188/" "ws"
  = "wss://" ++ build_url "comfy.example:8188/" "ws".
Proof.
  destruct (ws_address_follows_the_scheme "comfy.example:8188/" "ws")
    as [_ S]; [discriminate|].
  apply S. reflexivity.
Defined.

(** X18.  An address without a scheme gets none: when the service address
    neither begins with [https://] nor contains [http://], the channel
    address [_build_ws_url] gives is the address [_build_url] gives, with no
    [ws://] or [wss://] in front. *)
Theorem ws_address_without_scheme (server_address path : string) :
  prefix "https://" server_address = false ->
  contains "http://" server_address = false ->
  build_ws_url server_address path = build_url server_address path.
Proof.
  intros P C. unfold build_ws_url, build_url. rewrite P.
  now rewrite (replace_absent _ _ _ C).
Qed.

Lemma ws_address_without_scheme_witness :
  build_ws_url "localhost:8188" "ws" = build_url "localhost:8188" "ws".
Proof.
  apply (ws_address_without_scheme "localhost:8188" "ws"); reflexivity.
Defined.

End Addresses.

(** ** [upload_image] *)

Section Uploads.

Import Path Client Patch Net More Examples.

Lemma on_upload_exception_raises msg resp :
  result_of (on_upload_exception msg resp) = Raised (RequestException msg).
Proof. unfold on_upload_exception. now destruct resp. Qed.

Lemma read_upload_returns r image_path subfolder v :
  result_of (read_upload r image_path subfolder) = Returned v ->
  exists name sub, v = input_reference name sub.
Proof.
  unfold read_upload.
  destruct (upload_is_http_error r);
    [now rewrite on_upload_exception_raises|].
  destruct (negb _).
  { intros [= <-]. now eexists _, _. }
  destruct (u_body r) as [result|msg [|]].
  - destruct result as [| | | | |m]; try discriminate.
    intros [= <-]. now eexists _, _.
  - now rewrite on_upload_exception_raises.
  - intros [= <-]. now eexists _, _.
Qed.

Lemma upload_result_shape u image_path subfolder overwrite v :
  result_of (upload_image u image_path subfolder overwrite) = Returned v ->
  exists name sub, v = input_reference name sub.
Proof.
  unfold upload_image.
  destruct (file_exists u image_path); [|discriminate]. cbn [negb].
  destruct (file_opens u image_path); [|discriminate]. cbn [negb].
  rewrite (result_of_bind _ _ tt) by reflexivity.
  destruct (post_upload u _) as [msg resp|r].
  - now rewrite on_upload_exception_raises.
  - apply read_upload_returns.
Qed.

(** X19.  Whatever [upload_image] returns is a reference to an input file:
    a [dict] with exactly the members ['filename'], ['subfolder'] and
    ['type'], the last being ['input'].  A caller's [result['filename']]
    cannot fail. *)
Theorem upload_returns_an_input_reference u image_path subfolder overwrite v :
  result_of (upload_image u image_path subfolder overwrite) = Returned v ->
  exists name sub,
    v = input_reference name sub
    /\ py_getitem v (JStr "filename") = Ok name.
Proof.
  intros H.
  destruct (upload_result_shape _ _ _ _ _ H) as (name & sub & ->).
  now exists name, sub.
Qed.

Lemma upload_returns_an_input_reference_witness :
  exists name sub,
    JObj [("filename", JStr "cat (1).png"); ("subfolder", JStr "");
          ("type", JStr "input")]
    = input_reference name sub
    /\ py_getitem
         (JObj [("filename", JStr "cat (1).png"); ("subfolder", JStr "");
                ("type", JStr "input")]) (JStr "filename")
       = Ok name.
Proof.
  apply (upload_returns_an_input_reference renamed_by_the_service
           "in/cat.png" "" true).
  reflexivity.
Defined.

(** X20.  The errors of [upload_image]: [FileNotFoundError] for a missing
    file, the error of [open], [RequestException] from the request, the
    status or the decoding of the answer, and [AttributeError] for an
    answer that is JSON but no object.  A [ValueError] of the decoding is
    never let through. *)
Theorem upload_lets_through_only u image_path subfolder overwrite :
  raises upload_error (upload_image u image_path subfolder overwrite).
Proof.
  intros e. unfold upload_image, upload_error.
  destruct (file_exists u image_path); [|intros [= <-]; auto]. cbn [negb].
  destruct (file_opens u image_path); [|intros [= <-]; auto]. cbn [negb].
  rewrite (result_of_bind _ _ tt) by reflexivity.
  assert (X : forall msg resp,
             result_of (on_upload_exception msg resp) = Raised e ->
             exists m, e = RequestException m).
  { intros msg resp. rewrite on_upload_exception_raises.
    intros [= <-]. now exists msg. }
  destruct (post_upload u _) as [msg resp|r]; [intros H; eauto 6|].
  unfold read_upload.
  destruct (upload_is_http_error r); [intros H; eauto 6|].
  destruct (negb _); [discriminate|].
  destruct (u_body r) as [result|msg [|]]; [|intros H; eauto 6|discriminate].
  destruct result; simpl; try discriminate; intros [= <-]; auto.
Qed.

(** X21.  An answer that cannot be read.  After a request that went
    through with a status that is no error: when the content type of the
    answer is not JSON, [upload_image] returns the base name of the local
    file with the subfolder asked for; when it is JSON and the body cannot
    be decoded, it returns the same if the error of the decoding is a plain
    [ValueError], and raises that error if it is a [RequestException] as
    well. *)
Theorem unreadable_answer_to_an_upload u image_path subfolder overwrite r :
  file_exists u image_path = true ->
  file_opens u image_path = true ->
  post_upload u (request_for u image_path subfolder overwrite)
  = UploadReturns r ->
  upload_is_http_error r = false ->
  let run := upload_image u image_path subfolder overwrite in
  (contains "application/json" (u_content_type r) = false ->
   result_of run = Returned (fallback image_path subfolder))
  /\ (contains "application/json" (u_content_type r) = true ->
      forall msg,
        (u_body r = Undecodable msg false ->
         result_of run = Returned (fallback image_path subfolder))
        /\ (u_body r = Undecodable msg true ->
            result_of run = Raised (RequestException msg))).
Proof.
  intros E O P S run. subst run. unfold upload_image.
  rewrite E, O. cbn [negb].
  rewrite (result_of_bind _ _ tt) by reflexivity.
  rewrite P. unfold read_upload. rewrite S. split.
  - intros ->. reflexivity.
  - intros -> msg. cbn [negb]. split; intros ->.
    + reflexivity.
    + apply on_upload_exception_raises.
Qed.

Lemma unreadable_answer_to_an_upload_witness :
  result_of (upload_image answered_with_a_page "in/cat.png" "" true)
  = Returned (fallback "in/cat.png" "").
Proof.
  refine (proj1 (unreadable_answer_to_an_upload answered_with_a_page
                   "in/cat.png" "" true _ eq_refl eq_refl eq_refl eq_refl) _).
  reflexivity.
Defined.

(** X22.  The image helper with a client.  On a node that has an
    ['inputs'] [dict], when the upload returns, the helper returns a
    workflow whose image field holds the file name of the upload's
    result; when the upload fails, the helper fails with the same
    error. *)
Theorem uploaded_name_is_stored u (wf : workflow) image_path node_id :
  has_inputs wf node_id = true ->
  image_path <> ""%string ->
  let upload := upload_image u image_path "" true in
  let run :=
    update_workflow_image wf (Some (client_of u)) (Some image_path) node_id in
  (forall v, result_of upload = Returned v ->
     exists name wf',
       py_getitem v (JStr "filename") = Ok name
       /\ result_of run = Returned wf'
       /\ input_of wf' node_id "image" = Some name)
  /\ (forall e, result_of upload = Raised e -> result_of run = Raised e).
Proof.
  intros H N upload run. subst upload run.
  destruct (has_inputs_shape _ _ H) as (record & inputs & Hn & Hi).
  unfold update_workflow_image.
  rewrite (given_nonempty _ N), (has_node_present _ _ _ Hn).
  unfold image_value, client_of. split.
  - intros v R.
    destruct (upload_result_shape _ _ _ _ _ R) as (name & sub & ->).
    exists name. eexists. split; [reflexivity|].
    rewrite (result_of_bind _ _ name).
    2:{ now rewrite (result_of_bind _ _ _ R). }
    rewrite (set_input_present wf node_id "image" name _ _ Hn Hi).
    split; [reflexivity|].
    eapply set_input_read_back, set_input_present; eassumption.
  - intros e R. apply result_of_bind_raised.
    now apply result_of_bind_raised.
Qed.

Lemma uploaded_name_is_stored_witness :
  exists name wf',
    py_getitem (input_reference (JStr "cat (1).png") (JStr ""))
      (JStr "filename") = Ok name
    /\ result_of
         (update_workflow_image
            [("1", JObj [("inputs", JObj [("image", JStr "old.png")])])]
            (Some (client_of renamed_by_the_service)) (Some "in/cat.png") "1")
       = Returned wf'
    /\ input_of wf' "1" "image" = Some name.
Proof.
  refine (proj1 (uploaded_name_is_stored renamed_by_the_service
                   [("1", JObj [("inputs", JObj [("image", JStr "old.png")])])]
                   "in/cat.png" "1" eq_refl _) _ _).
  - discriminate.
  - reflexivity.
Defined.

End Uploads.

(** ** [find_images_in_folder] *)

Section FolderMore.

Import Path Folder More.

Lemma insert_sorted_perm x l : Permutation (insert_sorted x l) (x :: l).
Proof.
  induction l as [|y l IH]; simpl; [apply Permutation_refl|].
  destruct (String.leb x y); [apply Permutation_refl|].
  eapply perm_trans; [apply perm_skip, IH|apply perm_swap].
Qed.

Lemma sorted_perm l : Permutation (sorted l) l.
Proof.
  induction l as [|x l IH]; simpl; [constructor|].
  eapply perm_trans; [apply insert_sorted_perm|now apply perm_skip].
Qed.

Lemma insert_sorted_hd x y l :
  str_le y x -> HdRel str_le y l -> HdRel str_le y (insert_sorted x l).
Proof.
  intros Hx Hl. destruct l as [|z l]; simpl; [now constructor|].
  destruct (String.leb x z); constructor; auto. now inversion Hl.
Qed.

Lemma insert_sorted_sorted x l :
  Sorted str_le l -> Sorted str_le (insert_sorted x l).
Proof.
  induction 1 as [|y l Hs IH Hd]; simpl; [now repeat constructor|].
  destruct (String.leb x y) eqn:E.
  - repeat constructor; assumption.
  - constructor; [exact IH|].
    apply insert_sorted_hd; [|exact Hd].
    destruct (String.leb_total x y) as [L|L]; [congruence|exact L].
Qed.

Lemma sorted_sorted l : Sorted str_le (sorted l).
Proof.
  induction l as [|x l IH]; simpl; [constructor|].
  now apply insert_sorted_sorted.
Qed.

(** X23.  [find_images_in_folder] returns the empty list for a folder that
    does not exist.  Otherwise it returns, in ascending order, the paths
    [glob] gives for the patterns [folder/*ext], one pattern per
    extension: every match of every pattern, a path matched by two
    patterns twice. *)
Theorem found_images_are_sorted exists_ glob folder_path extensions :
  let found := find_images_in_folder exists_ glob folder_path extensions in
  (exists_ folder_path = false -> found = [])
  /\ (exists_ folder_path = true ->
      Sorted str_le found
      /\ Permutation found
           (flat_map (fun ext => glob (join folder_path ("*" ++ ext)))
              extensions)).
Proof.
  unfold find_images_in_folder. split; intros ->; cbn [negb].
  - reflexivity.
  - split; [apply sorted_sorted|apply sorted_perm].
Qed.

Lemma found_images_are_sorted_witness :
  let glob := fun pattern : string =>
    if String.eqb pattern "in/*.png" then ["in/b.png"; "in/a.png"]
    else if String.eqb pattern "in/*.jpg" then ["in/a.jpg"]
    else [] in
  Sorted str_le
    (find_images_in_folder (fun _ => true) glob "in" image_extensions)
  /\ Permutation
       (find_images_in_folder (fun _ => true) glob "in" image_extensions)
       ["in/b.png"; "in/a.png"; "in/a.jpg"].
Proof.
  intros glob.
  apply (found_images_are_sorted (fun _ => true) glob "in" image_extensions).
  reflexivity.
Defined.

End FolderMore.

(** ** The patch helpers: the order of the patches *)

Section PatchOrder.

Import Path Patch Spec More.

Lemma assoc_set_swap k1 v1 k2 v2 m old :
  k1 <> k2 -> assoc k1 m = Some old ->
  assoc_set k1 v1 (assoc_set k2 v2 m) = assoc_set k2 v2 (assoc_set k1 v1 m).
Proof.
  intros N. induction m as [|[a w] m IH]; simpl; [discriminate|].
  destruct (String.eqb_spec k1 a) as [->|N1].
  - intros _. destruct (String.eqb_spec k2 a) as [->|N2]; [contradiction|].
    simpl. rewrite String.eqb_refl.
    destruct (String.eqb_spec k2 a); [contradiction|reflexivity].
  - intros H. destruct (String.eqb_spec k2 a) as [->|N2]; simpl.
    + destruct (String.eqb_spec k1 a); [contradiction|].
      now rewrite String.eqb_refl.
    + destruct (String.eqb_spec k1 a); [contradiction|].
      destruct (String.eqb_spec k2 a); [contradiction|].
      now rewrite IH.
Qed.

Lemma has_node_elsewhere m x n wf :
  m <> n -> has_node n (assoc_set m x wf) = has_node n wf.
Proof. intros N. unfold has_node. rewrite assoc_set_other; auto. Qed.

Lemma has_input_elsewhere m x n f wf :
  m <> n -> has_input (assoc_set m x wf) n f = has_input wf n f.
Proof.
  intros N. unfold has_input, node. simpl. rewrite assoc_set_other; auto.
Qed.

Lemma set_input_elsewhere m x n f v wf :
  m <> n ->
  set_input (assoc_set m x wf) n f v
  = and_then (set_input wf n f v) (fun w => Ok (assoc_set m x w)).
Proof.
  intros N. unfold set_input, node. simpl. rewrite assoc_set_other by auto.
  destruct (assoc n wf) as [record|] eqn:Hn; [|reflexivity]. simpl.
  destruct (py_getitem record (JStr "inputs")) as [inputs|]; [|reflexivity].
  simpl. destruct (py_setitem inputs f v) as [inputs'|]; [|reflexivity].
  simpl. destruct (py_setitem record "inputs" inputs') as [record'|];
    [|reflexivity].
  simpl. f_equal. eapply assoc_set_swap; eauto.
Qed.

Lemma result_of_lift {A} (r : result A) :
  result_of (lift r) = match r with Ok a => Returned a | Raise e => Raised e end.
Proof. now destruct r. Qed.

Lemma result_of_set_then_print (r : result workflow) (l : line) :
  result_of (wf' <- lift r ;; print l ;;; ret wf') = result_of (lift r).
Proof. now destruct r. Qed.

Lemma result_of_bind_map {A B C} (m : io A) (f : A -> io C) (g : A -> io B)
    (h : B -> C) :
  (forall a, result_of (f a) = outcome_map h (result_of (g a))) ->
  result_of (bind m f) = outcome_map h (result_of (bind m g)).
Proof.
  intros H. destruct m as [evs [a|e|]]; simpl; auto.
  specialize (H a). destruct (f a), (g a). exact H.
Qed.

Lemma lift_elsewhere m x n f v wf :
  m <> n ->
  result_of (lift (set_input (assoc_set m x wf) n f v))
  = outcome_map (assoc_set m x) (result_of (lift (set_input wf n f v))).
Proof.
  intros N. rewrite (set_input_elsewhere _ _ _ _ _ _ N).
  now destruct (set_input wf n f v).
Qed.

Lemma set_then_print_elsewhere m x n f v wf l :
  m <> n ->
  result_of (wf' <- lift (set_input (assoc_set m x wf) n f v) ;;
             print l ;;; ret wf')
  = outcome_map (assoc_set m x)
      (result_of (wf' <- lift (set_input wf n f v) ;; print l ;;; ret wf')).
Proof.
  intros N. rewrite !result_of_set_then_print. now apply lift_elsewhere.
Qed.

Lemma guarded_elsewhere m x n f v wf l :
  m <> n ->
  result_of (ok <- lift (has_input (assoc_set m x wf) n f) ;;
             if (ok : bool) then
               wf' <- lift (set_input (assoc_set m x wf) n f v) ;;
               print l ;;; ret wf'
             else ret (assoc_set m x wf))
  = outcome_map (assoc_set m x)
      (result_of (ok <- lift (has_input wf n f) ;;
                  if (ok : bool) then
                    wf' <- lift (set_input wf n f v) ;; print l ;;; ret wf'
                  else ret wf)).
Proof.
  intros N. rewrite (has_input_elsewhere _ _ _ _ _ N).
  apply result_of_bind_map. intros [|]; [|reflexivity].
  now apply set_then_print_elsewhere.
Qed.

Lemma apply_patch_elsewhere p m x wf :
  m <> target p ->
  result_of (apply_patch p (assoc_set m x wf))
  = outcome_map (assoc_set m x) (result_of (apply_patch p wf)).
Proof.
  destruct p as [prompt|name n|seed n rnd|client path n]; simpl target;
    intros N; simpl apply_patch.
  - unfold update_workflow_prompt. rewrite (has_node_elsewhere _ _ _ _ N).
    destruct (has_node "111" wf); [|reflexivity].
    now apply lift_elsewhere.
  - unfold update_workflow_lora. destruct (given name) as [nm|]; [|reflexivity].
    rewrite (has_node_elsewhere _ _ _ _ N).
    destruct (has_node n wf); [|reflexivity].
    now apply guarded_elsewhere.
  - unfold update_workflow_seed. rewrite (has_node_elsewhere _ _ _ _ N).
    destruct seed as [value|]; (destruct (has_node n wf); [|reflexivity]);
      now apply guarded_elsewhere.
  - unfold update_workflow_image. destruct (given path) as [pth|];
      [|reflexivity].
    rewrite (has_node_elsewhere _ _ _ _ N).
    destruct (has_node n wf); [|reflexivity].
    apply result_of_bind_map. intros v.
    now apply set_then_print_elsewhere.
Qed.

Lemma set_input_local wf n f v wf1 :
  set_input wf n f v = Ok wf1 ->
  exists record old, assoc n wf = Some old /\ wf1 = assoc_set n record wf.
Proof.
  intros H. apply set_input_ok in H as (record & inputs & Hn & _ & ->).
  eauto.
Qed.

Lemma set_then_print_local wf n f v l wf1 :
  result_of (wf' <- lift (set_input wf n f v) ;; print l ;;; ret wf')
  = Returned wf1 ->
  exists record old, assoc n wf = Some old /\ wf1 = assoc_set n record wf.
Proof.
  rewrite result_of_set_then_print. intros H. apply lift_result in H.
  eapply set_input_local; eassumption.
Qed.

Lemma apply_patch_local p wf wf1 :
  result_of (apply_patch p wf) = Returned wf1 ->
  wf1 = wf
  \/ exists record old,
       assoc (target p) wf = Some old /\ wf1 = assoc_set (target p) record wf.
Proof.
  destruct p as [prompt|name n|seed n rnd|client path n]; simpl.
  - unfold update_workflow_prompt.
    destruct (has_node "111" wf); [|intros [= <-]; auto].
    intros H. apply lift_result in H. right.
    eapply set_input_local; eassumption.
  - unfold update_workflow_lora.
    destruct (given name) as [nm|]; [|intros [= <-]; auto].
    destruct (has_node n wf); [|intros [= <-]; auto].
    intros H. apply result_bind_returned in H as ([] & _ & H);
      [|injection H as <-; auto].
    right. eapply set_then_print_local; eassumption.
  - unfold update_workflow_seed.
    destruct seed as [value|];
      (destruct (has_node n wf); [|intros [= <-]; auto]);
      intros H; apply result_bind_returned in H as ([] & _ & H);
      try (injection H as <-; auto; fail);
      right; eapply set_then_print_local; eassumption.
  - unfold update_workflow_image.
    destruct (given path) as [pth|]; [|intros [= <-]; auto].
    destruct (has_node n wf); [|intros [= <-]; auto].
    intros H. apply result_bind_returned in H as (v & _ & H).
    right. eapply set_then_print_local; eassumption.
Qed.

Lemma patches_swap p q wf wf' :
  target p <> target q ->
  result_of (wf1 <- apply_patch p wf ;; apply_patch q wf1) = Returned wf' ->
  result_of (wf1 <- apply_patch q wf ;; apply_patch p wf1) = Returned wf'.
Proof.
  intros N H. apply result_bind_returned in H as (wf1 & Hp & Hq).
  assert (Np : target q <> target p) by congruence.
  destruct (apply_patch_local _ _ _ Hp) as [->|(R & old & Hn & ->)].
  - rewrite (result_of_bind _ _ _ Hq).
    destruct (apply_patch_local _ _ _ Hq) as [->|(R' & old' & Hm & ->)];
      [exact Hp|].
    rewrite (apply_patch_elsewhere p _ _ _ Np), Hp. reflexivity.
  - rewrite (apply_patch_elsewhere q _ _ _ N) in Hq.
    destruct (result_of (apply_patch q wf)) as [wf2|e|] eqn:Q;
      try discriminate.
    injection Hq as <-. rewrite (result_of_bind _ _ _ Q).
    destruct (apply_patch_local _ _ _ Q) as [->|(R' & old' & Hm & ->)];
      [exact Hp|].
    rewrite (apply_patch_elsewhere p _ _ _ Np), Hp. simpl. f_equal.
    symmetry. eapply assoc_set_swap; eauto.
Qed.

(** X24.  Patches of different nodes can be made in either order: two
    calls of patch helpers that target different nodes give, one after the
    other, the same workflow in both orders, and one order returns exactly
    when the other does. *)
Theorem independent_patches_commute (p q : patch) (wf wf' : workflow) :
  target p <> target q ->
  result_of (wf1 <- apply_patch p wf ;; apply_patch q wf1) = Returned wf'
  <-> result_of (wf1 <- apply_patch q wf ;; apply_patch p wf1) = Returned wf'.
Proof.
  intros N. split; apply patches_swap; congruence.
Qed.

Lemma independent_patches_commute_witness :
  let wf := [("3", JObj [("inputs", JObj [("seed", JNum 1)])]);
             ("111", JObj [("inputs", JObj [("prompt", JStr "a dog")])])] in
  let wf' := [("3", JObj [("inputs", JObj [("seed", JNum 7)])]);
              ("111", JObj [("inputs", JObj [("prompt", JStr "a cat")])])] in
  result_of (wf1 <- update_workflow_seed wf (Some 7%Z) "3" 0%Z ;;
             update_workflow_prompt wf1 "a cat") = Returned wf'.
Proof.
  intros wf wf'.
  apply (independent_patches_commute (Prompt_ "a cat") (Seed_ (Some 7%Z) "3" 0%Z)
           wf wf').
  - discriminate.
  - reflexivity.
Defined.

End PatchOrder.

(** ** [generate_image]: the names of two files *)

Section SavedNames.

Import Path Spec More.
Local Open Scope string_scope.

Lemma append_inv_head (a b c : string) : a ++ b = a ++ c -> b = c.
Proof. induction a as [|x a IH]; simpl; [auto|]. intros [= H]. auto. Qed.

Lemma new_filename_inj (f f' : string) (d d' : datetime) :
  new_filename f (strftime d) = new_filename f' (strftime d') ->
  f = f' /\ strftime d = strftime d'.
Proof.
  intros H.
  assert (E : splitext f = splitext f').
  { rewrite <- (strip_new_filename f d), <- (strip_new_filename f' d').
    now rewrite H. }
  split.
  - rewrite <- (splitext_app f), <- (splitext_app f'). now rewrite E.
  - rewrite !new_filename_eq, E in H.
    apply append_inv_head in H. apply (append_inv_head "_") in H.
    pose proof (take_app_length (strftime d) (snd (splitext f'))) as T.
    pose proof (take_app_length (strftime d') (snd (splitext f'))) as T'.
    rewrite strftime_length in T, T'. congruence.
Qed.

Lemma join_relative_inj (output_dir a b : string) :
  startswith_sep a = false -> startswith_sep b = false ->
  join output_dir a = join output_dir b -> a = b.
Proof.
  unfold join. intros -> ->.
  destruct (_ || _); intros H; apply append_inv_head in H; auto.
  now injection H.
Qed.

(** X25.  The paths of two files.  For file names that do not begin with
    ["/"], the paths [generate_image] computes for two images are the same
    string exactly when the two file names are the same string and the two
    timestamps are equal.  The subfolder and the type of a reference have
    no part in the path; names that differ as strings, or seconds that
    differ, give paths that differ as strings (which may still name one
    file, as [a.png] and [./a.png] do). *)
Theorem same_path_for_same_name_and_second
    (output_dir f f' : string) (d d' : datetime) :
  startswith_sep f = false -> startswith_sep f' = false ->
  join output_dir (new_filename f (strftime d))
  = join output_dir (new_filename f' (strftime d'))
  <-> f = f' /\ strftime d = strftime d'.
Proof.
  intros R R'. split.
  - intros H. apply new_filename_inj.
    apply (join_relative_inj output_dir); auto;
      now rewrite startswith_sep_new_filename.
  - now intros [-> ->].
Qed.

Lemma same_path_for_same_name_and_second_witness :
  let d := {| year := 2026; month := 1; day := 2;
              hour := 3; minute := 4; second := 5 |} in
  let d' := {| year := 2026; month := 1; day := 2;
               hour := 3; minute := 4; second := 6 |} in
  join "output" (new_filename "a.png" (strftime d))
  <> join "output" (new_filename "b.png" (strftime d'))
  /\ join "output" (new_filename "a.png" (strftime d))
     <> join "output" (new_filename "a.png" (strftime d')).
Proof.
  intros d d'. split; intros H.
  - apply (same_path_for_same_name_and_second "output" "a.png" "b.png" d d')
      in H as [E _]; [discriminate|reflexivity|reflexivity].
  - apply (same_path_for_same_name_and_second "output" "a.png" "a.png" d d')
      in H as [_ E]; [discriminate|reflexivity|reflexivity].
Defined.

End SavedNames.
